(** * The Ren'Py sound core: a shallow embedding of [renpysound_core.c]

    The mixer keeps a table of channels, each with a playing and a queued
    stream, three linear interpolators (fade, pan, secondary volume) and a
    stop counter.  The audio callback pulls PCM from the playing streams,
    sums it into a float buffer and writes clipped 16-bit output; the control
    API ([RPS_play], [RPS_queue], ...) edits the channel table.

    C [int] and [unsigned int] are 32 bits wide and are modelled as [Z] and
    [N] with the wrap-around written out.  C [float] is IEEE binary32 and
    [double] is binary64, both modelled by [spec_float] with the operations
    of the standard library's [SpecFloat] at the matching precision.  The two
    locks only serialise the callback against the control thread; the model
    runs every function atomically and so does not mention them. *)

From Stdlib Require Import ZArith NArith QArith Qpower Bool Lia SpecFloat.
From stdpp Require Import base option list strings.

Local Open Scope Z_scope.

(** ** Machine integers *)

Definition INT_MIN : Z := - 2 ^ 31.
Definition INT_MAX : Z := 2 ^ 31 - 1.

(** Conversion of a mathematical integer to [int]: two's complement wrap. *)
Definition wrap_int (z : Z) : Z := (z + 2 ^ 31) mod 2 ^ 32 - 2 ^ 31.

(** Conversion of an [int] to [unsigned int]. *)
Definition to_unsigned (z : Z) : N := Z.to_N (z mod 2 ^ 32).

(** ** Floating point

    [float] operations round to nearest even at 24 bits of precision,
    [double] operations at 53 bits. *)

Module F32.
Definition prec : Z := 24.
Definition emax : Z := 128.

Definition add : spec_float -> spec_float -> spec_float := SFadd prec emax.
Definition sub : spec_float -> spec_float -> spec_float := SFsub prec emax.
Definition mul : spec_float -> spec_float -> spec_float := SFmul prec emax.
Definition div : spec_float -> spec_float -> spec_float := SFdiv prec emax.

(** [(float) z] for an integer [z]. *)
Definition of_Z (z : Z) : spec_float := binary_normalize prec emax z 0 false.

(** [(float) d] for a [double] [d]. *)
Definition of_double (d : spec_float) : spec_float :=
  match d with
  | S754_finite s m e => binary_normalize prec emax (cond_Zopp s (Zpos m)) e s
  | _ => d
  end.

Definition zero : spec_float := S754_zero false.
Definition one : spec_float := of_Z 1.
End F32.

Module F64.
Definition prec : Z := 53.
Definition emax : Z := 1024.

Definition mul : spec_float -> spec_float -> spec_float := SFmul prec emax.
Definition div : spec_float -> spec_float -> spec_float := SFdiv prec emax.
Definition of_Z (z : Z) : spec_float := binary_normalize prec emax z 0 false.

Definition one : spec_float := of_Z 1.
End F64.

(** The integer part of a finite float, rounded toward zero. *)
Definition truncate (x : spec_float) : option Z :=
  match x with
  | S754_zero _ => Some 0
  | S754_finite s m e => Some (cond_Zopp s (Z.shiftl (Zpos m) e))
  | _ => None
  end.

(** [(int) x] for a float or double [x].  C defines the conversion only when
    the truncated value fits an [int]; [None] stands for the undefined
    cases (NaN, infinities, out of range). *)
Definition float_to_int (x : spec_float) : option Z :=
  match truncate x with
  | Some z => if (INT_MIN <=? z) && (z <=? INT_MAX) then Some z else None
  | None => None
  end.

(** Where the result of an undefined conversion is stored anyway, the model
    stores [INT_MIN], the value x86's conversion instructions produce. *)
Definition int_of_float (x : spec_float) : Z := default INT_MIN (float_to_int x).

(** The rational value of a finite float (0 for the others). *)
Definition SF2Q (x : spec_float) : Q :=
  match x with
  | S754_finite s m e => inject_Z (cond_Zopp s (Zpos m)) * (2 ^ e)%Q
  | _ => 0%Q
  end.

Definition is_finite (x : spec_float) : bool :=
  match x with
  | S754_zero _ | S754_finite _ _ _ => true
  | _ => false
  end.

(** ** Data model *)

(** One stereo sample-frame of signed 16-bit PCM: left and right. *)
Definition frame : Type := Z * Z.

Definition MIN_SHORT : Z := -32768.
Definition MAX_SHORT : Z := 32767.

(** The decoder behind a [MediaState *] is opaque to the mixer.  What the
    mixer observes of it is the sequence of results of [media_read_audio]:
    [ms_chunks] lists the frames each coming read can deliver (a chunk shorter
    than the request is a short read, an empty chunk or no chunk at all is the
    end of the stream). *)
Record MediaState := {
  ms_id : nat;
  ms_chunks : list (list frame);
}.

Record Interpolate := {
  i_done : N;          (* unsigned int done *)
  i_duration : N;      (* unsigned int duration *)
  i_start : spec_float;
  i_end : spec_float;
}.

Record Channel := {
  playing : option MediaState;
  playing_name : option string;
  playing_fadein : Z;
  playing_tight : Z;
  playing_start_ms : Z;
  playing_relative_volume : spec_float;
  queued : option MediaState;
  queued_name : option string;
  queued_fadein : Z;
  queued_tight : Z;
  queued_start_ms : Z;
  queued_relative_volume : spec_float;
  paused : Z;
  mixer_volume : spec_float;
  secondary_volume : Interpolate;
  pos : Z;
  fade : Interpolate;
  stop_samples : Z;
  event : Z;
  pan : Interpolate;
  video : Z;
}.

(** Assignment to one field of a channel, the others kept. *)

Definition set_playing (v : option MediaState) (c : Channel) : Channel :=
  {| playing := v; playing_name := playing_name c; playing_fadein := playing_fadein c;
     playing_tight := playing_tight c; playing_start_ms := playing_start_ms c;
     playing_relative_volume := playing_relative_volume c; queued := queued c;
     queued_name := queued_name c; queued_fadein := queued_fadein c;
     queued_tight := queued_tight c; queued_start_ms := queued_start_ms c;
     queued_relative_volume := queued_relative_volume c; paused := paused c;
     mixer_volume := mixer_volume c; secondary_volume := secondary_volume c;
     pos := pos c; fade := fade c; stop_samples := stop_samples c; event := event c;
     pan := pan c; video := video c |}.

Definition set_playing_name (v : option string) (c : Channel) : Channel :=
  {| playing := playing c; playing_name := v; playing_fadein := playing_fadein c;
     playing_tight := playing_tight c; playing_start_ms := playing_start_ms c;
     playing_relative_volume := playing_relative_volume c; queued := queued c;
     queued_name := queued_name c; queued_fadein := queued_fadein c;
     queued_tight := queued_tight c; queued_start_ms := queued_start_ms c;
     queued_relative_volume := queued_relative_volume c; paused := paused c;
     mixer_volume := mixer_volume c; secondary_volume := secondary_volume c;
     pos := pos c; fade := fade c; stop_samples := stop_samples c; event := event c;
     pan := pan c; video := video c |}.

Definition set_playing_fadein (v : Z) (c : Channel) : Channel :=
  {| playing := playing c; playing_name := playing_name c; playing_fadein := v;
     playing_tight := playing_tight c; playing_start_ms := playing_start_ms c;
     playing_relative_volume := playing_relative_volume c; queued := queued c;
     queued_name := queued_name c; queued_fadein := queued_fadein c;
     queued_tight := queued_tight c; queued_start_ms := queued_start_ms c;
     queued_relative_volume := queued_relative_volume c; paused := paused c;
     mixer_volume := mixer_volume c; secondary_volume := secondary_volume c;
     pos := pos c; fade := fade c; stop_samples := stop_samples c; event := event c;
     pan := pan c; video := video c |}.

Definition set_playing_tight (v : Z) (c : Channel) : Channel :=
  {| playing := playing c; playing_name := playing_name c;
     playing_fadein := playing_fadein c; playing_tight := v;
     playing_start_ms := playing_start_ms c;
     playing_relative_volume := playing_relative_volume c; queued := queued c;
     queued_name := queued_name c; queued_fadein := queued_fadein c;
     queued_tight := queued_tight c; queued_start_ms := queued_start_ms c;
     queued_relative_volume := queued_relative_volume c; paused := paused c;
     mixer_volume := mixer_volume c; secondary_volume := secondary_volume c;
     pos := pos c; fade := fade c; stop_samples := stop_samples c; event := event c;
     pan := pan c; video := video c |}.

Definition set_playing_start_ms (v : Z) (c : Channel) : Channel :=
  {| playing := playing c; playing_name := playing_name c;
     playing_fadein := playing_fadein c; playing_tight := playing_tight c;
     playing_start_ms := v; playing_relative_volume := playing_relative_volume c;
     queued := queued c; queued_name := queued_name c; queued_fadein := queued_fadein c;
     queued_tight := queued_tight c; queued_start_ms := queued_start_ms c;
     queued_relative_volume := queued_relative_volume c; paused := paused c;
     mixer_volume := mixer_volume c; secondary_volume := secondary_volume c;
     pos := pos c; fade := fade c; stop_samples := stop_samples c; event := event c;
     pan := pan c; video := video c |}.

Definition set_playing_relative_volume (v : spec_float) (c : Channel) : Channel :=
  {| playing := playing c; playing_name := playing_name c;
     playing_fadein := playing_fadein c; playing_tight := playing_tight c;
     playing_start_ms := playing_start_ms c; playing_relative_volume := v;
     queued := queued c; queued_name := queued_name c; queued_fadein := queued_fadein c;
     queued_tight := queued_tight c; queued_start_ms := queued_start_ms c;
     queued_relative_volume := queued_relative_volume c; paused := paused c;
     mixer_volume := mixer_volume c; secondary_volume := secondary_volume c;
     pos := pos c; fade := fade c; stop_samples := stop_samples c; event := event c;
     pan := pan c; video := video c |}.

Definition set_queued (v : option MediaState) (c : Channel) : Channel :=
  {| playing := playing c; playing_name := playing_name c;
     playing_fadein := playing_fadein c; playing_tight := playing_tight c;
     playing_start_ms := playing_start_ms c;
     playing_relative_volume := playing_relative_volume c; queued := v;
     queued_name := queued_name c; queued_fadein := queued_fadein c;
     queued_tight := queued_tight c; queued_start_ms := queued_start_ms c;
     queued_relative_volume := queued_relative_volume c; paused := paused c;
     mixer_volume := mixer_volume c; secondary_volume := secondary_volume c;
     pos := pos c; fade := fade c; stop_samples := stop_samples c; event := event c;
     pan := pan c; video := video c |}.

Definition set_queued_name (v : option string) (c : Channel) : Channel :=
  {| playing := playing c; playing_name := playing_name c;
     playing_fadein := playing_fadein c; playing_tight := playing_tight c;
     playing_start_ms := playing_start_ms c;
     playing_relative_volume := playing_relative_volume c; queued := queued c;
     queued_name := v; queued_fadein := queued_fadein c; queued_tight := queued_tight c;
     queued_start_ms := queued_start_ms c;
     queued_relative_volume := queued_relative_volume c; paused := paused c;
     mixer_volume := mixer_volume c; secondary_volume := secondary_volume c;
     pos := pos c; fade := fade c; stop_samples := stop_samples c; event := event c;
     pan := pan c; video := video c |}.

Definition set_queued_fadein (v : Z) (c : Channel) : Channel :=
  {| playing := playing c; playing_name := playing_name c;
     playing_fadein := playing_fadein c; playing_tight := playing_tight c;
     playing_start_ms := playing_start_ms c;
     playing_relative_volume := playing_relative_volume c; queued := queued c;
     queued_name := queued_name c; queued_fadein := v; queued_tight := queued_tight c;
     queued_start_ms := queued_start_ms c;
     queued_relative_volume := queued_relative_volume c; paused := paused c;
     mixer_volume := mixer_volume c; secondary_volume := secondary_volume c;
     pos := pos c; fade := fade c; stop_samples := stop_samples c; event := event c;
     pan := pan c; video := video c |}.

Definition set_queued_tight (v : Z) (c : Channel) : Channel :=
  {| playing := playing c; playing_name := playing_name c;
     playing_fadein := playing_fadein c; playing_tight := playing_tight c;
     playing_start_ms := playing_start_ms c;
     playing_relative_volume := playing_relative_volume c; queued := queued c;
     queued_name := queued_name c; queued_fadein := queued_fadein c; queued_tight := v;
     queued_start_ms := queued_start_ms c;
     queued_relative_volume := queued_relative_volume c; paused := paused c;
     mixer_volume := mixer_volume c; secondary_volume := secondary_volume c;
     pos := pos c; fade := fade c; stop_samples := stop_samples c; event := event c;
     pan := pan c; video := video c |}.

Definition set_queued_start_ms (v : Z) (c : Channel) : Channel :=
  {| playing := playing c; playing_name := playing_name c;
     playing_fadein := playing_fadein c; playing_tight := playing_tight c;
     playing_start_ms := playing_start_ms c;
     playing_relative_volume := playing_relative_volume c; queued := queued c;
     queued_name := queued_name c; queued_fadein := queued_fadein c;
     queued_tight := queued_tight c; queued_start_ms := v;
     queued_relative_volume := queued_relative_volume c; paused := paused c;
     mixer_volume := mixer_volume c; secondary_volume := secondary_volume c;
     pos := pos c; fade := fade c; stop_samples := stop_samples c; event := event c;
     pan := pan c; video := video c |}.

Definition set_queued_relative_volume (v : spec_float) (c : Channel) : Channel :=
  {| playing := playing c; playing_name := playing_name c;
     playing_fadein := playing_fadein c; playing_tight := playing_tight c;
     playing_start_ms := playing_start_ms c;
     playing_relative_volume := playing_relative_volume c; queued := queued c;
     queued_name := queued_name c; queued_fadein := queued_fadein c;
     queued_tight := queued_tight c; queued_start_ms := queued_start_ms c;
     queued_relative_volume := v; paused := paused c; mixer_volume := mixer_volume c;
     secondary_volume := secondary_volume c; pos := pos c; fade := fade c;
     stop_samples := stop_samples c; event := event c; pan := pan c; video := video c |}.

Definition set_paused (v : Z) (c : Channel) : Channel :=
  {| playing := playing c; playing_name := playing_name c;
     playing_fadein := playing_fadein c; playing_tight := playing_tight c;
     playing_start_ms := playing_start_ms c;
     playing_relative_volume := playing_relative_volume c; queued := queued c;
     queued_name := queued_name c; queued_fadein := queued_fadein c;
     queued_tight := queued_tight c; queued_start_ms := queued_start_ms c;
     queued_relative_volume := queued_relative_volume c; paused := v;
     mixer_volume := mixer_volume c; secondary_volume := secondary_volume c;
     pos := pos c; fade := fade c; stop_samples := stop_samples c; event := event c;
     pan := pan c; video := video c |}.

Definition set_mixer_volume (v : spec_float) (c : Channel) : Channel :=
  {| playing := playing c; playing_name := playing_name c;
     playing_fadein := playing_fadein c; playing_tight := playing_tight c;
     playing_start_ms := playing_start_ms c;
     playing_relative_volume := playing_relative_volume c; queued := queued c;
     queued_name := queued_name c; queued_fadein := queued_fadein c;
     queued_tight := queued_tight c; queued_start_ms := queued_start_ms c;
     queued_relative_volume := queued_relative_volume c; paused := paused c;
     mixer_volume := v; secondary_volume := secondary_volume c; pos := pos c;
     fade := fade c; stop_samples := stop_samples c; event := event c; pan := pan c;
     video := video c |}.

Definition set_secondary_volume (v : Interpolate) (c : Channel) : Channel :=
  {| playing := playing c; playing_name := playing_name c;
     playing_fadein := playing_fadein c; playing_tight := playing_tight c;
     playing_start_ms := playing_start_ms c;
     playing_relative_volume := playing_relative_volume c; queued := queued c;
     queued_name := queued_name c; queued_fadein := queued_fadein c;
     queued_tight := queued_tight c; queued_start_ms := queued_start_ms c;
     queued_relative_volume := queued_relative_volume c; paused := paused c;
     mixer_volume := mixer_volume c; secondary_volume := v; pos := pos c; fade := fade c;
     stop_samples := stop_samples c; event := event c; pan := pan c; video := video c |}.

Definition set_pos (v : Z) (c : Channel) : Channel :=
  {| playing := playing c; playing_name := playing_name c;
     playing_fadein := playing_fadein c; playing_tight := playing_tight c;
     playing_start_ms := playing_start_ms c;
     playing_relative_volume := playing_relative_volume c; queued := queued c;
     queued_name := queued_name c; queued_fadein := queued_fadein c;
     queued_tight := queued_tight c; queued_start_ms := queued_start_ms c;
     queued_relative_volume := queued_relative_volume c; paused := paused c;
     mixer_volume := mixer_volume c; secondary_volume := secondary_volume c; pos := v;
     fade := fade c; stop_samples := stop_samples c; event := event c; pan := pan c;
     video := video c |}.

Definition set_fade (v : Interpolate) (c : Channel) : Channel :=
  {| playing := playing c; playing_name := playing_name c;
     playing_fadein := playing_fadein c; playing_tight := playing_tight c;
     playing_start_ms := playing_start_ms c;
     playing_relative_volume := playing_relative_volume c; queued := queued c;
     queued_name := queued_name c; queued_fadein := queued_fadein c;
     queued_tight := queued_tight c; queued_start_ms := queued_start_ms c;
     queued_relative_volume := queued_relative_volume c; paused := paused c;
     mixer_volume := mixer_volume c; secondary_volume := secondary_volume c;
     pos := pos c; fade := v; stop_samples := stop_samples c; event := event c;
     pan := pan c; video := video c |}.

Definition set_stop_samples (v : Z) (c : Channel) : Channel :=
  {| playing := playing c; playing_name := playing_name c;
     playing_fadein := playing_fadein c; playing_tight := playing_tight c;
     playing_start_ms := playing_start_ms c;
     playing_relative_volume := playing_relative_volume c; queued := queued c;
     queued_name := queued_name c; queued_fadein := queued_fadein c;
     queued_tight := queued_tight c; queued_start_ms := queued_start_ms c;
     queued_relative_volume := queued_relative_volume c; paused := paused c;
     mixer_volume := mixer_volume c; secondary_volume := secondary_volume c;
     pos := pos c; fade := fade c; stop_samples := v; event := event c; pan := pan c;
     video := video c |}.

Definition set_event (v : Z) (c : Channel) : Channel :=
  {| playing := playing c; playing_name := playing_name c;
     playing_fadein := playing_fadein c; playing_tight := playing_tight c;
     playing_start_ms := playing_start_ms c;
     playing_relative_volume := playing_relative_volume c; queued := queued c;
     queued_name := queued_name c; queued_fadein := queued_fadein c;
     queued_tight := queued_tight c; queued_start_ms := queued_start_ms c;
     queued_relative_volume := queued_relative_volume c; paused := paused c;
     mixer_volume := mixer_volume c; secondary_volume := secondary_volume c;
     pos := pos c; fade := fade c; stop_samples := stop_samples c; event := v;
     pan := pan c; video := video c |}.

Definition set_pan (v : Interpolate) (c : Channel) : Channel :=
  {| playing := playing c; playing_name := playing_name c;
     playing_fadein := playing_fadein c; playing_tight := playing_tight c;
     playing_start_ms := playing_start_ms c;
     playing_relative_volume := playing_relative_volume c; queued := queued c;
     queued_name := queued_name c; queued_fadein := queued_fadein c;
     queued_tight := queued_tight c; queued_start_ms := queued_start_ms c;
     queued_relative_volume := queued_relative_volume c; paused := paused c;
     mixer_volume := mixer_volume c; secondary_volume := secondary_volume c;
     pos := pos c; fade := fade c; stop_samples := stop_samples c; event := event c;
     pan := v; video := video c |}.

Definition set_video (v : Z) (c : Channel) : Channel :=
  {| playing := playing c; playing_name := playing_name c;
     playing_fadein := playing_fadein c; playing_tight := playing_tight c;
     playing_start_ms := playing_start_ms c;
     playing_relative_volume := playing_relative_volume c; queued := queued c;
     queued_name := queued_name c; queued_fadein := queued_fadein c;
     queued_tight := queued_tight c; queued_start_ms := queued_start_ms c;
     queued_relative_volume := queued_relative_volume c; paused := paused c;
     mixer_volume := mixer_volume c; secondary_volume := secondary_volume c;
     pos := pos c; fade := fade c; stop_samples := stop_samples c; event := event c;
     pan := pan c; video := v |}.

(** The globals of the translation unit.  [num_channels] is the length of
    [channels]: every access to the table is guarded by it.  [events] logs
    the events pushed to the host queue and [closed] the decoders given to
    [media_close], both newest first; [realloc_ok] tells whether the
    allocator grants a request to grow the table. *)
Record State := {
  channels : list Channel;
  RPS_error : Z;
  error_msg : option string;
  initialized : Z;
  dying : list MediaState;
  audio_spec_freq : Z;
  events : list Z;
  closed : list MediaState;
  realloc_ok : bool;
}.

Definition set_channels (v : list Channel) (st : State) : State :=
  {| channels := v; RPS_error := RPS_error st; error_msg := error_msg st;
     initialized := initialized st; dying := dying st;
     audio_spec_freq := audio_spec_freq st; events := events st; closed := closed st;
     realloc_ok := realloc_ok st |}.

Definition set_RPS_error (v : Z) (st : State) : State :=
  {| channels := channels st; RPS_error := v; error_msg := error_msg st;
     initialized := initialized st; dying := dying st;
     audio_spec_freq := audio_spec_freq st; events := events st; closed := closed st;
     realloc_ok := realloc_ok st |}.

Definition set_error_msg (v : option string) (st : State) : State :=
  {| channels := channels st; RPS_error := RPS_error st; error_msg := v;
     initialized := initialized st; dying := dying st;
     audio_spec_freq := audio_spec_freq st; events := events st; closed := closed st;
     realloc_ok := realloc_ok st |}.

Definition set_initialized (v : Z) (st : State) : State :=
  {| channels := channels st; RPS_error := RPS_error st; error_msg := error_msg st;
     initialized := v; dying := dying st; audio_spec_freq := audio_spec_freq st;
     events := events st; closed := closed st; realloc_ok := realloc_ok st |}.

Definition set_dying (v : list MediaState) (st : State) : State :=
  {| channels := channels st; RPS_error := RPS_error st; error_msg := error_msg st;
     initialized := initialized st; dying := v; audio_spec_freq := audio_spec_freq st;
     events := events st; closed := closed st; realloc_ok := realloc_ok st |}.

Definition set_audio_spec_freq (v : Z) (st : State) : State :=
  {| channels := channels st; RPS_error := RPS_error st; error_msg := error_msg st;
     initialized := initialized st; dying := dying st; audio_spec_freq := v;
     events := events st; closed := closed st; realloc_ok := realloc_ok st |}.

Definition set_events (v : list Z) (st : State) : State :=
  {| channels := channels st; RPS_error := RPS_error st; error_msg := error_msg st;
     initialized := initialized st; dying := dying st;
     audio_spec_freq := audio_spec_freq st; events := v; closed := closed st;
     realloc_ok := realloc_ok st |}.

Definition set_closed (v : list MediaState) (st : State) : State :=
  {| channels := channels st; RPS_error := RPS_error st; error_msg := error_msg st;
     initialized := initialized st; dying := dying st;
     audio_spec_freq := audio_spec_freq st; events := events st; closed := v;
     realloc_ok := realloc_ok st |}.

Definition set_realloc_ok (v : bool) (st : State) : State :=
  {| channels := channels st; RPS_error := RPS_error st; error_msg := error_msg st;
     initialized := initialized st; dying := dying st;
     audio_spec_freq := audio_spec_freq st; events := events st; closed := closed st;
     realloc_ok := v |}.

Definition num_channels (st : State) : Z := Z.of_nat (length (channels st)).

(** Error codes. *)
Definition SUCCESS : Z := 0.
Definition SDL_ERROR : Z := -1.
Definition SOUND_ERROR : Z := -2.
Definition RPS_ERROR : Z := -3.

(** The macro [error(err)]: [RPS_error = err]. *)
Definition error (err : Z) (st : State) : State := set_RPS_error err st.

(** ** Interpolators *)

Definition init_interpolate (value : spec_float) : Interpolate :=
  {| i_done := 0; i_duration := 0; i_start := value; i_end := value |}.

Definition lerp (start end_ done : spec_float) : spec_float :=
  F32.add start (F32.mul (F32.sub end_ start) done).

(** [get_interpolate] receives a pointer to the interpolator; the model
    returns the value together with the interpolator as the call leaves it. *)
Definition get_interpolate (i : Interpolate) : spec_float * Interpolate :=
  if (i_duration i <=? i_done i)%N then
    (i_end i, i)
  else
    (lerp (i_start i) (i_end i)
       (F32.div (F32.of_Z (Z.of_N (i_done i))) (F32.of_Z (Z.of_N (i_duration i)))),
     i).

(** ** Sample counts *)

(** [((long long) ms) * audio_spec.freq / 1000], returned as an [int].  The
    product of two [int]s fits a [long long]; C division truncates. *)
Definition ms_to_samples (st : State) (ms : Z) : Z :=
  wrap_int (Z.quot (ms * audio_spec_freq st) 1000).

(** [((long long) samples) * 1000 / audio_spec.freq].  C leaves division by
    zero undefined (the process is stopped by a signal); [Z.quot] gives 0
    there, so a statement about the value computed is made for a sample rate
    other than 0. *)
Definition samples_to_ms (st : State) (samples : Z) : Z :=
  wrap_int (Z.quot (samples * 1000) (audio_spec_freq st)).

(** ** Streams *)

(** [start_stream] is only ever called on a channel of the table, so the
    test for a null pointer never fires. *)
Definition start_stream (st : State) (c : Channel) (reset_fade : bool) : Channel :=
  let c := set_pos 0 c in
  if reset_fade then
    let c := set_fade {| i_start := F32.zero; i_end := F32.one; i_done := 0;
                         i_duration := to_unsigned (ms_to_samples st (playing_fadein c)) |} c in
    set_stop_samples (-1) c
  else c.

(** [free_stream] is [media_close]. *)
Definition free_stream (ss : MediaState) (st : State) : State :=
  set_closed (ss :: closed st) st.

Definition post_event (c : Channel) (st : State) : State :=
  if event c =? 0 then st else set_events (event c :: events st) st.

(** [media_read_audio(ms, stream, len)]: the decoder writes what it delivers
    at the start of [stream] and returns the number of bytes written, at most
    [len].  A frame is four bytes. *)
Definition write_frames (fs : list frame) (stream : list Z) : list Z :=
  let shorts := concat (map (fun f : frame => [f.1; f.2]) fs) in
  take (length stream) (shorts ++ drop (length shorts) stream).

Definition media_read_audio (ms : MediaState) (stream : list Z) (len : Z)
  : Z * list Z * MediaState :=
  let cap := Z.to_nat (len / 4) in
  match ms_chunks ms with
  | [] => (0, stream, ms)
  | chunk :: rest =>
      let given := take cap chunk in
      let left := drop cap chunk in
      let rest' := match left with [] => rest | _ => left :: rest end in
      (4 * Z.of_nat (length given), write_frames given stream,
       {| ms_id := ms_id ms; ms_chunks := rest' |})
  end.

(** ** The mixer callback *)

#[local] Instance spec_float_inhabited : Inhabited spec_float := populate F32.zero.

(** [left_in / 1.0 / -MIN_SHORT], stored in a [float]: the [short] is
    promoted, the two divisions are carried out in [double], and the result
    is converted to [float]. *)
Definition sample_to_float (sample : Z) : spec_float :=
  F32.of_double (F64.div (F64.div (F64.of_Z sample) F64.one) (F64.of_Z (- MIN_SHORT))).

(** [mix_sample] receives the channel and the two accumulators by pointer;
    the model returns all three as the call leaves them. *)
Definition mix_sample (c : Channel) (left_in right_in : Z) (left_out right_out : spec_float)
  : Channel * spec_float * spec_float :=
  let left := sample_to_float left_in in
  let right := sample_to_float right_in in
  (c, F32.add left_out left, F32.add right_out right).

(** The inner loop [while (c->stop_samples && read_length)].  It returns the
    channel, the mix buffer and [mixed]. *)
Fixpoint mix_frames (read_length : nat) (c : Channel) (stream_buffer : list Z)
    (mix_buffer : list spec_float) (mixed : nat) : Channel * list spec_float * nat :=
  match read_length with
  | O => (c, mix_buffer, mixed)
  | S read_length' =>
      if stop_samples c =? 0 then (c, mix_buffer, mixed)
      else
        let '(c, left_out, right_out) :=
          mix_sample c (stream_buffer !!! (mixed * 2)%nat) (stream_buffer !!! (mixed * 2 + 1)%nat)
                       (mix_buffer !!! (mixed * 2)%nat) (mix_buffer !!! (mixed * 2 + 1)%nat) in
        let mix_buffer := <[(mixed * 2 + 1)%nat := right_out]> (<[(mixed * 2)%nat := left_out]> mix_buffer) in
        let c := if 0 <? stop_samples c then set_stop_samples (stop_samples c - 1) c else c in
        let c := set_pos (wrap_int (pos c + 1)) c in
        mix_frames read_length' c stream_buffer mix_buffer (S mixed)
  end.

(** The end-of-stream branch: the playing stream [d] goes to the dying list
    and the queued stream takes its place. *)
Definition end_of_stream (c : Channel) (d : MediaState) (st : State) : Channel * State :=
  let old_tight := playing_tight c in
  let st := post_event c st in
  let st := set_dying (d :: dying st) st in
  let c := set_playing (queued c) c in
  let c := set_playing_name (queued_name c) c in
  let c := set_playing_fadein (queued_fadein c) c in
  let c := set_playing_tight (queued_tight c) c in
  let c := set_playing_start_ms (queued_start_ms c) c in
  let c := set_playing_relative_volume (queued_relative_volume c) c in
  let c := set_queued None c in
  let c := set_queued_name None c in
  let c := set_queued_fadein 0 c in
  let c := set_queued_tight 0 c in
  let c := set_queued_start_ms 0 c in
  let c := set_queued_relative_volume F32.one c in
  let old_tight := if playing_fadein c =? 0 then old_tight else 0 in
  (start_stream st c (old_tight =? 0), st).

(** The result of one turn of the loop [while (mixed < length && c->playing)]:
    channel, stream buffer, mix buffer, globals and [mixed]. *)
Definition loop_state : Type := Channel * list Z * list spec_float * State * nat.

(** One turn of that loop, entered with [c->playing] being [p]. *)
Definition mix_turn (length mixed : nat) (c : Channel) (p : MediaState)
    (stream_buffer : list Z) (mix_buffer : list spec_float) (st : State) : loop_state :=
  let mixleft := (length - mixed)%nat in
  let '(ret, stream_buffer, p) :=
    media_read_audio p stream_buffer (Z.of_nat mixleft * 2 * 2) in
  let c := set_playing (Some p) c in
  let read_length := Z.to_nat (ret / (2 * 2)) in
  if (stop_samples c =? 0) || (read_length =? 0)%nat then
    let '(c, st) := end_of_stream c p st in
    (c, stream_buffer, mix_buffer, st, mixed)
  else
    let '(c, mix_buffer, mixed) := mix_frames read_length c stream_buffer mix_buffer mixed in
    (c, stream_buffer, mix_buffer, st, mixed).

(** The loop itself; [None] when [fuel] turns do not reach its exit. *)
Fixpoint mix_channel (fuel : nat) (length mixed : nat) (c : Channel)
    (stream_buffer : list Z) (mix_buffer : list spec_float) (st : State) : option loop_state :=
  match playing c with
  | Some p =>
      if (mixed <? length)%nat then
        match fuel with
        | O => None
        | S fuel' =>
            let '(c, stream_buffer, mix_buffer, st, mixed) :=
              mix_turn length mixed c p stream_buffer mix_buffer st in
            mix_channel fuel' length mixed c stream_buffer mix_buffer st
        end
      else Some (c, stream_buffer, mix_buffer, st, mixed)
  | None => Some (c, stream_buffer, mix_buffer, st, mixed)
  end.

(** The body of [for (channel = 0; channel < num_channels; channel++)] over
    the channels still to visit.  A turn of the inner loop either mixes a
    frame or retires a stream, so [length + 3] turns always suffice. *)
Fixpoint mix_channels (length : nat) (cs : list Channel) (stream_buffer : list Z)
    (mix_buffer : list spec_float) (st : State)
  : option (list Channel * list Z * list spec_float * State) :=
  match cs with
  | [] => Some ([], stream_buffer, mix_buffer, st)
  | c :: cs' =>
      let r :=
        match playing c with
        | None => Some (c, stream_buffer, mix_buffer, st, O)
        | Some _ =>
            if negb (paused c =? 0) then Some (c, stream_buffer, mix_buffer, st, O)
            else mix_channel (length + 3) length 0 c stream_buffer mix_buffer st
        end in
      match r with
      | Some (c, stream_buffer, mix_buffer, st, _) =>
          match mix_channels length cs' stream_buffer mix_buffer st with
          | Some (cs', stream_buffer, mix_buffer, st) => Some (c :: cs', stream_buffer, mix_buffer, st)
          | None => None
          end
      | None => None
      end
  end.

(** The clamp to [MIN_SHORT .. MAX_SHORT] of the output stage. *)
Definition clamp_short (v : Z) : Z :=
  let v := if MAX_SHORT <? v then MAX_SHORT else v in
  if v <? MIN_SHORT then MIN_SHORT else v.

(** [int left = mix_buffer[i] * MAX_SHORT] followed by the clamp: the value
    stored in the output stream. *)
Definition output_sample (x : spec_float) : Z :=
  clamp_short (int_of_float (F32.mul x (F32.of_Z MAX_SHORT))).

Definition output_stream (length : nat) (mix_buffer : list spec_float) : list Z :=
  flat_map (fun i => [output_sample (mix_buffer !!! (i * 2)%nat);
                      output_sample (mix_buffer !!! (i * 2 + 1)%nat)])
           (seq 0 length).

(** [callback(userdata, stream, length)].  [stack] is whatever the local
    array [stream_buffer] holds on entry (C does not initialise it).  The
    result is the new state and the shorts written to [stream]. *)
Definition callback (stack : list Z) (length : Z) (st : State) : option (State * list Z) :=
  let length := Z.to_nat (Z.quot length 4) in
  let mix_buffer := replicate (length * 2) F32.zero in
  let stream_buffer := resize (length * 2) 0 stack in
  match mix_channels length (channels st) stream_buffer mix_buffer st with
  | Some (cs, _, mix_buffer, st) =>
      Some (set_channels cs st, output_stream length mix_buffer)
  | None => None
  end.

(** ** The control API *)

(** A channel as [check_channel] initialises it: all bytes zero, then the
    mixer volume, the pause flag, the event and the three interpolators. *)
Definition fresh_channel : Channel :=
  let zeroed :=
    {| playing := None; playing_name := None; playing_fadein := 0; playing_tight := 0;
       playing_start_ms := 0; playing_relative_volume := F32.zero;
       queued := None; queued_name := None; queued_fadein := 0; queued_tight := 0;
       queued_start_ms := 0; queued_relative_volume := F32.zero;
       paused := 0; mixer_volume := F32.zero;
       secondary_volume := {| i_done := 0; i_duration := 0; i_start := F32.zero; i_end := F32.zero |};
       pos := 0;
       fade := {| i_done := 0; i_duration := 0; i_start := F32.zero; i_end := F32.zero |};
       stop_samples := 0; event := 0;
       pan := {| i_done := 0; i_duration := 0; i_start := F32.zero; i_end := F32.zero |};
       video := 0 |} in
  let c := set_mixer_volume F32.one zeroed in
  let c := set_paused 1 c in
  let c := set_event 0 c in
  let c := set_fade (init_interpolate F32.one) c in
  let c := set_secondary_volume (init_interpolate F32.one) c in
  set_pan (init_interpolate F32.zero) c.

#[local] Instance channel_inhabited : Inhabited Channel := populate fresh_channel.

(** [check_channel] returns 0 when the channel can be used and -1 with an
    error set when it cannot; it grows the table up to the channel asked
    for. *)
Definition check_channel (c : Z) (st : State) : Z * State :=
  if c <? 0 then
    (-1, set_error_msg (Some "Channel number out of range."%string) (error RPS_ERROR st))
  else if num_channels st <=? c then
    if realloc_ok st then
      (0, set_channels
            (channels st ++ replicate (Z.to_nat (c + 1 - num_channels st)) fresh_channel) st)
    else
      (-1, set_error_msg (Some "Unable to allocate additional channels."%string)
             (error RPS_ERROR st))
  else (0, st).

(** [&channels[channel]] read and written back. *)
Definition channel_at (st : State) (channel : Z) : Channel :=
  channels st !!! Z.to_nat channel.

Definition store_channel (channel : Z) (c : Channel) (st : State) : State :=
  set_channels (<[Z.to_nat channel := c]> (channels st)) st.

(** [load_stream(rw, ext, start, end, video)].  The source [rw] is given as
    what [media_open] makes of it: a decoder, or [None] when the open fails.
    The window, the video flag and the start only configure the decoder. *)
Definition load_stream (rw : option MediaState) (video : Z) : option MediaState := rw.

Definition RPS_play (channel : Z) (rw : option MediaState) (name : string)
    (fadein tight paused : Z) (start end_ : spec_float) (relative_volume : spec_float)
    (st : State) : State :=
  let '(rc, st) := check_channel channel st in
  if negb (rc =? 0) then st
  else
    let c := channel_at st channel in
    let '(c, st) :=
      match playing c with
      | Some p =>
          let st := free_stream p st in
          let c := set_playing None c in
          let c := set_playing_name None c in
          let c := set_playing_tight 0 c in
          let c := set_playing_start_ms 0 c in
          (set_playing_relative_volume F32.one c, st)
      | None => (c, st)
      end in
    let '(c, st) :=
      match queued c with
      | Some q =>
          let st := free_stream q st in
          let c := set_queued None c in
          let c := set_queued_name None c in
          let c := set_queued_tight 0 c in
          let c := set_queued_start_ms 0 c in
          (set_queued_relative_volume F32.one c, st)
      | None => (c, st)
      end in
    let c := set_playing (load_stream rw (video c)) c in
    match playing c with
    | None => error SOUND_ERROR (store_channel channel c st)
    | Some _ =>
        let c := set_playing_name (Some name) c in
        let c := set_playing_fadein fadein c in
        let c := set_playing_tight tight c in
        let c := set_playing_start_ms (int_of_float (F64.mul start (F64.of_Z 1000))) c in
        let c := set_playing_relative_volume relative_volume c in
        let c := set_paused paused c in
        let c := start_stream st c true in
        error SUCCESS (store_channel channel c st)
    end.

Definition RPS_queue (channel : Z) (rw : option MediaState) (name : string)
    (fadein tight : Z) (start end_ : spec_float) (relative_volume : spec_float)
    (st : State) : State :=
  let '(rc, st) := check_channel channel st in
  if negb (rc =? 0) then st
  else
    let c := channel_at st channel in
    match playing c with
    | None => RPS_play channel rw name fadein tight 0 start end_ relative_volume st
    | Some _ =>
        let '(c, st) :=
          match queued c with
          | Some q =>
              let st := free_stream q st in
              let c := set_queued None c in
              let c := set_queued_name None c in
              (set_queued_tight 0 c, st)
          | None => (c, st)
          end in
        let c := set_queued (load_stream rw (video c)) c in
        match queued c with
        | None => error SOUND_ERROR (store_channel channel c st)
        | Some _ =>
            let c := set_queued_name (Some name) c in
            let c := set_queued_fadein fadein c in
            let c := set_queued_tight tight c in
            let c := set_queued_start_ms (int_of_float (F64.mul start (F64.of_Z 1000))) c in
            let c := set_queued_relative_volume relative_volume c in
            error SUCCESS (store_channel channel c st)
        end
    end.

Definition RPS_stop (channel : Z) (st : State) : State :=
  let '(rc, st) := check_channel channel st in
  if negb (rc =? 0) then st
  else
    let c := channel_at st channel in
    let st := match playing c with Some _ => post_event c st | None => st end in
    let '(c, st) :=
      match playing c with
      | Some p =>
          let st := free_stream p st in
          let c := set_playing None c in
          let c := set_playing_name None c in
          let c := set_playing_start_ms 0 c in
          (set_playing_relative_volume F32.one c, st)
      | None => (c, st)
      end in
    let '(c, st) :=
      match queued c with
      | Some q =>
          let st := free_stream q st in
          let c := set_queued None c in
          let c := set_queued_name None c in
          let c := set_queued_start_ms 0 c in
          (set_queued_relative_volume F32.one c, st)
      | None => (c, st)
      end in
    error SUCCESS (store_channel channel c st).

Definition RPS_dequeue (channel : Z) (even_tight : Z) (st : State) : State :=
  let '(rc, st) := check_channel channel st in
  if negb (rc =? 0) then st
  else
    let c := channel_at st channel in
    let '(c, st) :=
      match queued c with
      | Some q =>
          if (playing_tight c =? 0) || negb (even_tight =? 0) then
            let st := free_stream q st in
            let c := set_queued None c in
            (set_queued_name None c, st)
          else (set_queued_tight 0 c, st)
      | None => (set_queued_tight 0 c, st)
      end in
    let c := set_queued_start_ms 0 c in
    error SUCCESS (store_channel channel c st).

Definition RPS_queue_depth (channel : Z) (st : State) : Z * State :=
  let '(rc, st) := check_channel channel st in
  if negb (rc =? 0) then (0, st)
  else
    let c := channel_at st channel in
    let rv := 0 in
    let rv := match playing c with Some _ => rv + 1 | None => rv end in
    let rv := match queued c with Some _ => rv + 1 | None => rv end in
    (rv, error SUCCESS st).

(** [None] stands for Python's [None]. *)
Definition RPS_playing_name (channel : Z) (st : State) : option string * State :=
  let '(rc, st) := check_channel channel st in
  if negb (rc =? 0) then (None, st)
  else
    let c := channel_at st channel in
    (playing_name c, error SUCCESS st).

Definition set_i_done (v : N) (i : Interpolate) : Interpolate :=
  {| i_done := v; i_duration := i_duration i; i_start := i_start i; i_end := i_end i |}.

Definition set_i_duration (v : N) (i : Interpolate) : Interpolate :=
  {| i_done := i_done i; i_duration := v; i_start := i_start i; i_end := i_end i |}.

Definition set_i_start (v : spec_float) (i : Interpolate) : Interpolate :=
  {| i_done := i_done i; i_duration := i_duration i; i_start := v; i_end := i_end i |}.

Definition set_i_end (v : spec_float) (i : Interpolate) : Interpolate :=
  {| i_done := i_done i; i_duration := i_duration i; i_start := i_start i; i_end := v |}.

Definition RPS_fadeout (channel : Z) (ms : Z) (st : State) : State :=
  let '(rc, st) := check_channel channel st in
  if negb (rc =? 0) then st
  else
    let c := channel_at st channel in
    if ms =? 0 then
      let c := set_stop_samples 0 c in
      error SUCCESS (store_channel channel c st)
    else
      let c := set_fade (set_i_done 0 (fade c)) c in
      let c := set_fade (set_i_duration (to_unsigned (ms_to_samples st ms)) (fade c)) c in
      let '(value, i) := get_interpolate (fade c) in
      let c := set_fade (set_i_start value i) c in
      let c := set_fade (set_i_end F32.zero (fade c)) c in
      let c := set_stop_samples (ms_to_samples st ms) c in
      let c := set_queued_tight 0 c in
      let c := match queued c with None => set_playing_tight 0 c | Some _ => c end in
      error SUCCESS (store_channel channel c st).

(** [media_pause] only tells the decoder; it touches no mixer state. *)
Definition RPS_pause (channel : Z) (pause : Z) (st : State) : State :=
  let '(rc, st) := check_channel channel st in
  if negb (rc =? 0) then st
  else
    let c := channel_at st channel in
    let c := set_paused pause c in
    error SUCCESS (store_channel channel c st).

(** The first loop only waits on the decoders; the second clears the pause
    flag of every channel that is at the start of its playing stream. *)
Definition RPS_unpause_all_at_start (st : State) : State :=
  let unpause (c : Channel) :=
    match playing c with
    | Some _ => if pos c =? 0 then set_paused 0 c else c
    | None => c
    end in
  error SUCCESS (set_channels (map unpause (channels st)) st).

Definition RPS_get_pos (channel : Z) (st : State) : Z * State :=
  let '(rc, st) := check_channel channel st in
  if negb (rc =? 0) then (-1, st)
  else
    let c := channel_at st channel in
    let rv :=
      match playing c with
      | Some _ => wrap_int (samples_to_ms st (pos c) + playing_start_ms c)
      | None => -1
      end in
    (rv, error SUCCESS st).

(** The duration itself is the decoder's answer; the model keeps the effect
    on the state.  The same holds for [RPS_read_video] and
    [RPS_video_ready]. *)
Definition RPS_get_duration (channel : Z) (st : State) : State :=
  let '(rc, st) := check_channel channel st in
  if negb (rc =? 0) then st else error SUCCESS st.

Definition RPS_set_endevent (channel : Z) (event : Z) (st : State) : State :=
  let '(rc, st) := check_channel channel st in
  if negb (rc =? 0) then st
  else
    let c := channel_at st channel in
    let c := set_event event c in
    error SUCCESS (store_channel channel c st).

Definition RPS_set_volume (channel : Z) (volume : spec_float) (st : State) : State :=
  let '(rc, st) := check_channel channel st in
  if negb (rc =? 0) then st
  else
    let c := channel_at st channel in
    let c := set_mixer_volume volume c in
    error SUCCESS (store_channel channel c st).

Definition RPS_get_volume (channel : Z) (st : State) : spec_float * State :=
  let '(rc, st) := check_channel channel st in
  if negb (rc =? 0) then (F32.zero, st)
  else
    let c := channel_at st channel in
    (mixer_volume c, error SUCCESS st).

Definition RPS_set_pan (channel : Z) (pan_ delay : spec_float) (st : State) : State :=
  let '(rc, st) := check_channel channel st in
  if negb (rc =? 0) then st
  else
    let c := channel_at st channel in
    let '(value, i) := get_interpolate (pan c) in
    let c := set_pan (set_i_start value i) c in
    let c := set_pan (set_i_end pan_ (pan c)) c in
    let c := set_pan (set_i_done 0 (pan c)) c in
    let c := set_pan (set_i_duration
                        (to_unsigned (ms_to_samples st
                           (int_of_float (F32.mul delay (F32.of_Z 1000))))) (pan c)) c in
    error SUCCESS (store_channel channel c st).

Definition RPS_set_secondary_volume (channel : Z) (vol2 delay : spec_float) (st : State) : State :=
  let '(rc, st) := check_channel channel st in
  if negb (rc =? 0) then st
  else
    let c := channel_at st channel in
    let '(value, i) := get_interpolate (secondary_volume c) in
    let c := set_secondary_volume (set_i_start value i) c in
    let c := set_secondary_volume (set_i_end vol2 (secondary_volume c)) c in
    let c := set_secondary_volume (set_i_done 0 (secondary_volume c)) c in
    let c := set_secondary_volume
               (set_i_duration
                  (to_unsigned (ms_to_samples st
                     (int_of_float (F32.mul delay (F32.of_Z 1000)))))
                  (secondary_volume c)) c in
    error SUCCESS (store_channel channel c st).

Definition RPS_read_video (channel : Z) (st : State) : State :=
  let '(rc, st) := check_channel channel st in
  if negb (rc =? 0) then st else error SUCCESS st.

Definition RPS_video_ready (channel : Z) (st : State) : State :=
  let '(rc, st) := check_channel channel st in
  if negb (rc =? 0) then st else error SUCCESS st.

Definition RPS_set_video (channel : Z) (video_ : Z) (st : State) : State :=
  let '(rc, st) := check_channel channel st in
  if negb (rc =? 0) then st
  else
    let c := channel_at st channel in
    let c := set_video video_ c in
    store_channel channel c st.

(** [sdl_init] and [open_audio] are the results of [SDL_Init] and
    [SDL_OpenAudio]: zero on success. *)
Definition RPS_init (freq stereo samples status equal_mono : Z) (sdl_init open_audio : Z)
    (st : State) : State :=
  if negb (initialized st =? 0) then st
  else if negb (sdl_init =? 0) then error SDL_ERROR st
  else
    let st := set_audio_spec_freq freq st in
    if negb (open_audio =? 0) then error SDL_ERROR st
    else
      let st := set_initialized 1 st in
      error SUCCESS st.

Definition RPS_quit (st : State) : State :=
  if initialized st =? 0 then st
  else
    let st := fold_left (fun st i => RPS_stop (Z.of_nat i) st)
                        (seq 0 (length (channels st))) st in
    let st := set_channels [] st in
    let st := set_initialized 0 st in
    error SUCCESS st.

Definition RPS_periodic (st : State) : State :=
  let d := dying st in
  let st := set_dying [] st in
  fold_left (fun st s => free_stream s st) d st.

Definition RPS_advance_time (st : State) : State := st.

Definition RPS_sample_surfaces (st : State) : State := st.

(** The message for the current error code; the text SDL would give for
    [SDL_ERROR] is outside the model. *)
Definition RPS_get_error (st : State) : option string :=
  if RPS_error st =? 0 then Some ""%string
  else if RPS_error st =? SDL_ERROR then None
  else if RPS_error st =? SOUND_ERROR then Some "Some sort of codec error."%string
  else if RPS_error st =? RPS_ERROR then error_msg st
  else Some "Error getting error."%string.

(** The entry points as one type of requests, and their effect on the
    state. *)
Inductive Op :=
| OpPlay (channel : Z) (rw : option MediaState) (name : string) (fadein tight paused : Z)
         (start end_ relative_volume : spec_float)
| OpQueue (channel : Z) (rw : option MediaState) (name : string) (fadein tight : Z)
          (start end_ relative_volume : spec_float)
| OpStop (channel : Z)
| OpDequeue (channel even_tight : Z)
| OpQueueDepth (channel : Z)
| OpPlayingName (channel : Z)
| OpFadeout (channel ms : Z)
| OpPause (channel pause : Z)
| OpUnpauseAllAtStart
| OpGetPos (channel : Z)
| OpGetDuration (channel : Z)
| OpSetEndevent (channel event : Z)
| OpSetVolume (channel : Z) (volume : spec_float)
| OpGetVolume (channel : Z)
| OpSetPan (channel : Z) (pan_ delay : spec_float)
| OpSetSecondaryVolume (channel : Z) (vol2 delay : spec_float)
| OpReadVideo (channel : Z)
| OpVideoReady (channel : Z)
| OpSetVideo (channel video_ : Z)
| OpInit (freq stereo samples status equal_mono sdl_init open_audio : Z)
| OpQuit
| OpPeriodic
| OpAdvanceTime
| OpSampleSurfaces.

Definition exec (op : Op) (st : State) : State :=
  match op with
  | OpPlay channel rw name fadein tight paused start end_ relative_volume =>
      RPS_play channel rw name fadein tight paused start end_ relative_volume st
  | OpQueue channel rw name fadein tight start end_ relative_volume =>
      RPS_queue channel rw name fadein tight start end_ relative_volume st
  | OpStop channel => RPS_stop channel st
  | OpDequeue channel even_tight => RPS_dequeue channel even_tight st
  | OpQueueDepth channel => (RPS_queue_depth channel st).2
  | OpPlayingName channel => (RPS_playing_name channel st).2
  | OpFadeout channel ms => RPS_fadeout channel ms st
  | OpPause channel pause => RPS_pause channel pause st
  | OpUnpauseAllAtStart => RPS_unpause_all_at_start st
  | OpGetPos channel => (RPS_get_pos channel st).2
  | OpGetDuration channel => RPS_get_duration channel st
  | OpSetEndevent channel event => RPS_set_endevent channel event st
  | OpSetVolume channel volume => RPS_set_volume channel volume st
  | OpGetVolume channel => (RPS_get_volume channel st).2
  | OpSetPan channel pan_ delay => RPS_set_pan channel pan_ delay st
  | OpSetSecondaryVolume channel vol2 delay => RPS_set_secondary_volume channel vol2 delay st
  | OpReadVideo channel => RPS_read_video channel st
  | OpVideoReady channel => RPS_video_ready channel st
  | OpSetVideo channel video_ => RPS_set_video channel video_ st
  | OpInit freq stereo samples status equal_mono sdl_init open_audio =>
      RPS_init freq stereo samples status equal_mono sdl_init open_audio st
  | OpQuit => RPS_quit st
  | OpPeriodic => RPS_periodic st
  | OpAdvanceTime => RPS_advance_time st
  | OpSampleSurfaces => RPS_sample_surfaces st
  end.

(** The state of the translation unit when the program starts, at a given
    allocator behaviour. *)
Definition initial_state (alloc : bool) : State :=
  {| channels := []; RPS_error := SUCCESS; error_msg := None; initialized := 0;
     dying := []; audio_spec_freq := 0; events := []; closed := [];
     realloc_ok := alloc |}.

(** ** Properties *)

(** What the promotion of the queued stream leaves in a channel [c] whose
    playing stream ended: the queued slot moved to the playing slot, the
    queued slot at its defaults, [pos] at zero, and the fade restarted
    unless the old stream was tight and the new one has no fade-in. *)
Definition promoted (st : State) (c : Channel) : Channel :=
  let reset_fade := (playing_tight c =? 0) || negb (queued_fadein c =? 0) in
  {| playing := queued c; playing_name := queued_name c;
     playing_fadein := queued_fadein c; playing_tight := queued_tight c;
     playing_start_ms := queued_start_ms c;
     playing_relative_volume := queued_relative_volume c;
     queued := None; queued_name := None; queued_fadein := 0; queued_tight := 0;
     queued_start_ms := 0; queued_relative_volume := F32.one;
     paused := paused c; mixer_volume := mixer_volume c;
     secondary_volume := secondary_volume c;
     pos := 0;
     fade := if reset_fade
             then {| i_done := 0;
                     i_duration := to_unsigned (ms_to_samples st (queued_fadein c));
                     i_start := F32.zero; i_end := F32.one |}
             else fade c;
     stop_samples := if reset_fade then -1 else stop_samples c;
     event := event c; pan := pan c; video := video c |}.

(** The number of frames a read of a decoder delivers. *)
Definition frames_read (p : MediaState) (stream_buffer : list Z) (len : Z) : nat :=
  Z.to_nat ((media_read_audio p stream_buffer len).1.1 / (2 * 2)).

(** The number of turns the inner loop takes on a read of [read_length]
    frames: all of them, or as many as the stop counter allows. *)
Definition frames_to_mix (read_length : nat) (c : Channel) : nat :=
  if stop_samples c <? 0 then read_length
  else Nat.min read_length (Z.to_nat (stop_samples c)).

(** A predicate checked on every [k]-bit number with the leading bits
    [acc]. *)
Fixpoint all_bits (k : nat) (f : Z -> bool) (acc : Z) : bool :=
  match k with
  | O => f acc
  | S k' => all_bits k' f (2 * acc) && all_bits k' f (2 * acc + 1)
  end.

(** The sample [u + MIN_SHORT] converts to the float of value
    [(u + MIN_SHORT) / 32768]. *)
Definition sample_exact (u : Z) : bool :=
  let s := u + MIN_SHORT in
  match sample_to_float s with
  | S754_zero _ => s =? 0
  | S754_finite sg m e => (e <=? 0) && (cond_Zopp sg (Zpos m) * 32768 =? s * 2 ^ (- e))
  | _ => false
  end.

(** The number of streams a channel holds. *)
Definition slots (c : Channel) : nat :=
  (match playing c with Some _ => 1 | None => 0 end
   + match queued c with Some _ => 1 | None => 0 end)%nat.

(** Queue implies playing, for one channel and for the table. *)
Definition slot_ok (c : Channel) : Prop := queued c <> None -> playing c <> None.

Definition queue_implies_playing (st : State) : Prop := Forall slot_ok (channels st).

(** ** Scenarios *)

Definition stream_a : MediaState :=
  {| ms_id := 1; ms_chunks := [[(100, -100)]; [(200, -200)]; [(300, -300)]] |}.

Definition stream_b : MediaState :=
  {| ms_id := 2; ms_chunks := [[(1000, -1000); (2000, -2000)]] |}.

Definition stream_full_scale : MediaState :=
  {| ms_id := 3; ms_chunks := [[(-32768, 32767)]] |}.

(** The device opened at 44100 Hz. *)
Definition st_init : State := RPS_init 44100 2 1024 0 0 0 0 (initial_state true).

(** [stream_a] playing on channel 0, no fade-in, not tight, not paused. *)
Definition st_playing : State :=
  RPS_play 0 (Some stream_a) "a" 0 0 0 F32.zero F32.zero F32.one st_init.

(** [stream_a] playing tight with [stream_b] queued to start at 5 s. *)
Definition st_tight_queued : State :=
  RPS_queue 0 (Some stream_b) "b" 0 0 (F64.of_Z 5) F32.zero F32.one
    (RPS_play 0 (Some stream_a) "a" 0 1 0 F32.zero F32.zero F32.one st_init).

(** The same after [RPS_fadeout(0, 0)]: the stop counter is zero. *)
Definition st_stop_now : State := RPS_fadeout 0 0 st_tight_queued.

(** A play whose source cannot be opened. *)
Definition st_failed_play : State :=
  RPS_play 0 None "a" 0 0 0 F32.zero F32.zero F32.one st_init.

(** A full-scale frame playing on channel 0. *)
Definition st_full_scale : State :=
  RPS_play 0 (Some stream_full_scale) "f" 0 0 0 F32.zero F32.zero F32.one st_init.

(** ** Further properties: vocabulary *)

(** The channel an entry point is called on, for those that take one. *)
Definition op_channel (op : Op) : option Z :=
  match op with
  | OpPlay channel _ _ _ _ _ _ _ _ | OpQueue channel _ _ _ _ _ _ _
  | OpStop channel | OpDequeue channel _ | OpQueueDepth channel
  | OpPlayingName channel | OpFadeout channel _ | OpPause channel _
  | OpGetPos channel | OpGetDuration channel | OpSetEndevent channel _
  | OpSetVolume channel _ | OpGetVolume channel | OpSetPan channel _ _
  | OpSetSecondaryVolume channel _ _ | OpReadVideo channel
  | OpVideoReady channel | OpSetVideo channel _ => Some channel
  | OpUnpauseAllAtStart | OpInit _ _ _ _ _ _ _ | OpQuit | OpPeriodic
  | OpAdvanceTime | OpSampleSurfaces => None
  end.

(** A channel number [check_channel] accepts: not negative, and in the
    table or within what the allocator grants. *)
Definition usable (channel : Z) (st : State) : Prop :=
  0 <= channel /\ (channel < num_channels st \/ realloc_ok st = true).

(** The state [check_channel] leaves when it accepts [channel]: the table
    extended up to it with fresh channels. *)
Definition grow (channel : Z) (st : State) : State :=
  if num_channels st <=? channel then
    set_channels
      (channels st ++ replicate (Z.to_nat (channel + 1 - num_channels st)) fresh_channel) st
  else st.

(** The state a rejected call leaves: the error code and its message. *)
Definition rejected (msg : string) (st : State) : State :=
  set_error_msg (Some msg) (error RPS_ERROR st).

(** A channel the callback passes over: nothing playing, or paused. *)
Definition idle (c : Channel) : bool :=
  match playing c with
  | None => true
  | Some _ => negb (paused c =? 0)
  end.

(** The sample [u + MIN_SHORT], mixed alone and written out, comes out one
    step closer to zero. *)
Definition passes_through (u : Z) : bool :=
  let s := u + MIN_SHORT in
  output_sample (F32.add F32.zero (sample_to_float s)) =? s - Z.sgn s.

(** The decoders a channel holds. *)
Definition streams (c : Channel) : list MediaState :=
  match playing c with Some p => [p] | None => [] end
  ++ match queued c with Some q => [q] | None => [] end.

(** What the callback leaves alone in a channel: the settings made through
    the control API. *)
Definition settings_kept (c c' : Channel) : Prop :=
  paused c' = paused c /\ mixer_volume c' = mixer_volume c /\ event c' = event c
  /\ video c' = video c /\ pan c' = pan c /\ secondary_volume c' = secondary_volume c.

(** What the callback leaves alone in the globals, and how its two logs
    grow: decoders are added to the dying list and events to the queue. *)
Definition globals_kept (st st' : State) : Prop :=
  closed st' = closed st /\ RPS_error st' = RPS_error st
  /\ error_msg st' = error_msg st /\ initialized st' = initialized st
  /\ audio_spec_freq st' = audio_spec_freq st /\ realloc_ok st' = realloc_ok st
  /\ (exists retired, dying st' = retired ++ dying st)
  /\ (exists posted, events st' = posted ++ events st).

(** ** [RPS_queue] and the audio lock *)

(** [RPS_queue] tests [c->playing] before it takes the audio lock, so the
    callback can run between the test and the locked part.  The call is
    modelled once more in these two steps.  [QueuePath] is where the call
    goes on after the test. *)
Inductive QueuePath : Type :=
| QueueRejected
| QueuePlays
| QueueLocks.

(** The part before [LOCK_AUDIO()]: [check_channel] and the test
    [if (!c->playing)]. *)
Definition RPS_queue_test (channel : Z) (st : State) : QueuePath * State :=
  let '(rc, st) := check_channel channel st in
  if negb (rc =? 0) then (QueueRejected, st)
  else
    let c := channel_at st channel in
    match playing c with
    | None => (QueuePlays, st)
    | Some _ => (QueueLocks, st)
    end.

(** The part between [LOCK_AUDIO()] and [UNLOCK_AUDIO()], with the
    [error] call that follows it.  It does not look at [c->playing]. *)
Definition RPS_queue_locked (channel : Z) (rw : option MediaState) (name : string)
    (fadein tight : Z) (start end_ : spec_float) (relative_volume : spec_float)
    (st : State) : State :=
  let c := channel_at st channel in
  let '(c, st) :=
    match queued c with
    | Some q =>
        let st := free_stream q st in
        let c := set_queued None c in
        let c := set_queued_name None c in
        (set_queued_tight 0 c, st)
    | None => (c, st)
    end in
  let c := set_queued (load_stream rw (video c)) c in
  match queued c with
  | None => error SOUND_ERROR (store_channel channel c st)
  | Some _ =>
      let c := set_queued_name (Some name) c in
      let c := set_queued_fadein fadein c in
      let c := set_queued_tight tight c in
      let c := set_queued_start_ms (int_of_float (F64.mul start (F64.of_Z 1000))) c in
      let c := set_queued_relative_volume relative_volume c in
      error SUCCESS (store_channel channel c st)
  end.

(** The rest of the call after the test. *)
Definition RPS_queue_resume (path : QueuePath) (channel : Z) (rw : option MediaState)
    (name : string) (fadein tight : Z) (start end_ : spec_float)
    (relative_volume : spec_float) (st : State) : State :=
  match path with
  | QueueRejected => st
  | QueuePlays => RPS_play channel rw name fadein tight 0 start end_ relative_volume st
  | QueueLocks => RPS_queue_locked channel rw name fadein tight start end_ relative_volume st
  end.

(** A call of [RPS_queue] during which the audio thread runs the callback
    once, after the test and before the lock is taken. *)
Definition RPS_queue_interrupted (stack : list Z) (length : Z)
    (channel : Z) (rw : option MediaState) (name : string)
    (fadein tight : Z) (start end_ : spec_float) (relative_volume : spec_float)
    (st : State) : option State :=
  let '(path, st) := RPS_queue_test channel st in
  match callback stack length st with
  | Some (st, _) =>
      Some (RPS_queue_resume path channel rw name fadein tight start end_ relative_volume st)
  | None => None
  end.

(** [stream_a] playing on channel 0 with a stop that is due
    ([RPS_fadeout(0, 0)]). *)
Definition st_stopping : State := RPS_fadeout 0 0 st_playing.

(** [stream_b] started on channel 0 with a fade-in of one second. *)
Definition st_fading_in : State :=
  RPS_play 0 (Some stream_b) "b" 1000 0 0 F32.zero F32.zero F32.one st_init.

(** * Theorems *)

(** ** The value of a float *)

Lemma SF2Q_nonneg_exp (s : bool) (m : positive) (e : Z) :
  0 <= e -> (SF2Q (S754_finite s m e) == inject_Z (cond_Zopp s (Zpos m) * 2 ^ e))%Q.
Proof.
  intros He. unfold SF2Q.
  rewrite inject_Z_mult, (Zpower_Qpower 2 e) by lia. reflexivity.
Qed.

Lemma SF2Q_neg_exp (s : bool) (m : positive) (e : Z) :
  e <= 0 -> (SF2Q (S754_finite s m e) == cond_Zopp s (Zpos m) # Z.to_pos (2 ^ (- e)))%Q.
Proof.
  intros He. unfold SF2Q.
  destruct e as [| p | p]; [| lia |].
  - cbn. unfold Qeq. cbn. lia.
  - change (2 ^ Z.neg p)%Q with (/ (2 ^ Zpos p))%Q.
    rewrite <- (Zpower_Qpower 2 (Zpos p)) by lia.
    change (- Z.neg p) with (Z.pos p).
    assert (H2 : 0 < 2 ^ Z.pos p) by (apply Z.pow_pos_nonneg; lia).
    destruct (2 ^ Z.pos p) as [| q | q] eqn:Hq; try lia.
    unfold Qeq, Qmult, Qinv, inject_Z. cbn. lia.
Qed.

Lemma all_bits_spec (k : nat) (f : Z -> bool) :
  forall acc, all_bits k f acc = true ->
  forall z, acc * 2 ^ Z.of_nat k <= z < (acc + 1) * 2 ^ Z.of_nat k -> f z = true.
Proof.
  induction k as [| k IH]; intros acc Hall z Hz.
  - cbn in Hall. change (2 ^ Z.of_nat 0) with 1 in Hz. replace z with acc by lia. exact Hall.
  - cbn [all_bits] in Hall. apply andb_true_iff in Hall as [H0 H1].
    rewrite Nat2Z.inj_succ, Z.pow_succ_r in Hz by lia.
    destruct (Z.lt_ge_cases z ((2 * acc + 1) * 2 ^ Z.of_nat k)).
    + apply (IH (2 * acc) H0). lia.
    + apply (IH (2 * acc + 1) H1). lia.
Qed.

(** ** Interpolators *)

Lemma get_interpolate_keeps (i : Interpolate) : (get_interpolate i).2 = i.
Proof. unfold get_interpolate. destruct (i_duration i <=? i_done i)%N; reflexivity. Qed.

(** C6: [get_interpolate] returns [end] when [done >= duration], in
    particular whenever the duration is zero, and otherwise
    [start + (end - start) * (done / duration)] in [float] arithmetic; the
    interpolator it was given is left as it was. *)
Theorem get_interpolate_spec (i : Interpolate) :
  (get_interpolate i).1 =
    (if (i_duration i <=? i_done i)%N then i_end i
     else F32.add (i_start i)
            (F32.mul (F32.sub (i_end i) (i_start i))
               (F32.div (F32.of_Z (Z.of_N (i_done i))) (F32.of_Z (Z.of_N (i_duration i))))))
  /\ (get_interpolate (set_i_duration 0 i)).1 = i_end i
  /\ (get_interpolate i).2 = i
  /\ i_done (get_interpolate i).2 = i_done i.
Proof.
  repeat split.
  - unfold get_interpolate, lerp.
    destruct (i_duration i <=? i_done i)%N; reflexivity.
  - unfold get_interpolate. cbn.
    destruct (N.leb_spec 0 (i_done i)) as [_ | Hlt]; [reflexivity | lia].
  - apply get_interpolate_keeps.
  - now rewrite get_interpolate_keeps.
Qed.

(** ** Promotion at the end of a stream *)

Lemma end_of_stream_promoted (c : Channel) (d : MediaState) (st : State) :
  end_of_stream c d st = (promoted st c, set_dying (d :: dying (post_event c st)) (post_event c st)).
Proof.
  unfold end_of_stream, promoted, start_stream, post_event. cbn.
  destruct (event c =? 0), (queued_fadein c =? 0), (playing_tight c =? 0); reflexivity.
Qed.

(** C1: when the playing stream ends in the callback (the stop counter is
    zero or the decoder delivers no frame), the queued slot is moved to the
    playing slot, the queued fields return to their defaults, [pos] is zero,
    and the fade restarts from 0.0 to 1.0 over [ms_to_samples(playing_fadein)]
    with [stop_samples = -1] exactly when the old stream was not tight or the
    promoted stream has a fade-in; otherwise fade and [stop_samples] are kept.
    The retired decoder goes to the dying list and no frame is mixed. *)
Theorem promotion_at_end_of_stream
    (length mixed : nat) (c : Channel) (p : MediaState)
    (stream_buffer : list Z) (mix_buffer : list spec_float) (st : State) :
  stop_samples c = 0
  \/ frames_read p stream_buffer (Z.of_nat (length - mixed) * 2 * 2) = O ->
  let '(c', _, mix_buffer', st', mixed') :=
    mix_turn length mixed c p stream_buffer mix_buffer st in
  c' = promoted st c
  /\ playing c' = queued c /\ playing_name c' = queued_name c
  /\ playing_fadein c' = queued_fadein c /\ playing_tight c' = queued_tight c
  /\ playing_start_ms c' = queued_start_ms c
  /\ playing_relative_volume c' = queued_relative_volume c
  /\ queued c' = None /\ queued_name c' = None /\ queued_fadein c' = 0
  /\ queued_tight c' = 0 /\ queued_start_ms c' = 0
  /\ queued_relative_volume c' = F32.one
  /\ pos c' = 0
  /\ (if (playing_tight c =? 0) || negb (playing_fadein c' =? 0)
      then fade c' = {| i_done := 0;
                        i_duration := to_unsigned (ms_to_samples st (playing_fadein c'));
                        i_start := F32.zero; i_end := F32.one |}
           /\ stop_samples c' = -1
      else fade c' = fade c /\ stop_samples c' = stop_samples c)
  /\ dying st' = (media_read_audio p stream_buffer (Z.of_nat (length - mixed) * 2 * 2)).2
                   :: dying st
  /\ mix_buffer' = mix_buffer /\ mixed' = mixed.
Proof.
  intros Hend. unfold mix_turn, frames_read in *.
  destruct (media_read_audio p stream_buffer (Z.of_nat (length - mixed) * 2 * 2))
    as [[ret sb'] p'] eqn:Hread.
  cbn [fst snd] in *.
  assert (Hcond : (stop_samples (set_playing (Some p') c) =? 0)
                  || (Z.to_nat (ret / (2 * 2)) =? 0)%nat = true).
  { apply orb_true_iff. destruct Hend as [H0 | H0].
    - left. cbn. now apply Z.eqb_eq.
    - right. now apply Nat.eqb_eq. }
  rewrite Hcond, end_of_stream_promoted.
  unfold promoted.
  cbn [playing playing_name playing_fadein playing_tight playing_start_ms
       playing_relative_volume queued queued_name queued_fadein queued_tight
       queued_start_ms queued_relative_volume pos fade stop_samples set_playing
       dying set_dying].
  destruct ((playing_tight c =? 0) || negb (queued_fadein c =? 0));
    repeat split; try reflexivity.
  all: unfold post_event; cbn; destruct (event c =? 0); reflexivity.
Qed.

Lemma promotion_at_end_of_stream_witness :
  playing (mix_turn 2 0 (channel_at st_stop_now 0) stream_a [0; 0; 0; 0]
             (replicate 4 F32.zero) st_stop_now).1.1.1.1 = Some stream_b.
Proof.
  pose proof (promotion_at_end_of_stream 2 0 (channel_at st_stop_now 0) stream_a
                [0; 0; 0; 0] (replicate 4 F32.zero) st_stop_now (or_introl eq_refl)) as H.
  destruct (mix_turn 2 0 (channel_at st_stop_now 0) stream_a [0; 0; 0; 0]
              (replicate 4 F32.zero) st_stop_now) as [[[[c' sb'] mb'] st'] mixed'].
  destruct H as (_ & H & _). cbn [fst]. rewrite H. reflexivity.
Defined.

(** ** Control operations on a channel that exists *)

Lemma check_channel_in_range (channel : Z) (st : State) :
  0 <= channel < num_channels st -> check_channel channel st = (0, st).
Proof.
  intros [H0 H1]. unfold check_channel.
  destruct (Z.ltb_spec channel 0); [lia |].
  destruct (Z.leb_spec (num_channels st) channel); [lia | reflexivity].
Qed.

Lemma channel_at_store (channel : Z) (c : Channel) (st : State) :
  0 <= channel < num_channels st ->
  channel_at (store_channel channel c st) channel = c.
Proof.
  intros [H0 H1]. unfold channel_at, store_channel, num_channels in *. cbn.
  apply list_lookup_total_insert_eq. lia.
Qed.

(** ** Fade-out *)

(** What [RPS_fadeout] with a non-zero time leaves in the fade interpolator
    of an existing channel: the start value is read after [done] and
    [duration] have received their new values. *)
Lemma RPS_fadeout_fade (channel ms : Z) (st : State) :
  0 <= channel < num_channels st -> ms <> 0 ->
  let c := channel_at st channel in
  let d := to_unsigned (ms_to_samples st ms) in
  fade (channel_at (RPS_fadeout channel ms st) channel) =
    {| i_done := 0; i_duration := d;
       i_start := (get_interpolate (set_i_duration d (set_i_done 0 (fade c)))).1;
       i_end := F32.zero |}.
Proof.
  intros Hch Hms c d. unfold RPS_fadeout.
  rewrite check_channel_in_range by assumption. cbn [negb Z.eqb].
  destruct (Z.eqb_spec ms 0) as [-> | _]; [congruence |].
  fold c. cbn [fade set_fade]. fold d.
  destruct (get_interpolate (set_i_duration d (set_i_done 0 (fade c)))) as [value i] eqn:Hget.
  assert (Hi : i = set_i_duration d (set_i_done 0 (fade c))).
  { pose proof (get_interpolate_keeps (set_i_duration d (set_i_done 0 (fade c)))) as H.
    rewrite Hget in H. exact H. }
  subst i. unfold error.
  match goal with
  | |- fade (channel_at (set_RPS_error _ (store_channel _ ?x _)) _) = _ =>
      change (fade (channel_at (store_channel channel x st) channel) =
              {| i_done := 0; i_duration := d; i_start := value; i_end := F32.zero |})
  end.
  rewrite channel_at_store by assumption.
  cbn [queued set_queued_tight set_stop_samples set_fade].
  destruct (queued c); reflexivity.
Qed.

(** The sibling [RPS_set_pan] reads the current value first: its ramp
    starts from what the interpolator reported at the call. *)
Lemma RPS_set_pan_pan (channel : Z) (pan_ delay : spec_float) (st : State) :
  0 <= channel < num_channels st ->
  let c := channel_at st channel in
  pan (channel_at (RPS_set_pan channel pan_ delay st) channel) =
    {| i_done := 0;
       i_duration := to_unsigned (ms_to_samples st
                                    (int_of_float (F32.mul delay (F32.of_Z 1000))));
       i_start := (get_interpolate (pan c)).1;
       i_end := pan_ |}.
Proof.
  intros Hch c. unfold RPS_set_pan.
  rewrite check_channel_in_range by assumption. cbn [negb Z.eqb].
  fold c.
  pose proof (get_interpolate_keeps (pan c)) as Hi.
  destruct (get_interpolate (pan c)) as [value i]. cbn [fst snd] in *. subst i.
  unfold error.
  match goal with
  | |- pan (channel_at (set_RPS_error _ (store_channel _ ?x _)) _) = _ =>
      change (pan (channel_at (store_channel channel x st) channel) =
              {| i_done := 0;
                 i_duration := to_unsigned (ms_to_samples st
                                 (int_of_float (F32.mul delay (F32.of_Z 1000))));
                 i_start := value; i_end := pan_ |})
  end.
  rewrite channel_at_store by assumption. reflexivity.
Qed.

(** C2, at the failing input: on a channel that plays at full volume (the
    interpolator reports 1.0), [RPS_fadeout(0, 1000)] seeds the fade with
    0.0, the old start value, and the ramp runs from 0.0 to 0.0. *)
Theorem RPS_fadeout_seed_not_current :
  (get_interpolate (fade (channel_at st_playing 0))).1 = F32.one
  /\ fade (channel_at (RPS_fadeout 0 1000 st_playing) 0) =
       {| i_done := 0; i_duration := 44100; i_start := F32.zero; i_end := F32.zero |}
  /\ stop_samples (channel_at (RPS_fadeout 0 1000 st_playing) 0) = 44100.
Proof. vm_compute. repeat split; reflexivity. Qed.

(** ** Dequeue *)

(** What [RPS_dequeue] without override leaves of an existing channel whose
    playing stream is tight and whose queue is armed. *)
Lemma RPS_dequeue_tight (channel : Z) (st : State) :
  0 <= channel < num_channels st ->
  queued (channel_at st channel) <> None ->
  playing_tight (channel_at st channel) <> 0 ->
  channel_at (RPS_dequeue channel 0 st) channel =
    set_queued_start_ms 0 (set_queued_tight 0 (channel_at st channel)).
Proof.
  intros Hch Hq Ht. unfold RPS_dequeue.
  rewrite check_channel_in_range by assumption. cbn [negb Z.eqb].
  destruct (queued (channel_at st channel)) as [q |]; [| congruence].
  destruct (Z.eqb_spec (playing_tight (channel_at st channel)) 0); [congruence |].
  cbn [orb negb Z.eqb]. unfold error.
  match goal with
  | |- channel_at (set_RPS_error _ (store_channel _ ?x _)) _ = _ =>
      change (channel_at (store_channel channel x st) channel = x)
  end.
  now apply channel_at_store.
Qed.

(** C9, at the failing input: a stream queued to start at 5 s behind a tight
    playing stream stays queued under [RPS_dequeue(0, 0)], but its start time
    is reset to zero along with its tight flag. *)
Theorem RPS_dequeue_resets_queued_start :
  let c := channel_at st_tight_queued 0 in
  let c' := channel_at (RPS_dequeue 0 0 st_tight_queued) 0 in
  playing_tight c = 1 /\ queued c = Some stream_b /\ queued_start_ms c = 5000
  /\ queued c' = Some stream_b /\ queued_tight c' = 0 /\ queued_start_ms c' = 0.
Proof. vm_compute. repeat split; reflexivity. Qed.

(** ** The error code *)

(** [RPS_set_video] never assigns [RPS_error] on a channel that exists. *)
Lemma RPS_set_video_error (channel video_ : Z) (st : State) :
  0 <= channel < num_channels st ->
  RPS_error (RPS_set_video channel video_ st) = RPS_error st.
Proof.
  intros Hch. unfold RPS_set_video.
  rewrite check_channel_in_range by assumption. reflexivity.
Qed.

(** The sibling [RPS_set_endevent] does. *)
Lemma RPS_set_endevent_error (channel event_ : Z) (st : State) :
  0 <= channel < num_channels st ->
  RPS_error (RPS_set_endevent channel event_ st) = SUCCESS.
Proof.
  intros Hch. unfold RPS_set_endevent.
  rewrite check_channel_in_range by assumption. reflexivity.
Qed.

(** C8, at the failing input: after a play that failed with [SOUND_ERROR],
    a successful [RPS_set_video(0, 1)] leaves the error code at
    [SOUND_ERROR], where the sibling [RPS_set_endevent(0, 1)] sets
    [SUCCESS]. *)
Theorem RPS_set_video_keeps_stale_error :
  RPS_error st_failed_play = SOUND_ERROR
  /\ video (channel_at (RPS_set_video 0 1 st_failed_play) 0) = 1
  /\ RPS_error (RPS_set_video 0 1 st_failed_play) = SOUND_ERROR
  /\ RPS_error (RPS_set_endevent 0 1 st_failed_play) = SUCCESS.
Proof. vm_compute. repeat split; reflexivity. Qed.

(** ** The inner mixing loop *)

Lemma mix_frames_step (k : nat) (c : Channel) (sb : list Z) (mb : list spec_float) (mixed : nat) :
  stop_samples c <> 0 ->
  mix_frames (S k) c sb mb mixed =
    mix_frames k
      (set_pos (wrap_int (pos c + 1))
         (if 0 <? stop_samples c then set_stop_samples (stop_samples c - 1) c else c))
      sb
      (<[(mixed * 2 + 1)%nat := F32.add (mb !!! (mixed * 2 + 1)%nat)
                                  (sample_to_float (sb !!! (mixed * 2 + 1)%nat))]>
         (<[(mixed * 2)%nat := F32.add (mb !!! (mixed * 2)%nat)
                                 (sample_to_float (sb !!! (mixed * 2)%nat))]> mb))
      (S mixed).
Proof.
  intros Hstop. cbn [mix_frames]. unfold mix_sample.
  destruct (Z.eqb_spec (stop_samples c) 0); [congruence |].
  destruct (0 <? stop_samples c); reflexivity.
Qed.

Lemma frames_to_mix_step (k : nat) (c : Channel) :
  stop_samples c <> 0 ->
  frames_to_mix (S k) c =
    S (frames_to_mix k
         (set_pos (wrap_int (pos c + 1))
            (if 0 <? stop_samples c then set_stop_samples (stop_samples c - 1) c else c))).
Proof.
  intros Hstop. unfold frames_to_mix.
  destruct (Z.ltb_spec 0 (stop_samples c)) as [Hpos | Hneg]; cbn [stop_samples set_pos set_stop_samples].
  - destruct (Z.ltb_spec (stop_samples c) 0); [lia |].
    destruct (Z.ltb_spec (stop_samples c - 1) 0); lia.
  - destruct (Z.ltb_spec (stop_samples c) 0); [reflexivity | lia].
Qed.

Lemma frames_to_mix_stopped (k : nat) (c : Channel) :
  stop_samples c = 0 -> frames_to_mix k c = O.
Proof. intros H. unfold frames_to_mix. rewrite H. cbn. lia. Qed.

Lemma frames_to_mix_le (k : nat) (c : Channel) : (frames_to_mix k c <= k)%nat.
Proof. unfold frames_to_mix. destruct (stop_samples c <? 0); lia. Qed.

(** The loop advances [mixed] by the number of frames it mixes. *)
Lemma mix_frames_mixed (k : nat) :
  forall c sb mb mixed,
    (mix_frames k c sb mb mixed).2 = (mixed + frames_to_mix k c)%nat.
Proof.
  induction k as [| k IH]; intros c sb mb mixed.
  - cbn. unfold frames_to_mix. destruct (stop_samples c <? 0); cbn; lia.
  - destruct (Z.eq_dec (stop_samples c) 0) as [H0 | Hne].
    + rewrite frames_to_mix_stopped by assumption.
      cbn [mix_frames]. rewrite H0. cbn. lia.
    + rewrite mix_frames_step, frames_to_mix_step by assumption.
      rewrite IH. lia.
Qed.

(** The loop writes the channel's [stop_samples] and [pos] and nothing else
    of it. *)
Lemma mix_frames_channel (k : nat) :
  forall c sb mb mixed,
    let c' := (mix_frames k c sb mb mixed).1.1 in
    c' = set_pos (pos c') (set_stop_samples (stop_samples c') c).
Proof.
  induction k as [| k IH]; intros c sb mb mixed.
  - cbn. destruct c; reflexivity.
  - destruct (Z.eq_dec (stop_samples c) 0) as [H0 | Hne].
    + cbn [mix_frames]. rewrite H0. cbn. destruct c; reflexivity.
    + rewrite mix_frames_step by assumption. cbv zeta.
      match goal with |- context [mix_frames k ?c1 ?sb1 ?mb1 ?m1] =>
        specialize (IH c1 sb1 mb1 m1); cbv zeta in IH;
        destruct (mix_frames k c1 sb1 mb1 m1) as [[c' mb'] mixed'] end.
      cbn [fst] in *. rewrite IH at 1.
      destruct (0 <? stop_samples c); destruct c; reflexivity.
Qed.

(** The mix buffer the loop produces does not depend on any field of the
    channel but the stop counter. *)
Lemma mix_frames_gain_independent (k : nat) :
  forall c1 c2 sb mb mixed,
    stop_samples c1 = stop_samples c2 ->
    (mix_frames k c1 sb mb mixed).1.2 = (mix_frames k c2 sb mb mixed).1.2.
Proof.
  induction k as [| k IH]; intros c1 c2 sb mb mixed Heq.
  - reflexivity.
  - destruct (Z.eq_dec (stop_samples c1) 0) as [H0 | Hne].
    + cbn [mix_frames]. rewrite <- Heq, H0. reflexivity.
    + rewrite !mix_frames_step by congruence.
      apply IH. rewrite <- Heq.
      destruct (0 <? stop_samples c1); cbn; congruence.
Qed.

Lemma mix_frames_length (k : nat) :
  forall c sb mb mixed,
    length (mix_frames k c sb mb mixed).1.2 = length mb.
Proof.
  induction k as [| k IH]; intros c sb mb mixed.
  - reflexivity.
  - destruct (Z.eq_dec (stop_samples c) 0) as [H0 | Hne].
    + cbn [mix_frames]. rewrite H0. reflexivity.
    + rewrite mix_frames_step by assumption. rewrite IH.
      now rewrite !length_insert.
Qed.

(** Entries of the mix buffer below [mixed] are out of the loop's reach. *)
Lemma mix_frames_below (k : nat) :
  forall c sb mb mixed j,
    (j < mixed * 2)%nat ->
    (mix_frames k c sb mb mixed).1.2 !! j = mb !! j.
Proof.
  induction k as [| k IH]; intros c sb mb mixed j Hj.
  - reflexivity.
  - destruct (Z.eq_dec (stop_samples c) 0) as [H0 | Hne].
    + cbn [mix_frames]. rewrite H0. reflexivity.
    + rewrite mix_frames_step by assumption.
      rewrite IH by lia.
      rewrite !list_lookup_insert_ne by lia. reflexivity.
Qed.

(** The [i]-th frame the loop mixes goes to frame [mixed + i] of the mix
    buffer, and what is added there is frame [mixed + i] of the stream
    buffer. *)
Lemma mix_frames_accumulates (k : nat) :
  forall c sb mb mixed i,
    (i < frames_to_mix k c)%nat ->
    ((mixed + i) * 2 + 1 < length mb)%nat ->
    let mb' := (mix_frames k c sb mb mixed).1.2 in
    mb' !! ((mixed + i) * 2)%nat =
      Some (F32.add (mb !!! ((mixed + i) * 2)%nat)
              (sample_to_float (sb !!! ((mixed + i) * 2)%nat)))
    /\ mb' !! ((mixed + i) * 2 + 1)%nat =
      Some (F32.add (mb !!! ((mixed + i) * 2 + 1)%nat)
              (sample_to_float (sb !!! ((mixed + i) * 2 + 1)%nat))).
Proof.
  induction k as [| k IH]; intros c sb mb mixed i Hi Hlen.
  - pose proof (frames_to_mix_le 0 c). lia.
  - destruct (Z.eq_dec (stop_samples c) 0) as [H0 | Hne].
    + rewrite frames_to_mix_stopped in Hi by assumption. lia.
    + cbv zeta. rewrite mix_frames_step by assumption.
      rewrite frames_to_mix_step in Hi by assumption.
      destruct i as [| i].
      * rewrite Nat.add_0_r in *.
        rewrite !mix_frames_below by lia.
        rewrite list_lookup_insert_ne by lia.
        rewrite !list_lookup_insert_eq by (rewrite ?length_insert; lia).
        split; reflexivity.
      * replace (mixed + S i)%nat with (S mixed + i)%nat in * by lia.
        match goal with |- context [mix_frames k ?c1 ?sb1 ?mb1 ?m1] =>
          specialize (IH c1 sb1 mb1 m1 i) end.
        cbv zeta in IH.
        destruct IH as [IHl IHr]; [lia | rewrite !length_insert; lia |].
        rewrite IHl, IHr.
        rewrite !list_lookup_total_insert_ne by lia.
        split; reflexivity.
Qed.

(** ** The value mixed for a sample *)

(** Every 16-bit sample converts exactly: checked on all 65536 of them. *)
Lemma sample_to_float_table : all_bits 16 sample_exact 0 = true.
Proof. vm_compute. reflexivity. Qed.

Lemma sample_to_float_exact (s : Z) :
  MIN_SHORT <= s <= MAX_SHORT ->
  (SF2Q (sample_to_float s) == s # 32768)%Q /\ is_finite (sample_to_float s) = true.
Proof.
  intros [Hlo Hhi]. unfold MIN_SHORT, MAX_SHORT in *.
  pose proof (all_bits_spec 16 sample_exact 0 sample_to_float_table (s + 32768)) as H.
  change (2 ^ Z.of_nat 16) with 65536 in H.
  specialize (H ltac:(lia)). unfold sample_exact in H.
  replace (s + 32768 + MIN_SHORT) with s in H by (unfold MIN_SHORT; lia).
  destruct (sample_to_float s) as [sg | sg | | sg m e]; try discriminate.
  - apply Z.eqb_eq in H. subst s. split; reflexivity.
  - apply andb_true_iff in H as [He Hm].
    apply Z.leb_le in He. apply Z.eqb_eq in Hm.
    split; [| reflexivity].
    rewrite SF2Q_neg_exp by assumption.
    assert (H2 : 0 < 2 ^ (- e)) by (apply Z.pow_pos_nonneg; lia).
    unfold Qeq. cbn [Qnum Qden]. rewrite Z2Pos.id by assumption. lia.
Qed.

(** C3: every frame the inner loop mixes adds to the two accumulator
    entries the 16-bit samples found in the stream buffer divided by 32768,
    exactly; the mix buffer that results is the same for any other setting of
    the channel's mixer volume, secondary volume, fade, pan and relative
    volume. *)
Theorem mix_adds_raw_samples
    (read_length : nat) (c : Channel) (stream_buffer : list Z)
    (mix_buffer : list spec_float) (mixed i : nat) :
  (i < frames_to_mix read_length c)%nat ->
  ((mixed + i) * 2 + 1 < length mix_buffer)%nat ->
  MIN_SHORT <= stream_buffer !!! ((mixed + i) * 2)%nat <= MAX_SHORT ->
  MIN_SHORT <= stream_buffer !!! ((mixed + i) * 2 + 1)%nat <= MAX_SHORT ->
  let mix_buffer' := (mix_frames read_length c stream_buffer mix_buffer mixed).1.2 in
  let left := sample_to_float (stream_buffer !!! ((mixed + i) * 2)%nat) in
  let right := sample_to_float (stream_buffer !!! ((mixed + i) * 2 + 1)%nat) in
  mix_buffer' !! ((mixed + i) * 2)%nat =
    Some (F32.add (mix_buffer !!! ((mixed + i) * 2)%nat) left)
  /\ mix_buffer' !! ((mixed + i) * 2 + 1)%nat =
    Some (F32.add (mix_buffer !!! ((mixed + i) * 2 + 1)%nat) right)
  /\ (SF2Q left == stream_buffer !!! ((mixed + i) * 2)%nat # 32768)%Q
  /\ (SF2Q right == stream_buffer !!! ((mixed + i) * 2 + 1)%nat # 32768)%Q
  /\ forall (mv rv : spec_float) (sv fa pa : Interpolate),
       (mix_frames read_length
          (set_mixer_volume mv (set_secondary_volume sv (set_fade fa (set_pan pa
             (set_playing_relative_volume rv c)))))
          stream_buffer mix_buffer mixed).1.2 = mix_buffer'.
Proof.
  intros Hi Hlen Hl Hr mb' left right.
  destruct (mix_frames_accumulates read_length c stream_buffer mix_buffer mixed i Hi Hlen)
    as [Hleft Hright].
  repeat split.
  - exact Hleft.
  - exact Hright.
  - now apply sample_to_float_exact.
  - now apply sample_to_float_exact.
  - intros. now apply mix_frames_gain_independent.
Qed.

Lemma mix_adds_raw_samples_witness :
  (mix_frames 1 (channel_at st_full_scale 0) [-32768; 32767] [F32.zero; F32.zero] 0).1.2
    !! O = Some (F32.add F32.zero (sample_to_float (-32768))).
Proof.
  refine (proj1 (mix_adds_raw_samples 1 (channel_at st_full_scale 0) [-32768; 32767]
                   [F32.zero; F32.zero] 0 0 _ _ _ _)).
  - vm_compute. lia.
  - cbn. lia.
  - vm_compute. split; discriminate.
  - vm_compute. split; discriminate.
Defined.

(** ** Interpolators during mixing *)

(** What the code does to the interpolators while it mixes: the inner
    mixing loop leaves the fade, pan and secondary-volume interpolators as
    they were, their [done] counters included; of the channel it writes
    [stop_samples] and [pos] only.  Over a whole turn of the callback loop
    pan and secondary volume are kept, and the fade is either kept or, at a
    promotion, restarted with [done] at 0: no [done] counter is ever
    advanced, although [done] is documented as the number of samples
    finished so far. *)
Theorem mixing_keeps_interpolators
    (read_length : nat) (c : Channel) (stream_buffer : list Z)
    (mix_buffer : list spec_float) (mixed : nat) :
  let c' := (mix_frames read_length c stream_buffer mix_buffer mixed).1.1 in
  i_done (fade c') = i_done (fade c)
  /\ fade c' = fade c /\ pan c' = pan c /\ secondary_volume c' = secondary_volume c
  /\ c' = set_pos (pos c') (set_stop_samples (stop_samples c') c)
  /\ forall (length : nat) (p : MediaState) (st : State),
       let c'' := (mix_turn length mixed c p stream_buffer mix_buffer st).1.1.1.1 in
       pan c'' = pan c /\ secondary_volume c'' = secondary_volume c
       /\ (fade c'' = fade c \/ i_done (fade c'') = 0%N).
Proof.
  intros c'.
  pose proof (mix_frames_channel read_length c stream_buffer mix_buffer mixed) as H.
  cbv zeta in H. fold c' in H.
  split; [rewrite H; reflexivity |].
  split; [rewrite H; reflexivity |].
  split; [rewrite H; reflexivity |].
  split; [rewrite H; reflexivity |].
  split; [exact H |].
  intros length p st. unfold mix_turn.
  destruct (media_read_audio p stream_buffer (Z.of_nat (length - mixed) * 2 * 2))
    as [[ret sb'] p'].
  destruct ((stop_samples (set_playing (Some p') c) =? 0) || (Z.to_nat (ret / (2 * 2)) =? 0)%nat).
  - rewrite end_of_stream_promoted. cbn [fst]. unfold promoted. cbn.
    destruct ((playing_tight c =? 0) || negb (queued_fadein c =? 0)); auto.
  - pose proof (mix_frames_channel (Z.to_nat (ret / (2 * 2))) (set_playing (Some p') c)
                  sb' mix_buffer mixed) as H'.
    cbv zeta in H'.
    destruct (mix_frames _ (set_playing (Some p') c) sb' mix_buffer mixed) as [[c1 mb1] mixed1].
    cbn [fst] in *. rewrite H'. cbn. auto.
Qed.

(** C4: the code does not advance the fade.  [stream_b] is started with a
    fade-in of 1000 ms on a 44100 Hz device, so its fade runs from 0.0 to 1.0
    over 44100 samples with [done] at 0.  One callback over two frames mixes
    two frames of it ([pos] goes from 0 to 2 and both frames reach the
    output at full scale), and [fade.done] is still 0, not 2: the value the
    fade reports is still 0.0. *)
Theorem fade_in_done_stays_zero :
  fade (channel_at st_fading_in 0)
    = {| i_done := 0; i_duration := 44100; i_start := F32.zero; i_end := F32.one |}
  /\ pos (channel_at st_fading_in 0) = 0
  /\ exists st' out,
       callback [] 8 st_fading_in = Some (st', out)
       /\ out = [999; -999; 1999; -1999]
       /\ pos (channel_at st' 0) = 2
       /\ i_done (fade (channel_at st' 0)) = 0%N
       /\ i_done (fade (channel_at st' 0)) <> 2%N
       /\ (get_interpolate (fade (channel_at st' 0))).1 = F32.zero.
Proof.
  split; [vm_compute; reflexivity | split; [reflexivity |]].
  eexists _, _. split; [vm_compute; reflexivity |].
  vm_compute. repeat split; discriminate.
Qed.

(** ** Where the decoder writes and where the mixer reads *)

Lemma interleave_length (fs : list frame) :
  length (concat (map (fun f : frame => [f.1; f.2]) fs)) = (length fs * 2)%nat.
Proof. induction fs as [| f fs IH]; cbn; [reflexivity | rewrite IH; lia]. Qed.

Lemma interleave_lookup (fs : list frame) :
  forall i,
    concat (map (fun f : frame => [f.1; f.2]) fs) !! (i * 2)%nat = fst <$> fs !! i
    /\ concat (map (fun f : frame => [f.1; f.2]) fs) !! (i * 2 + 1)%nat = snd <$> fs !! i.
Proof.
  induction fs as [| f fs IH]; intros i.
  - split; reflexivity.
  - destruct i as [| i].
    + split; reflexivity.
    + destruct (IH i) as [Hl Hr]. cbn -[Nat.mul]. split.
      * replace (S i * 2)%nat with (S (S (i * 2))) by lia. exact Hl.
      * replace (S i * 2 + 1)%nat with (S (S (i * 2 + 1))) by lia. exact Hr.
Qed.

(** After a read, the stream buffer holds the frames just delivered at its
    start and what it held before everywhere else. *)
Lemma write_frames_lookup (fs : list frame) (stream : list Z) (j : nat) :
  (j < length stream)%nat ->
  write_frames fs stream !! j =
    if (j <? length fs * 2)%nat
    then concat (map (fun f : frame => [f.1; f.2]) fs) !! j
    else stream !! j.
Proof.
  intros Hj. unfold write_frames.
  rewrite lookup_take_lt by assumption.
  pose proof (interleave_length fs) as Hlen.
  destruct (Nat.ltb_spec j (length fs * 2)) as [Hlt | Hge].
  - apply lookup_app_l. lia.
  - rewrite lookup_app_r by lia.
    rewrite lookup_drop. f_equal. lia.
Qed.

Lemma write_frames_frame (fs : list frame) (stream : list Z) (j : nat) :
  (j * 2 + 1 < length stream)%nat ->
  write_frames fs stream !! (j * 2)%nat =
    (if (j <? length fs)%nat then fst <$> fs !! j else stream !! (j * 2)%nat)
  /\ write_frames fs stream !! (j * 2 + 1)%nat =
    (if (j <? length fs)%nat then snd <$> fs !! j else stream !! (j * 2 + 1)%nat).
Proof.
  intros Hj. rewrite !write_frames_lookup by lia.
  destruct (interleave_lookup fs j) as [Hl Hr].
  destruct (Nat.ltb_spec j (length fs)) as [Hlt | Hge].
  - destruct (Nat.ltb_spec (j * 2) (length fs * 2)); [| lia].
    destruct (Nat.ltb_spec (j * 2 + 1) (length fs * 2)); [| lia].
    split; assumption.
  - destruct (Nat.ltb_spec (j * 2) (length fs * 2)); [lia |].
    destruct (Nat.ltb_spec (j * 2 + 1) (length fs * 2)); [lia |].
    split; reflexivity.
Qed.

(** A run of the callback over four frames on a decoder that delivers one
    frame per read: only the first frame reaches the output (100 becomes
    99); output frames 1 and 2 are made of what the stream buffer held on
    entry (7 becomes 6) and the decoder's frames 200 and 300 are lost. *)
Lemma short_reads_mix_stale_frames :
  ms_chunks stream_a = [[(100, -100)]; [(200, -200)]; [(300, -300)]]
  /\ option_map snd (callback [7; 7; 7; 7; 7; 7; 7; 7] 16 st_playing)
     = Some [99; -99; 6; 6; 6; 6; 0; 0].
Proof. split; [reflexivity | vm_compute; reflexivity]. Qed.

(** C10: the decoder writes the frames of a read at the start of the stream
    buffer, and the mixing loop takes the [i]-th frame it mixes from frame
    [mixed + i] of that buffer.  That is frame [mixed + i] of the read when
    the read has one, and otherwise what the buffer held before the read; it
    is frame [i] of the read when [mixed] is 0. *)
Theorem mixer_reads_at_mixed_offset
    (length mixed : nat) (c : Channel) (p : MediaState)
    (stream_buffer : list Z) (mix_buffer : list spec_float) (st : State)
    (chunk : list frame) (rest : list (list frame)) :
  ms_chunks p = chunk :: rest ->
  take (length - mixed) chunk <> [] ->
  stop_samples c <> 0 ->
  List.length stream_buffer = (length * 2)%nat ->
  List.length mix_buffer = (length * 2)%nat ->
  let given := take (length - mixed) chunk in
  let '(c', stream_buffer', mix_buffer', st', mixed') :=
    mix_turn length mixed c p stream_buffer mix_buffer st in
  stream_buffer' = write_frames given stream_buffer
  /\ (forall i, (i < List.length given)%nat ->
        stream_buffer' !! (i * 2)%nat = fst <$> given !! i
        /\ stream_buffer' !! (i * 2 + 1)%nat = snd <$> given !! i)
  /\ mixed' = (mixed + frames_to_mix (List.length given) c)%nat
  /\ (forall i, (i < frames_to_mix (List.length given) c)%nat ->
        let j := (mixed + i)%nat in
        mix_buffer' !! (j * 2)%nat =
          Some (F32.add (mix_buffer !!! (j * 2)%nat)
                  (sample_to_float (stream_buffer' !!! (j * 2)%nat)))
        /\ mix_buffer' !! (j * 2 + 1)%nat =
          Some (F32.add (mix_buffer !!! (j * 2 + 1)%nat)
                  (sample_to_float (stream_buffer' !!! (j * 2 + 1)%nat)))
        /\ stream_buffer' !! (j * 2)%nat =
             (if (j <? List.length given)%nat then fst <$> given !! j
              else stream_buffer !! (j * 2)%nat)
        /\ stream_buffer' !! (j * 2 + 1)%nat =
             (if (j <? List.length given)%nat then snd <$> given !! j
              else stream_buffer !! (j * 2 + 1)%nat))
  /\ (mixed = O ->
      forall i, (i < frames_to_mix (List.length given) c)%nat ->
        stream_buffer' !! (i * 2)%nat = fst <$> given !! i
        /\ stream_buffer' !! (i * 2 + 1)%nat = snd <$> given !! i).
Proof.
  intros Hchunks Hgiven Hstop Hsb Hmb given.
  assert (Hlen : (0 < List.length given <= length - mixed)%nat).
  { split.
    - destruct given eqn:E; [contradiction | cbn; lia].
    - unfold given. rewrite length_take. lia. }
  unfold mix_turn, media_read_audio. rewrite Hchunks.
  replace (Z.to_nat (Z.of_nat (length - mixed) * 2 * 2 / 4)) with (length - mixed)%nat
    by (rewrite <- Z.mul_assoc, Z.div_mul by lia; lia).
  fold given.
  replace (Z.to_nat (4 * Z.of_nat (List.length given) / (2 * 2))) with (List.length given)
    by (rewrite Z.mul_comm, Z.div_mul by lia; lia).
  cbn [stop_samples set_playing].
  destruct (Z.eqb_spec (stop_samples c) 0) as [| _]; [contradiction |].
  destruct (Nat.eqb_spec (List.length given) 0) as [| _]; [lia |].
  cbn [orb].
  set (p' := {| ms_id := ms_id p;
                ms_chunks := match drop (length - mixed) chunk with
                             | [] => rest
                             | _ :: _ => drop (length - mixed) chunk :: rest
                             end |}).
  set (c1 := set_playing (Some p') c).
  set (sb' := write_frames given stream_buffer).
  assert (Hftm : frames_to_mix (List.length given) c1 = frames_to_mix (List.length given) c)
    by reflexivity.
  assert (Hsb' : List.length sb' = (length * 2)%nat).
  { unfold sb', write_frames. rewrite length_take, length_app, length_drop. lia. }
  pose proof (mix_frames_mixed (List.length given) c1 sb' mix_buffer mixed) as Hmixed.
  pose proof (mix_frames_accumulates (List.length given) c1 sb' mix_buffer mixed) as Hacc.
  pose proof (frames_to_mix_le (List.length given) c) as Hle.
  destruct (mix_frames (List.length given) c1 sb' mix_buffer mixed) as [[c' mb'] mixed'].
  cbn [fst snd] in *. rewrite Hftm in *.
  assert (Hframe : forall j, (j < length)%nat ->
            sb' !! (j * 2)%nat =
              (if (j <? List.length given)%nat then fst <$> given !! j
               else stream_buffer !! (j * 2)%nat)
            /\ sb' !! (j * 2 + 1)%nat =
              (if (j <? List.length given)%nat then snd <$> given !! j
               else stream_buffer !! (j * 2 + 1)%nat)).
  { intros j Hj. apply write_frames_frame. lia. }
  assert (Hstart : forall i, (i < List.length given)%nat ->
            sb' !! (i * 2)%nat = fst <$> given !! i
            /\ sb' !! (i * 2 + 1)%nat = snd <$> given !! i).
  { intros i Hi. destruct (Hframe i ltac:(lia)) as [Hl Hr].
    destruct (Nat.ltb_spec i (List.length given)); [| lia]. split; assumption. }
  split; [reflexivity |].
  split; [exact Hstart |].
  split; [exact Hmixed |].
  split.
  - intros i Hi.
    destruct (Hacc i Hi ltac:(lia)) as [Hl Hr].
    destruct (Hframe (mixed + i)%nat ltac:(lia)) as [Hfl Hfr].
    repeat split; assumption.
  - intros _ i Hi. apply Hstart. lia.
Qed.

Lemma mixer_reads_at_mixed_offset_witness :
  (mix_turn 4 1 (channel_at st_playing 0) stream_a [100; -100; 7; 7; 7; 7; 7; 7]
     (replicate 8 F32.zero) st_playing).1.1.2 !! 2%nat
  = Some (F32.add F32.zero (sample_to_float 7)).
Proof.
  pose proof (mixer_reads_at_mixed_offset 4 1 (channel_at st_playing 0) stream_a
                [100; -100; 7; 7; 7; 7; 7; 7] (replicate 8 F32.zero) st_playing
                [(100, -100)] [[(200, -200)]; [(300, -300)]]
                eq_refl ltac:(discriminate) ltac:(discriminate) eq_refl eq_refl) as H.
  cbv zeta in H.
  destruct (mix_turn 4 1 (channel_at st_playing 0) stream_a [100; -100; 7; 7; 7; 7; 7; 7]
              (replicate 8 F32.zero) st_playing) as [[[[c' sb'] mb'] st'] mixed'].
  destruct H as (Hsb & _ & _ & H & _).
  destruct (H O ltac:(vm_compute; lia)) as (Hl & _).
  cbn [fst snd]. rewrite Hsb in Hl. exact Hl.
Defined.

(** ** Queue implies playing *)

Lemma slot_ok_fresh : slot_ok fresh_channel.
Proof. intros H. cbn in H. congruence. Qed.

Lemma queue_implies_playing_initial (alloc : bool) :
  queue_implies_playing (initial_state alloc).
Proof. apply Forall_nil_2. Qed.

Lemma check_channel_keeps (channel : Z) (st : State) :
  queue_implies_playing st -> queue_implies_playing (check_channel channel st).2.
Proof.
  intros Hinv. unfold check_channel.
  destruct (channel <? 0); [exact Hinv |].
  destruct (num_channels st <=? channel); [| exact Hinv].
  destruct (realloc_ok st); [| exact Hinv].
  unfold queue_implies_playing. cbn.
  apply Forall_app. split; [exact Hinv |].
  apply Forall_replicate, slot_ok_fresh.
Qed.

Lemma channel_at_ok (st : State) (channel : Z) :
  queue_implies_playing st -> slot_ok (channel_at st channel).
Proof.
  intros Hinv. unfold channel_at.
  rewrite list_lookup_total_alt.
  destruct (channels st !! Z.to_nat channel) as [c |] eqn:Hc; cbn.
  - exact (proj1 (Forall_lookup _ _) Hinv _ _ Hc).
  - apply slot_ok_fresh.
Qed.

(** Storing a channel that satisfies the invariant, whatever happened to the
    rest of the globals in between. *)
Lemma store_channel_keeps (e channel : Z) (c : Channel) (st st0 : State) :
  channels st = channels st0 ->
  queue_implies_playing st0 -> slot_ok c ->
  queue_implies_playing (error e (store_channel channel c st)).
Proof.
  intros Hch Hinv Hc. unfold queue_implies_playing. cbn. rewrite Hch.
  now apply Forall_insert.
Qed.

Lemma store_keeps (channel : Z) (c : Channel) (st : State) :
  queue_implies_playing st -> slot_ok c ->
  queue_implies_playing (store_channel channel c st).
Proof. intros Hinv Hc. unfold queue_implies_playing. cbn. now apply Forall_insert. Qed.

Lemma same_channels_keeps (st st0 : State) :
  channels st = channels st0 -> queue_implies_playing st0 -> queue_implies_playing st.
Proof. intros Hch Hinv. unfold queue_implies_playing. now rewrite Hch. Qed.

(** Opens an entry point: runs [check_channel], settles the failing case and
    leaves the body with the invariant of the state it runs on. *)
Ltac enter_channel Hinv :=
  match goal with
  | |- context [check_channel ?ch ?st] =>
      let rc := fresh "rc" in
      let st1 := fresh "st1" in
      let E := fresh "E" in
      let H1 := fresh "Hinv1" in
      pose proof (check_channel_keeps ch st Hinv) as H1;
      destruct (check_channel ch st) as [rc st1] eqn:E;
      cbn [snd] in H1; cbv beta iota;
      destruct (negb (rc =? 0)); [cbn [snd]; try exact H1 |]
  end.

(** Reads fields through assignments, and nothing else. *)
Ltac chan_simpl :=
  cbn [
       playing playing_name playing_fadein playing_tight playing_start_ms
       playing_relative_volume queued queued_name queued_fadein queued_tight
       queued_start_ms queued_relative_volume paused mixer_volume secondary_volume pos
       fade stop_samples event pan video set_playing set_playing_name
       set_playing_fadein set_playing_tight set_playing_start_ms
       set_playing_relative_volume set_queued set_queued_name set_queued_fadein
       set_queued_tight set_queued_start_ms set_queued_relative_volume set_paused
       set_mixer_volume set_secondary_volume set_pos set_fade set_stop_samples
       set_event set_pan set_video channels RPS_error error_msg initialized dying
       audio_spec_freq events closed realloc_ok set_channels set_RPS_error
       set_error_msg set_initialized set_dying set_audio_spec_freq set_events
       set_closed set_realloc_ok fst snd error free_stream load_stream store_channel].

Ltac chan_simpl_all :=
  cbn [
       playing playing_name playing_fadein playing_tight playing_start_ms
       playing_relative_volume queued queued_name queued_fadein queued_tight
       queued_start_ms queued_relative_volume paused mixer_volume secondary_volume pos
       fade stop_samples event pan video set_playing set_playing_name
       set_playing_fadein set_playing_tight set_playing_start_ms
       set_playing_relative_volume set_queued set_queued_name set_queued_fadein
       set_queued_tight set_queued_start_ms set_queued_relative_volume set_paused
       set_mixer_volume set_secondary_volume set_pos set_fade set_stop_samples
       set_event set_pan set_video channels RPS_error error_msg initialized dying
       audio_spec_freq events closed realloc_ok set_channels set_RPS_error
       set_error_msg set_initialized set_dying set_audio_spec_freq set_events
       set_closed set_realloc_ok fst snd error free_stream load_stream store_channel] in *.

Ltac slot_tac :=
  unfold slot_ok in *; chan_simpl_all; intros;
  repeat match goal with
         | H : playing ?c = _ |- context [playing ?c] => rewrite H
         | H : queued ?c = _ |- context [queued ?c] => rewrite H
         | H : playing ?c = _, H' : context [playing ?c] |- _ =>
             tryif constr_eq H H' then fail else rewrite H in H'
         | H : queued ?c = _, H' : context [queued ?c] |- _ =>
             tryif constr_eq H H' then fail else rewrite H in H'
         end;
  try congruence; auto.

Lemma post_event_channels (c : Channel) (st : State) :
  channels (post_event c st) = channels st.
Proof. unfold post_event. destruct (event c =? 0); reflexivity. Qed.

Lemma RPS_play_keeps channel rw name fadein tight paused_ start end_ relative_volume st :
  queue_implies_playing st ->
  queue_implies_playing
    (RPS_play channel rw name fadein tight paused_ start end_ relative_volume st).
Proof.
  intros Hinv. unfold RPS_play. enter_channel Hinv.
  destruct (playing (channel_at st1 channel)) eqn:Hp; chan_simpl;
    destruct (queued (channel_at st1 channel)) eqn:Hq; chan_simpl;
    destruct rw; chan_simpl;
    (eapply (store_channel_keeps _ _ _ _ st1); [reflexivity | exact Hinv1 | slot_tac]).
Qed.

Lemma RPS_queue_keeps channel rw name fadein tight start end_ relative_volume st :
  queue_implies_playing st ->
  queue_implies_playing (RPS_queue channel rw name fadein tight start end_ relative_volume st).
Proof.
  intros Hinv. unfold RPS_queue. enter_channel Hinv.
  destruct (playing (channel_at st1 channel)) eqn:Hp.
  - destruct (queued (channel_at st1 channel)) eqn:Hq; chan_simpl; destruct rw; chan_simpl;
      (eapply (store_channel_keeps _ _ _ _ st1); [reflexivity | exact Hinv1 | slot_tac]).
  - now apply RPS_play_keeps.
Qed.

Lemma RPS_stop_keeps channel st :
  queue_implies_playing st -> queue_implies_playing (RPS_stop channel st).
Proof.
  intros Hinv. unfold RPS_stop. enter_channel Hinv.
  destruct (playing (channel_at st1 channel)) eqn:Hp; chan_simpl;
    destruct (queued (channel_at st1 channel)) eqn:Hq; chan_simpl;
    (eapply (store_channel_keeps _ _ _ _ st1);
     [chan_simpl; rewrite ?post_event_channels; reflexivity | exact Hinv1 | slot_tac]).
Qed.

Lemma RPS_dequeue_keeps channel even_tight st :
  queue_implies_playing st -> queue_implies_playing (RPS_dequeue channel even_tight st).
Proof.
  intros Hinv. unfold RPS_dequeue. enter_channel Hinv.
  pose proof (channel_at_ok st1 channel Hinv1) as Hc.
  destruct (queued (channel_at st1 channel)) eqn:Hq;
    [destruct ((playing_tight (channel_at st1 channel) =? 0) || negb (even_tight =? 0)) |];
    (eapply (store_channel_keeps _ _ _ _ st1); [reflexivity | exact Hinv1 |]);
    unfold slot_ok in *; cbn; rewrite ?Hq in *; try congruence; auto.
Qed.

Lemma RPS_fadeout_keeps channel ms st :
  queue_implies_playing st -> queue_implies_playing (RPS_fadeout channel ms st).
Proof.
  intros Hinv. unfold RPS_fadeout. enter_channel Hinv.
  pose proof (channel_at_ok st1 channel Hinv1) as Hc.
  destruct (ms =? 0).
  - eapply (store_channel_keeps _ _ _ _ st1); [reflexivity | exact Hinv1 | exact Hc].
  - destruct (get_interpolate _) as [value i].
    eapply (store_channel_keeps _ _ _ _ st1); [reflexivity | exact Hinv1 |].
    cbn [queued set_queued_tight set_stop_samples set_fade].
    destruct (queued (channel_at st1 channel)) eqn:Hq;
      unfold slot_ok in *; cbn; rewrite ?Hq in *; try congruence; auto.
Qed.

(** The entry points that write one field outside the two slots. *)
Lemma field_setters_keep channel st :
  queue_implies_playing st ->
  (forall pause, queue_implies_playing (RPS_pause channel pause st))
  /\ (forall event_, queue_implies_playing (RPS_set_endevent channel event_ st))
  /\ (forall volume, queue_implies_playing (RPS_set_volume channel volume st))
  /\ (forall pan_ delay, queue_implies_playing (RPS_set_pan channel pan_ delay st))
  /\ (forall vol2 delay, queue_implies_playing (RPS_set_secondary_volume channel vol2 delay st))
  /\ (forall video_, queue_implies_playing (RPS_set_video channel video_ st)).
Proof.
  intros Hinv.
  repeat split; intros.
  - unfold RPS_pause. enter_channel Hinv.
    pose proof (channel_at_ok st1 channel Hinv1) as Hc.
    eapply (store_channel_keeps _ _ _ _ st1); [reflexivity | exact Hinv1 | slot_tac].
  - unfold RPS_set_endevent. enter_channel Hinv.
    pose proof (channel_at_ok st1 channel Hinv1) as Hc.
    eapply (store_channel_keeps _ _ _ _ st1); [reflexivity | exact Hinv1 | slot_tac].
  - unfold RPS_set_volume. enter_channel Hinv.
    pose proof (channel_at_ok st1 channel Hinv1) as Hc.
    eapply (store_channel_keeps _ _ _ _ st1); [reflexivity | exact Hinv1 | slot_tac].
  - unfold RPS_set_pan. enter_channel Hinv.
    pose proof (channel_at_ok st1 channel Hinv1) as Hc.
    destruct (get_interpolate _) as [value i].
    eapply (store_channel_keeps _ _ _ _ st1); [reflexivity | exact Hinv1 | slot_tac].
  - unfold RPS_set_secondary_volume. enter_channel Hinv.
    pose proof (channel_at_ok st1 channel Hinv1) as Hc.
    destruct (get_interpolate _) as [value i].
    eapply (store_channel_keeps _ _ _ _ st1); [reflexivity | exact Hinv1 | slot_tac].
  - unfold RPS_set_video. enter_channel Hinv.
    pose proof (channel_at_ok st1 channel Hinv1) as Hc.
    apply store_keeps; [exact Hinv1 | slot_tac].
Qed.

(** The queries set the error code and nothing else. *)
Lemma queries_keep channel st :
  queue_implies_playing st ->
  queue_implies_playing (RPS_queue_depth channel st).2
  /\ queue_implies_playing (RPS_playing_name channel st).2
  /\ queue_implies_playing (RPS_get_pos channel st).2
  /\ queue_implies_playing (RPS_get_volume channel st).2
  /\ queue_implies_playing (RPS_get_duration channel st)
  /\ queue_implies_playing (RPS_read_video channel st)
  /\ queue_implies_playing (RPS_video_ready channel st).
Proof.
  intros Hinv.
  repeat split.
  - unfold RPS_queue_depth. enter_channel Hinv. exact Hinv1.
  - unfold RPS_playing_name. enter_channel Hinv. exact Hinv1.
  - unfold RPS_get_pos. enter_channel Hinv. exact Hinv1.
  - unfold RPS_get_volume. enter_channel Hinv. exact Hinv1.
  - unfold RPS_get_duration. enter_channel Hinv. exact Hinv1.
  - unfold RPS_read_video. enter_channel Hinv. exact Hinv1.
  - unfold RPS_video_ready. enter_channel Hinv. exact Hinv1.
Qed.

Lemma RPS_unpause_all_at_start_keeps st :
  queue_implies_playing st -> queue_implies_playing (RPS_unpause_all_at_start st).
Proof.
  intros Hinv. unfold RPS_unpause_all_at_start, queue_implies_playing in *. cbn.
  apply Forall_fmap. eapply Forall_impl; [exact Hinv |].
  intros c Hc. cbn.
  destruct (playing c) eqn:Hp; [destruct (pos c =? 0) |]; slot_tac.
Qed.

Lemma close_all_channels (d : list MediaState) :
  forall st, channels (fold_left (fun st s => free_stream s st) d st) = channels st.
Proof.
  induction d as [| s d IH]; intros st; cbn; [reflexivity |].
  now rewrite IH.
Qed.

Lemma RPS_periodic_channels st : channels (RPS_periodic st) = channels st.
Proof. unfold RPS_periodic. now rewrite close_all_channels. Qed.

(** Run from entry to return with no callback in between, every control
    operation keeps the invariant that a channel with a queued stream has a
    playing stream; and queueing a source that opens on a channel whose
    playing slot is empty puts the new stream in the playing slot and leaves
    the queued slot empty. *)
Theorem control_keeps_queue_implies_playing (op : Op) (st : State) :
  queue_implies_playing st ->
  queue_implies_playing (exec op st)
  /\ forall channel m name fadein tight start end_ relative_volume,
       op = OpQueue channel (Some m) name fadein tight start end_ relative_volume ->
       0 <= channel < num_channels st ->
       playing (channel_at st channel) = None ->
       playing (channel_at (exec op st) channel) = Some m
       /\ queued (channel_at (exec op st) channel) = None.
Proof.
  intros Hinv. split.
  - destruct op; cbn [exec].
    + now apply RPS_play_keeps.
    + now apply RPS_queue_keeps.
    + now apply RPS_stop_keeps.
    + now apply RPS_dequeue_keeps.
    + now apply queries_keep.
    + now apply queries_keep.
    + now apply RPS_fadeout_keeps.
    + now apply field_setters_keep.
    + now apply RPS_unpause_all_at_start_keeps.
    + now apply queries_keep.
    + now apply queries_keep.
    + now apply field_setters_keep.
    + now apply field_setters_keep.
    + now apply queries_keep.
    + now apply field_setters_keep.
    + now apply field_setters_keep.
    + now apply queries_keep.
    + now apply queries_keep.
    + now apply field_setters_keep.
    + unfold RPS_init.
      destruct (negb (initialized st =? 0)); [exact Hinv |].
      destruct (negb (sdl_init =? 0)); [exact Hinv |].
      destruct (negb (open_audio =? 0)); exact Hinv.
    + unfold RPS_quit.
      destruct (initialized st =? 0); [exact Hinv | apply Forall_nil_2].
    + eapply same_channels_keeps; [apply RPS_periodic_channels | exact Hinv].
    + exact Hinv.
    + exact Hinv.
  - intros channel m name fadein tight start end_ relative_volume -> Hch Hp.
    cbn [exec]. unfold RPS_queue.
    rewrite check_channel_in_range by assumption. cbn [negb Z.eqb].
    rewrite Hp. unfold RPS_play.
    rewrite check_channel_in_range by assumption. cbn [negb Z.eqb].
    rewrite Hp.
    destruct (queued (channel_at st channel)) eqn:Hq; chan_simpl; unfold error;
      match goal with
      | |- context [set_RPS_error _ (store_channel _ ?x ?s)] =>
          change (set_RPS_error SUCCESS (store_channel channel x s))
            with (set_RPS_error SUCCESS (store_channel channel x s));
          assert (Hat : channel_at (set_RPS_error SUCCESS (store_channel channel x s)) channel = x)
            by (apply (channel_at_store channel x s); exact Hch)
      end;
      rewrite Hat; unfold start_stream; chan_simpl; rewrite ?Hq; split; reflexivity.
Qed.

Lemma control_keeps_queue_implies_playing_witness :
  queue_implies_playing
    (exec (OpQueue 0 (Some stream_b) "b" 0 0 F32.zero F32.zero F32.one) st_playing).
Proof.
  refine (proj1 (control_keeps_queue_implies_playing
                   (OpQueue 0 (Some stream_b) "b" 0 0 F32.zero F32.zero F32.one)
                   st_playing _)).
  unfold queue_implies_playing. vm_compute.
  constructor; [discriminate | constructor].
Defined.

(** ** The same invariant when the callback runs inside [RPS_queue] *)

(** The two-step model is the call itself when nothing runs in between. *)
Lemma RPS_queue_in_two_steps
    (channel : Z) (rw : option MediaState) (name : string) (fadein tight : Z)
    (start end_ relative_volume : spec_float) (st : State) :
  RPS_queue channel rw name fadein tight start end_ relative_volume st
  = let '(path, st1) := RPS_queue_test channel st in
    RPS_queue_resume path channel rw name fadein tight start end_ relative_volume st1.
Proof.
  unfold RPS_queue, RPS_queue_test.
  destruct (check_channel channel st) as [rc st1].
  destruct (negb (rc =? 0)); [reflexivity |].
  destruct (playing (channel_at st1 channel)); reflexivity.
Qed.

(** The locked part never looks at the playing slot: it queues the stream it
    opened whatever the slot holds by then. *)
Lemma RPS_queue_locked_ignores_playing
    (channel : Z) (m : MediaState) (name : string) (fadein tight : Z)
    (start end_ relative_volume : spec_float) (st : State) :
  0 <= channel < num_channels st ->
  let st' := RPS_queue_locked channel (Some m) name fadein tight start end_
               relative_volume st in
  playing (channel_at st' channel) = playing (channel_at st channel)
  /\ queued (channel_at st' channel) = Some m
  /\ RPS_error st' = SUCCESS.
Proof.
  intros Hin st'. unfold st', RPS_queue_locked.
  assert (Hat : forall e c s, channels s = channels st ->
                  channel_at (error e (store_channel channel c s)) channel = c).
  { intros e c s Hs. apply (channel_at_store channel c s).
    unfold num_channels in *. now rewrite Hs. }
  destruct (queued (channel_at st channel)); chan_simpl;
    rewrite Hat by reflexivity; chan_simpl;
    repeat split; reflexivity.
Qed.

(** C7: the invariant is lost when the callback runs between the test of
    [c->playing] and [LOCK_AUDIO()] in [RPS_queue].  Channel 0 plays
    [stream_a] with a stop that is due and nothing queued, so the invariant
    holds and the test sends the call to the locked part.  The callback
    then retires [stream_a] and leaves the playing slot empty.  The locked
    part queues [stream_b] all the same and reports [SUCCESS]: after the
    call has returned the channel has a queued stream and no playing one. *)
Theorem RPS_queue_raced_by_callback :
  queue_implies_playing st_stopping
  /\ (RPS_queue_test 0 st_stopping).1 = QueueLocks
  /\ exists st',
       RPS_queue_interrupted [] 8 0 (Some stream_b) "b" 0 0 F32.zero F32.zero F32.one
         st_stopping = Some st'
       /\ RPS_error st' = SUCCESS
       /\ playing (channel_at st' 0) = None
       /\ queued (channel_at st' 0) = Some stream_b
       /\ ~ queue_implies_playing st'.
Proof.
  split.
  { unfold queue_implies_playing. vm_compute.
    constructor; [discriminate | constructor]. }
  split; [vm_compute; reflexivity |].
  eexists. split; [vm_compute; reflexivity |].
  split; [reflexivity |]. split; [reflexivity |]. split; [reflexivity |].
  unfold queue_implies_playing. intros H.
  apply Forall_cons in H as [H _]. unfold slot_ok in H. cbn in H.
  now apply H.
Qed.

(** ** Rounding of a product, from below *)

Lemma iter_pos_nat {A : Type} (f : A -> A) (p : positive) :
  forall x, SpecFloat.iter_pos f p x = Nat.iter (Pos.to_nat p) f x.
Proof.
  induction p as [p IH | p IH |]; intros x; cbn [SpecFloat.iter_pos].
  - rewrite !IH, Pos2Nat.inj_xI.
    replace (S (2 * Pos.to_nat p)) with (Pos.to_nat p + (Pos.to_nat p + 1))%nat by lia.
    rewrite !Nat.iter_add. reflexivity.
  - rewrite !IH, Pos2Nat.inj_xO.
    replace (2 * Pos.to_nat p)%nat with (Pos.to_nat p + Pos.to_nat p)%nat by lia.
    rewrite Nat.iter_add. reflexivity.
  - reflexivity.
Qed.

Lemma shr_1_mantissa (r : shr_record) :
  0 <= shr_m r -> shr_m (shr_1 r) = shr_m r / 2.
Proof.
  destruct r as [m r s]. cbn [shr_m]. intros Hm.
  destruct m as [| p | p]; [reflexivity | | lia].
  destruct p as [p | p |]; cbn [shr_1 shr_m].
  - rewrite Pos2Z.inj_xI. apply Z.div_unique with (r := 1); lia.
  - rewrite Pos2Z.inj_xO. apply Z.div_unique with (r := 0); lia.
  - reflexivity.
Qed.

Lemma shr_iter_mantissa (k : nat) :
  forall r, 0 <= shr_m r -> shr_m (Nat.iter k shr_1 r) = shr_m r / 2 ^ Z.of_nat k.
Proof.
  induction k as [| k IH]; intros r Hm.
  - cbn. now rewrite Z.div_1_r.
  - rewrite Nat.iter_succ, shr_1_mantissa.
    + rewrite IH by assumption.
      rewrite Nat2Z.inj_succ, Z.pow_succ_r by lia.
      rewrite Z.div_div by lia. f_equal. lia.
    + rewrite IH by assumption. apply Z.div_pos; lia.
Qed.

(** The mantissa left by a right shift of [n] bits. *)
Lemma shr_mantissa (r : shr_record) (e n : Z) :
  0 <= shr_m r -> 0 < n ->
  shr_m (shr r e n).1 = shr_m r / 2 ^ n /\ (shr r e n).2 = e + n.
Proof.
  intros Hm Hn. destruct n as [| p | p]; try lia.
  cbn [shr fst snd]. rewrite iter_pos_nat, shr_iter_mantissa by assumption.
  rewrite positive_nat_Z. split; reflexivity.
Qed.

Lemma digits2_pos_lower (p : positive) :
  2 ^ (Zpos (digits2_pos p) - 1) <= Zpos p.
Proof.
  induction p as [p IH | p IH |]; cbn [digits2_pos].
  - rewrite Pos2Z.inj_succ. replace (Z.succ (Z.pos (digits2_pos p)) - 1)
      with (Z.succ (Z.pos (digits2_pos p) - 1)) by lia.
    rewrite Z.pow_succ_r by lia. lia.
  - rewrite Pos2Z.inj_succ. replace (Z.succ (Z.pos (digits2_pos p)) - 1)
      with (Z.succ (Z.pos (digits2_pos p) - 1)) by lia.
    rewrite Z.pow_succ_r by lia. lia.
  - reflexivity.
Qed.

Lemma shiftl_mono (a b e : Z) : 0 <= a <= b -> Z.shiftl a e <= Z.shiftl b e.
Proof.
  intros Hab. destruct (Z.le_gt_cases 0 e).
  - rewrite !Z.shiftl_mul_pow2 by assumption.
    apply Z.mul_le_mono_nonneg_r; [apply Z.pow_nonneg |]; lia.
  - rewrite !Z.shiftl_div_pow2 by lia.
    apply Z.div_le_mono; [apply Z.pow_pos_nonneg |]; lia.
Qed.

(** The shift that brings a mantissa to 24 bits never takes the integer part
    of the value below what it was, or below [2 ^ 24]. *)
Lemma shr_fexp_integer_part (p : positive) (e : Z) (l : location) :
  let r := shr_fexp F32.prec F32.emax (Zpos p) e l in
  0 <= shr_m r.1
  /\ Z.min (Z.shiftl (Zpos p) e) (2 ^ 24) <= Z.shiftl (shr_m r.1) r.2.
Proof.
  unfold shr_fexp. cbn [Zdigits2].
  set (d := Zpos (digits2_pos p)).
  set (n := fexp F32.prec F32.emax (d + e) - e).
  assert (Hm0 : shr_m (shr_record_of_loc (Zpos p) l) = Zpos p)
    by (destruct l as [| []]; reflexivity).
  destruct (Z.le_gt_cases n 0) as [Hn | Hn].
  - assert (Hid : shr (shr_record_of_loc (Zpos p) l) e n = (shr_record_of_loc (Zpos p) l, e))
      by (destruct n; [reflexivity | lia | reflexivity]).
    cbv zeta. rewrite Hid. cbn [fst snd]. rewrite Hm0. lia.
  - destruct (shr_mantissa (shr_record_of_loc (Zpos p) l) e n) as [Hm He];
      [rewrite Hm0; lia | lia |].
    cbv zeta. rewrite Hm, He, Hm0.
    assert (H2n : 0 < 2 ^ n) by (apply Z.pow_pos_nonneg; lia).
    split; [apply Z.div_pos; lia |].
    destruct (Z.le_gt_cases (e + n) 0) as [Hle | Hgt].
    + rewrite !Z.shiftl_div_pow2 by lia.
      rewrite Z.div_div by (try apply Z.pow_pos_nonneg; lia).
      rewrite <- Z.pow_add_r by lia.
      replace (n + - (e + n)) with (- e) by lia. lia.
    + assert (Hn' : n = d - 24).
      { unfold n, fexp, emin, F32.prec, F32.emax in *. lia. }
      pose proof (digits2_pos_lower p) as Hlow. fold d in Hlow.
      assert (H23 : 2 ^ 23 <= Z.pos p / 2 ^ n).
      { apply Z.div_le_lower_bound; [lia |].
        rewrite <- Z.pow_add_r by lia.
        replace (n + 23) with (d - 1) by lia. exact Hlow. }
      rewrite (Z.shiftl_mul_pow2 (Z.pos p / 2 ^ n) (e + n)) by lia.
      assert (H2e : 2 <= 2 ^ (e + n)).
      { change 2 with (2 ^ 1) at 1. apply Z.pow_le_mono_r; lia. }
      assert (H24 : 2 ^ 23 * 2 <= Z.pos p / 2 ^ n * 2 ^ (e + n))
        by (apply Z.mul_le_mono_nonneg; lia).
      change (2 ^ 24) with (2 ^ 23 * 2). lia.
Qed.

Lemma round_nearest_even_ge (m : Z) (l : location) : m <= round_nearest_even m l.
Proof.
  unfold round_nearest_even.
  destruct l as [| []]; try lia. destruct (Z.even m); lia.
Qed.

(** Rounding the exact product to a float: the outcome is an infinity or a
    float whose integer part is at least that of the product, up to
    [2 ^ 24]. *)
Lemma binary_round_aux_integer_part (s : bool) (p : positive) (e : Z) :
  let x := binary_round_aux F32.prec F32.emax s (Zpos p) e loc_Exact in
  x = S754_infinity s
  \/ exists t, truncate x = Some (cond_Zopp s t)
               /\ Z.min (Z.shiftl (Zpos p) e) (2 ^ 24) <= t.
Proof.
  unfold binary_round_aux.
  pose proof (shr_fexp_integer_part p e loc_Exact) as H1. cbv zeta in H1.
  destruct (shr_fexp F32.prec F32.emax (Z.pos p) e loc_Exact) as [r1 e1].
  cbn [fst snd] in H1. destruct H1 as [H1m H1].
  pose proof (round_nearest_even_ge (shr_m r1) (loc_of_shr_record r1)) as Hr.
  set (m1 := round_nearest_even (shr_m r1) (loc_of_shr_record r1)) in *.
  assert (H1' : Z.min (Z.shiftl (Z.pos p) e) (2 ^ 24) <= Z.shiftl m1 e1).
  { etransitivity; [exact H1 |]. apply shiftl_mono. lia. }
  destruct m1 as [| q | q] eqn:Hm1; [| | lia].
  - (* the rounded mantissa is zero *)
    right. exists 0.
    unfold shr_fexp. cbn [Zdigits2].
    assert (Hz : forall n, shr_m (shr (shr_record_of_loc 0 loc_Exact) e1 n).1 = 0).
    { intros n. destruct (Z.le_gt_cases n 0).
      - destruct n; try lia; reflexivity.
      - destruct (shr_mantissa (shr_record_of_loc 0 loc_Exact) e1 n) as [Hm _];
          [cbn; lia | lia |].
        rewrite Hm. cbn. apply Z.div_0_l. apply Z.pow_nonzero; lia. }
    specialize (Hz (fexp F32.prec F32.emax (0 + e1) - e1)).
    destruct (shr (shr_record_of_loc 0 loc_Exact) e1 (fexp F32.prec F32.emax (0 + e1) - e1))
      as [r2 e2].
    cbn [fst] in Hz. rewrite Hz. cbn [truncate].
    rewrite Z.shiftl_0_l in H1'. destruct s; cbn; split; try reflexivity; lia.
  - pose proof (shr_fexp_integer_part q e1 loc_Exact) as H2. cbv zeta in H2.
    destruct (shr_fexp F32.prec F32.emax (Z.pos q) e1 loc_Exact) as [r2 e2].
    cbn [fst snd] in H2. destruct H2 as [H2m H2].
    destruct (shr_m r2) as [| m2 | m2] eqn:Hm2; [| | lia].
    + right. exists 0. cbn [truncate].
      rewrite Z.shiftl_0_l in H2. split; [destruct s; reflexivity | lia].
    + destruct (e2 <=? F32.emax - F32.prec); [| left; reflexivity].
      right. exists (Z.shiftl (Zpos m2) e2). cbn [truncate].
      split; [reflexivity | lia].
Qed.

(** ** The output stage *)

Lemma SF2Q_fraction (s : bool) (m : positive) (e : Z) :
  (SF2Q (S754_finite s m e)
   == cond_Zopp s (Zpos m) * 2 ^ Z.max e 0 # Z.to_pos (2 ^ Z.max (- e) 0))%Q.
Proof.
  destruct (Z.le_gt_cases e 0) as [He | He].
  - rewrite SF2Q_neg_exp by assumption.
    replace (Z.max e 0) with 0 by lia. replace (Z.max (- e) 0) with (- e) by lia.
    rewrite Z.pow_0_r, Z.mul_1_r. reflexivity.
  - rewrite SF2Q_nonneg_exp by lia.
    replace (Z.max e 0) with e by lia. replace (Z.max (- e) 0) with 0 by lia.
    reflexivity.
Qed.

(** Multiplying by [(float) MAX_SHORT]: the exact product is rounded. *)
Lemma mul_max_short (s : bool) (m : positive) (e : Z) :
  F32.mul (S754_finite s m e) (F32.of_Z MAX_SHORT) =
    binary_round_aux F32.prec F32.emax s (Zpos (m * 16776704)) (e + -9) loc_Exact.
Proof.
  change (F32.of_Z MAX_SHORT) with (S754_finite false 16776704 (-9)).
  unfold F32.mul, SFmul. now rewrite xorb_false_r.
Qed.

(** A magnitude of at least [k / 32767] scales to an integer part of at
    least [k], for the [k] that matter to the clamp. *)
Lemma scaled_integer_part (m : positive) (e k : Z) :
  0 < k <= 32768 ->
  (k # 32767 <= SF2Q (S754_finite false m e))%Q ->
  k <= Z.min (Z.shiftl (Zpos (m * 16776704)) (e + -9)) (2 ^ 24).
Proof.
  intros Hk Hq. rewrite SF2Q_fraction in Hq.
  unfold Qle in Hq. cbn [Qnum Qden cond_Zopp] in Hq.
  assert (Hden : 0 < 2 ^ Z.max (- e) 0) by (apply Z.pow_pos_nonneg; lia).
  rewrite Z2Pos.id in Hq by assumption.
  rewrite Pos2Z.inj_mul.
  apply Z.min_glb; [| change (2 ^ 24) with 16777216; lia].
  destruct (Z.le_gt_cases 0 (e + -9)) as [Hge | Hlt].
  - rewrite Z.shiftl_mul_pow2 by assumption.
    assert (0 < 2 ^ (e + -9)) by (apply Z.pow_pos_nonneg; lia).
    nia.
  - rewrite Z.shiftl_div_pow2 by lia.
    assert (Hp : 0 < 2 ^ (- (e + -9))) by (apply Z.pow_pos_nonneg; lia).
    apply Z.div_le_lower_bound; [assumption |].
    destruct (Z.le_gt_cases e 0) as [He | He].
    + replace (Z.max e 0) with 0 in Hq by lia.
      replace (Z.max (- e) 0) with (- e) in Hq by lia.
      replace (- (e + -9)) with (9 + - e) by lia.
      rewrite Z.pow_add_r by lia. change (2 ^ 9) with 512.
      rewrite Z.pow_0_r in Hq. nia.
    + assert (2 ^ (- (e + -9)) <= 2 ^ 8) by (apply Z.pow_le_mono_r; lia).
      change (2 ^ 8) with 256 in *. nia.
Qed.

Lemma clamp_short_range (v : Z) : MIN_SHORT <= clamp_short v <= MAX_SHORT.
Proof.
  unfold clamp_short, MIN_SHORT, MAX_SHORT.
  destruct (Z.ltb_spec 32767 v); cbn.
  - lia.
  - destruct (Z.ltb_spec v (-32768)); lia.
Qed.

(** The scaled and converted value of a float whose magnitude is at least
    [k / 32767]. *)
Lemma scaled_magnitude (s : bool) (m : positive) (e k : Z) :
  0 < k <= 32768 ->
  (k # 32767 <= SF2Q (S754_finite false m e))%Q ->
  float_to_int (F32.mul (S754_finite s m e) (F32.of_Z MAX_SHORT)) <> None ->
  exists t, int_of_float (F32.mul (S754_finite s m e) (F32.of_Z MAX_SHORT)) = cond_Zopp s t
            /\ k <= t.
Proof.
  intros Hk Hq Hdef.
  pose proof (scaled_integer_part m e k Hk Hq) as Hint.
  rewrite mul_max_short in *.
  destruct (binary_round_aux_integer_part s (m * 16776704) (e + -9)) as [Hinf | (t & Ht & Hle)].
  - rewrite Hinf in Hdef. cbn in Hdef. congruence.
  - exists t. split; [| lia].
    unfold int_of_float, float_to_int in *. rewrite Ht in *.
    destruct ((INT_MIN <=? cond_Zopp s t) && (cond_Zopp s t <=? INT_MAX)); [reflexivity | congruence].
Qed.

(** C5, as the code has it: the output stage saturates.  Whenever the
    conversion to [int] is defined, a value of at least 1.0 is written as
    32767 and a value of at most -32768/32767 is written as -32768; every
    written value lies between -32768 and 32767. *)
Theorem output_stage_saturates (x : spec_float) :
  float_to_int (F32.mul x (F32.of_Z MAX_SHORT)) <> None ->
  ((1 <= SF2Q x)%Q -> output_sample x = MAX_SHORT)
  /\ ((SF2Q x <= - (32768 # 32767))%Q -> output_sample x = MIN_SHORT)
  /\ MIN_SHORT <= output_sample x <= MAX_SHORT.
Proof.
  intros Hdef. split; [| split].
  - intros Hge.
    destruct x as [s | s | | s m e];
      try (exfalso; unfold SF2Q, Qle in Hge; cbn in Hge; lia).
    destruct s.
    + exfalso. rewrite SF2Q_fraction in Hge. unfold Qle in Hge.
      cbn [Qnum Qden cond_Zopp] in Hge.
      assert (0 < 2 ^ Z.max e 0) by (apply Z.pow_pos_nonneg; lia). nia.
    + destruct (scaled_magnitude false m e 32767) as (t & Ht & Hle);
        [lia | apply Qle_trans with 1%Q; [unfold Qle; cbn; lia | exact Hge] | exact Hdef |].
      unfold output_sample. rewrite Ht. cbn [cond_Zopp].
      unfold clamp_short, MAX_SHORT, MIN_SHORT.
      destruct (Z.ltb_spec 32767 t); cbn; [reflexivity |].
      destruct (Z.ltb_spec t (-32768)); lia.
  - intros Hle.
    destruct x as [s | s | | s m e];
      try (exfalso; unfold SF2Q, Qle in Hle; cbn in Hle; lia).
    destruct s.
    + assert (Hmag : (32768 # 32767 <= SF2Q (S754_finite false m e))%Q).
      { rewrite SF2Q_fraction in *. unfold Qle in *.
        cbn [Qnum Qden cond_Zopp Qopp] in *. lia. }
      destruct (scaled_magnitude true m e 32768) as (t & Ht & Hlt);
        [lia | exact Hmag | exact Hdef |].
      unfold output_sample. rewrite Ht. cbn [cond_Zopp].
      unfold clamp_short, MAX_SHORT, MIN_SHORT.
      destruct (Z.ltb_spec 32767 (- t)); [lia |].
      destruct (Z.ltb_spec (- t) (-32768)); lia.
    + exfalso. rewrite SF2Q_fraction in Hle. unfold Qle in Hle.
      cbn [Qnum Qden cond_Zopp Qopp] in Hle.
      assert (0 < 2 ^ Z.max e 0) by (apply Z.pow_pos_nonneg; lia). nia.
  - apply clamp_short_range.
Qed.

Lemma output_stage_saturates_witness :
  output_sample (F32.of_Z 2) = MAX_SHORT
  /\ output_sample (F32.of_Z (-2)) = MIN_SHORT.
Proof.
  split.
  - refine (proj1 (output_stage_saturates (F32.of_Z 2) _) _).
    + vm_compute. discriminate.
    + vm_compute. discriminate.
  - refine (proj1 (proj2 (output_stage_saturates (F32.of_Z (-2)) _)) _).
    + vm_compute. discriminate.
    + vm_compute. discriminate.
Defined.

(** C5 as stated fails at -1.0: the value is at most -1.0 and is written as
    -32767.  It is the value the mixer accumulates for a sample of -32768,
    which the callback thus writes as -32767. *)
Lemma minus_one_written_as_minus_32767 :
  (SF2Q (F32.of_Z (-1)) <= -1)%Q
  /\ output_sample (F32.of_Z (-1)) = -32767
  /\ F32.add F32.zero (sample_to_float (-32768)) = F32.of_Z (-1)
  /\ option_map snd (callback [] 4 st_full_scale) = Some [-32767; 32766].
Proof.
  split; [vm_compute; discriminate |].
  split; [vm_compute; reflexivity |].
  split; vm_compute; reflexivity.
Qed.

(** ** The callback returns *)

Lemma media_read_audio_frames (p : MediaState) (sb : list Z) (n : nat) :
  (frames_read p sb (Z.of_nat n * 2 * 2) <= n)%nat.
Proof.
  unfold frames_read, media_read_audio.
  destruct (ms_chunks p) as [| chunk rest]; cbn [fst snd].
  - change (Z.to_nat (0 / (2 * 2))) with O. lia.
  - replace (Z.to_nat (Z.of_nat n * 2 * 2 / 4)) with n
      by (rewrite <- Z.mul_assoc, Z.div_mul by lia; lia).
    rewrite Z.mul_comm, Z.div_mul by lia.
    rewrite Nat2Z.id, length_take. lia.
Qed.

Lemma mix_frames_slots (k : nat) (c : Channel) (sb : list Z) (mb : list spec_float) (mixed : nat) :
  playing (mix_frames k c sb mb mixed).1.1 = playing c
  /\ queued (mix_frames k c sb mb mixed).1.1 = queued c.
Proof.
  pose proof (mix_frames_channel k c sb mb mixed) as H. cbv zeta in H.
  rewrite H. split; reflexivity.
Qed.

(** A turn of the loop retires a stream or mixes at least one frame, and
    never mixes past the end of the buffer. *)
Lemma mix_turn_progress (length mixed : nat) (c : Channel) (p : MediaState)
    (sb : list Z) (mb : list spec_float) (st : State) :
  playing c = Some p -> (mixed < length)%nat ->
  let '(c', _, _, _, mixed') := mix_turn length mixed c p sb mb st in
  (mixed' <= length)%nat
  /\ ((length - mixed') + slots c' < (length - mixed) + slots c)%nat.
Proof.
  intros Hp Hlt.
  pose proof (media_read_audio_frames p sb (length - mixed)) as Hread.
  unfold mix_turn, frames_read in *.
  destruct (media_read_audio p sb (Z.of_nat (length - mixed) * 2 * 2)) as [[ret sb'] p'].
  cbn [fst snd] in Hread.
  set (rl := Z.to_nat (ret / (2 * 2))) in *.
  cbn [stop_samples set_playing].
  destruct (Z.eqb_spec (stop_samples c) 0) as [H0 | Hne]; cbn [orb].
  - rewrite end_of_stream_promoted. unfold slots, promoted. cbn.
    rewrite Hp. destruct (queued c); cbn; lia.
  - destruct (Nat.eqb_spec rl 0) as [Hz | Hnz].
    + rewrite end_of_stream_promoted. unfold slots, promoted. cbn.
      rewrite Hp. destruct (queued c); cbn; lia.
    + pose proof (mix_frames_mixed rl (set_playing (Some p') c) sb' mb mixed) as Hm.
      pose proof (mix_frames_slots rl (set_playing (Some p') c) sb' mb mixed) as [Hpl Hq].
      pose proof (frames_to_mix_le rl (set_playing (Some p') c)) as Hle.
      assert (Hge : (1 <= frames_to_mix rl (set_playing (Some p') c))%nat).
      { unfold frames_to_mix. cbn [stop_samples set_playing].
        destruct (Z.ltb_spec (stop_samples c) 0); lia. }
      destruct (mix_frames rl (set_playing (Some p') c) sb' mb mixed) as [[c' mb'] mixed'].
      cbn [fst snd] in *. subst mixed'.
      unfold slots. rewrite Hpl, Hq, Hp. cbn. lia.
Qed.

Lemma mix_channel_returns (fuel : nat) :
  forall length mixed c sb mb st,
    (mixed <= length)%nat ->
    ((length - mixed) + slots c <= fuel)%nat ->
    is_Some (mix_channel fuel length mixed c sb mb st).
Proof.
  induction fuel as [| fuel IH]; intros length mixed c sb mb st Hle Hfuel.
  - cbn. unfold slots in Hfuel.
    destruct (playing c); [lia | eauto].
  - cbn [mix_channel].
    destruct (playing c) as [p |] eqn:Hp; [| eauto].
    destruct (Nat.ltb_spec mixed length) as [Hlt | Hge]; [| eauto].
    pose proof (mix_turn_progress length mixed c p sb mb st Hp Hlt) as Hprog.
    destruct (mix_turn length mixed c p sb mb st) as [[[[c' sb'] mb'] st'] mixed'].
    destruct Hprog as [Hle' Hdec].
    apply IH; lia.
Qed.

Lemma mix_channels_returns (length : nat) (cs : list Channel) :
  forall sb mb st, is_Some (mix_channels length cs sb mb st).
Proof.
  induction cs as [| c cs IH]; intros sb mb st; cbn [mix_channels]; [eauto |].
  assert (Hr : is_Some (match playing c with
                        | Some _ =>
                            if negb (paused c =? 0) then Some (c, sb, mb, st, O)
                            else mix_channel (length + 3) length 0 c sb mb st
                        | None => Some (c, sb, mb, st, O)
                        end)).
  { destruct (playing c) eqn:Hp; [| eauto].
    destruct (negb (paused c =? 0)); [eauto |].
    apply mix_channel_returns; [lia |].
    unfold slots. rewrite Hp. destruct (queued c); cbn; lia. }
  destruct Hr as [[[[[c' sb'] mb'] st'] mixed'] ->].
  destruct (IH sb' mb' st') as [[[[cs' sb''] mb''] st''] ->].
  eauto.
Qed.

(** The callback returns on every input: the fuel given to the inner loop
    is never used up. *)
Lemma callback_returns (stack : list Z) (length : Z) (st : State) :
  is_Some (callback stack length st).
Proof.
  unfold callback.
  destruct (mix_channels_returns (Z.to_nat (Z.quot length 4)) (channels st)
              (resize (Z.to_nat (Z.quot length 4) * 2) 0 stack)
              (replicate (Z.to_nat (Z.quot length 4) * 2) F32.zero) st)
    as [[[[cs sb] mb] st'] ->].
  eauto.
Qed.

(** ** The callback keeps the invariant *)

Lemma mix_turn_keeps (length mixed : nat) (c : Channel) (p : MediaState)
    (sb : list Z) (mb : list spec_float) (st : State) :
  slot_ok (mix_turn length mixed c p sb mb st).1.1.1.1.
Proof.
  unfold mix_turn.
  destruct (media_read_audio p sb (Z.of_nat (length - mixed) * 2 * 2)) as [[ret sb'] p'].
  destruct ((stop_samples (set_playing (Some p') c) =? 0) || (Z.to_nat (ret / (2 * 2)) =? 0)%nat).
  - rewrite end_of_stream_promoted. cbn [fst]. intros H. cbn in H. congruence.
  - pose proof (mix_frames_slots (Z.to_nat (ret / (2 * 2))) (set_playing (Some p') c) sb' mb mixed)
      as [Hp _].
    destruct (mix_frames _ _ _ _ _) as [[c' mb'] mixed'].
    cbn [fst] in *. intros _. rewrite Hp. cbn. discriminate.
Qed.

Lemma mix_channel_keeps (fuel : nat) :
  forall length mixed c sb mb st r,
    slot_ok c ->
    mix_channel fuel length mixed c sb mb st = Some r ->
    slot_ok r.1.1.1.1.
Proof.
  induction fuel as [| fuel IH]; intros length mixed c sb mb st r Hc Hr; cbn [mix_channel] in Hr.
  - destruct (playing c); [destruct (mixed <? length)%nat |];
      try discriminate; injection Hr as <-; exact Hc.
  - destruct (playing c) as [p |];
      [destruct (mixed <? length)%nat |]; try (injection Hr as <-; exact Hc).
    pose proof (mix_turn_keeps length mixed c p sb mb st) as Hturn.
    destruct (mix_turn length mixed c p sb mb st) as [[[[c' sb'] mb'] st'] mixed'].
    exact (IH _ _ _ _ _ _ _ Hturn Hr).
Qed.

Lemma mix_channels_keeps (length : nat) (cs : list Channel) :
  forall sb mb st r,
    Forall slot_ok cs ->
    mix_channels length cs sb mb st = Some r ->
    Forall slot_ok r.1.1.1.
Proof.
  induction cs as [| c cs IH]; intros sb mb st r Hcs Hr; cbn [mix_channels] in Hr.
  - injection Hr as <-. constructor.
  - apply Forall_cons in Hcs as [Hc Hcs].
    destruct (match playing c with
              | Some _ =>
                  if negb (paused c =? 0) then Some (c, sb, mb, st, O)
                  else mix_channel (length + 3) length 0 c sb mb st
              | None => Some (c, sb, mb, st, O)
              end) as [[[[[c' sb'] mb'] st'] mixed'] |] eqn:Hone; [| discriminate].
    assert (Hc' : slot_ok c').
    { destruct (playing c); [destruct (negb (paused c =? 0)) |].
      - injection Hone as <- _ _ _ _. exact Hc.
      - exact (mix_channel_keeps _ _ _ _ _ _ _ _ Hc Hone).
      - injection Hone as <- _ _ _ _. exact Hc. }
    destruct (mix_channels length cs sb' mb' st') as [[[[cs' sb''] mb''] st''] |] eqn:Hrest;
      [| discriminate].
    injection Hr as <-. cbn [fst].
    constructor; [exact Hc' | exact (IH _ _ _ _ Hcs Hrest)].
Qed.

(** Between control operations the callback runs; it keeps the invariant
    too. *)
Lemma callback_keeps_queue_implies_playing (stack : list Z) (length : Z) (st st' : State)
    (out : list Z) :
  queue_implies_playing st ->
  callback stack length st = Some (st', out) ->
  queue_implies_playing st'.
Proof.
  intros Hinv Hcb. unfold callback in Hcb.
  destruct (mix_channels _ _ _ _ _) as [[[[cs sb] mb] st1] |] eqn:Hmix; [| discriminate].
  injection Hcb as <- _.
  exact (mix_channels_keeps _ _ _ _ _ _ Hinv Hmix).
Qed.

(** * Further properties of the code *)

(** ** Channel validation *)

Lemma check_channel_negative (channel : Z) (st : State) :
  channel < 0 ->
  check_channel channel st = (-1, rejected "Channel number out of range." st).
Proof.
  intros H. unfold check_channel.
  destruct (Z.ltb_spec channel 0); [reflexivity | lia].
Qed.

Lemma check_channel_no_memory (channel : Z) (st : State) :
  num_channels st <= channel -> realloc_ok st = false ->
  check_channel channel st = (-1, rejected "Unable to allocate additional channels." st).
Proof.
  intros H Hre. unfold check_channel, num_channels in *.
  destruct (Z.ltb_spec channel 0); [lia |].
  destruct (Z.leb_spec (Z.of_nat (length (channels st))) channel); [| lia].
  now rewrite Hre.
Qed.

Lemma check_channel_usable (channel : Z) (st : State) :
  usable channel st -> check_channel channel st = (0, grow channel st).
Proof.
  intros [H0 Hok]. unfold check_channel, grow.
  destruct (Z.ltb_spec channel 0); [lia |].
  destruct (Z.leb_spec (num_channels st) channel); [| reflexivity].
  destruct Hok as [Hlt | ->]; [lia | reflexivity].
Qed.

Lemma grow_in_range (channel : Z) (st : State) :
  0 <= channel -> 0 <= channel < num_channels (grow channel st).
Proof.
  intros H0. unfold grow, num_channels.
  destruct (Z.leb_spec (Z.of_nat (length (channels st))) channel); cbn.
  - rewrite length_app, length_replicate. lia.
  - lia.
Qed.

Lemma grow_num_channels (channel : Z) (st : State) :
  0 <= channel ->
  num_channels (grow channel st) = Z.max (num_channels st) (channel + 1).
Proof.
  intros H0. unfold grow, num_channels.
  destruct (Z.leb_spec (Z.of_nat (length (channels st))) channel); cbn.
  - rewrite length_app, length_replicate. lia.
  - lia.
Qed.

(** Every call of an entry point with a rejected channel number has one
    effect, whatever the entry point. *)
Lemma rejected_call (op : Op) (st : State) (channel : Z) (msg : string) :
  op_channel op = Some channel ->
  check_channel channel st = (-1, rejected msg st) ->
  exec op st = rejected msg st.
Proof.
  intros Hop Hcheck.
  destruct op; cbn in Hop; try discriminate; injection Hop as ->; cbn [exec];
    match goal with
    | |- (?f _ _).2 = _ => unfold f
    | |- ?f _ _ _ _ _ _ _ _ _ _ = _ => unfold f
    | |- ?f _ _ _ _ _ _ _ _ _ = _ => unfold f
    | |- ?f _ _ _ _ = _ => unfold f
    | |- ?f _ _ _ = _ => unfold f
    | |- ?f _ _ = _ => unfold f
    end;
    rewrite Hcheck; reflexivity.
Qed.

(** X1: an entry point called with a negative channel number changes
    nothing but the error: the code is [RPS_ERROR], the message says the
    channel is out of range, and the table, the logs and the dying list are
    as before.  The queries then answer 0 (depth), -1 (position) and 0.0
    (volume). *)
Theorem negative_channel_rejected (op : Op) (st : State) (channel : Z) :
  op_channel op = Some channel -> channel < 0 ->
  exec op st = rejected "Channel number out of range." st
  /\ channels (exec op st) = channels st
  /\ RPS_error (exec op st) = RPS_ERROR
  /\ RPS_get_error (exec op st) = Some "Channel number out of range."%string
  /\ (RPS_queue_depth channel st).1 = 0
  /\ (RPS_get_pos channel st).1 = -1
  /\ (RPS_get_volume channel st).1 = F32.zero
  /\ (RPS_playing_name channel st).1 = None.
Proof.
  intros Hop Hneg.
  pose proof (check_channel_negative channel st Hneg) as Hcheck.
  rewrite (rejected_call op st channel _ Hop Hcheck).
  unfold RPS_queue_depth, RPS_get_pos, RPS_get_volume, RPS_playing_name.
  rewrite Hcheck. repeat split; reflexivity.
Qed.

Lemma negative_channel_rejected_witness :
  RPS_error (exec (OpFadeout (-1) 100) st_playing) = RPS_ERROR.
Proof.
  refine (proj1 (proj2 (proj2 (negative_channel_rejected (OpFadeout (-1) 100) st_playing (-1) _ _)))).
  - reflexivity.
  - lia.
Defined.

(** X2: when the table is too short for the channel asked for and the
    allocator refuses to grow it, the entry point changes nothing but the
    error code and message. *)
Theorem allocation_failure_rejected (op : Op) (st : State) (channel : Z) :
  op_channel op = Some channel ->
  num_channels st <= channel -> realloc_ok st = false ->
  exec op st = rejected "Unable to allocate additional channels." st
  /\ channels (exec op st) = channels st
  /\ RPS_error (exec op st) = RPS_ERROR
  /\ RPS_get_error (exec op st) = Some "Unable to allocate additional channels."%string.
Proof.
  intros Hop Hlen Hre.
  pose proof (check_channel_no_memory channel st Hlen Hre) as Hcheck.
  rewrite (rejected_call op st channel _ Hop Hcheck).
  repeat split; reflexivity.
Qed.

Lemma allocation_failure_rejected_witness :
  channels (exec (OpSetVolume 7 F32.one) (initial_state false)) = [].
Proof.
  refine (proj1 (proj2 (allocation_failure_rejected (OpSetVolume 7 F32.one)
                          (initial_state false) 7 _ _ _))).
  - reflexivity.
  - vm_compute. discriminate.
  - reflexivity.
Defined.

(** X3: growing the table.  An accepted channel number beyond the table
    extends it to exactly that channel; the channels that were there keep
    their index and contents; every new channel is paused, empty, at mixer
    volume 1.0 and without event, its fade and secondary volume constant at
    1.0 and its pan at 0.0; the error code is not touched. *)
Theorem check_channel_grows (channel : Z) (st : State) :
  usable channel st ->
  let st' := (check_channel channel st).2 in
  (check_channel channel st).1 = 0
  /\ num_channels st' = Z.max (num_channels st) (channel + 1)
  /\ (forall i c, channels st !! i = Some c -> channels st' !! i = Some c)
  /\ (forall i, (length (channels st) <= i < length (channels st'))%nat ->
        exists c, channels st' !! i = Some c
          /\ playing c = None /\ queued c = None /\ paused c = 1
          /\ mixer_volume c = F32.one /\ event c = 0 /\ pos c = 0
          /\ (get_interpolate (fade c)).1 = F32.one
          /\ (get_interpolate (secondary_volume c)).1 = F32.one
          /\ (get_interpolate (pan c)).1 = F32.zero)
  /\ RPS_error st' = RPS_error st /\ error_msg st' = error_msg st
  /\ dying st' = dying st /\ closed st' = closed st /\ events st' = events st.
Proof.
  intros Hok. rewrite (check_channel_usable channel st Hok). cbn [fst snd].
  destruct Hok as [H0 Hok].
  unfold grow, num_channels.
  destruct (Z.leb_spec (Z.of_nat (length (channels st))) channel) as [Hge | Hlt]; cbn.
  - split; [reflexivity |].
    split; [rewrite length_app, length_replicate; lia |].
    split; [intros i c Hi; now apply lookup_app_l_Some |].
    split; [| repeat split; reflexivity].
    intros i [Hi1 Hi2]. exists fresh_channel.
    split; [| repeat split; reflexivity].
    rewrite lookup_app_r by lia.
    apply lookup_replicate_2.
    rewrite length_app, length_replicate in Hi2. lia.
  - split; [reflexivity |].
    split; [lia |].
    split; [auto |].
    split; [intros i Hi; lia | repeat split; reflexivity].
Qed.

Lemma check_channel_grows_witness :
  num_channels (check_channel 7 (initial_state true)).2 = Z.max 0 8.
Proof.
  refine (proj1 (proj2 (check_channel_grows 7 (initial_state true) _))).
  split; [lia | right; reflexivity].
Defined.

(** ** Reading a channel back *)

Lemma num_channels_store (e channel : Z) (c : Channel) (st : State) :
  num_channels (error e (store_channel channel c st)) = num_channels st.
Proof. unfold num_channels. cbn. now rewrite length_insert. Qed.

Lemma channel_at_error_store (e channel : Z) (c : Channel) (st : State) :
  0 <= channel < num_channels st ->
  channel_at (error e (store_channel channel c st)) channel = c.
Proof. intros H. exact (channel_at_store channel c st H). Qed.

Lemma channel_at_store_other (e channel other : Z) (c : Channel) (st : State) :
  0 <= channel -> 0 <= other -> other <> channel ->
  channel_at (error e (store_channel channel c st)) other = channel_at st other.
Proof.
  intros H0 H1 Hne. unfold channel_at, store_channel. cbn.
  apply list_lookup_total_insert_ne. lia.
Qed.

Lemma channel_at_grow (channel other : Z) (st : State) :
  0 <= other < num_channels st ->
  channel_at (grow channel st) other = channel_at st other.
Proof.
  intros H. unfold grow, channel_at, num_channels in *.
  destruct (Z.of_nat (length (channels st)) <=? channel); [| reflexivity].
  cbn. apply lookup_total_app_l. lia.
Qed.

(** The queries on a channel of the table: what they answer. *)
Lemma queries_in_range (channel : Z) (st : State) :
  0 <= channel < num_channels st ->
  let c := channel_at st channel in
  (RPS_queue_depth channel st).1 = Z.of_nat (slots c)
  /\ (RPS_get_pos channel st).1 =
       match playing c with
       | Some _ => wrap_int (samples_to_ms st (pos c) + playing_start_ms c)
       | None => -1
       end
  /\ (RPS_playing_name channel st).1 = playing_name c
  /\ (RPS_get_volume channel st).1 = mixer_volume c.
Proof.
  intros H c. unfold RPS_queue_depth, RPS_get_pos, RPS_playing_name, RPS_get_volume.
  rewrite check_channel_in_range by assumption. cbn [negb Z.eqb fst]. fold c.
  unfold slots.
  repeat split; destruct (playing c), (queued c); reflexivity.
Qed.

(** Opens an entry point on an accepted channel. *)
Ltac enter_usable Hok :=
  rewrite (check_channel_usable _ _ Hok); cbv beta iota; cbn [negb Z.eqb].

(** ** Mixer volume *)

(** X4: the mixer volume reads back.  On any accepted channel, new or old,
    [RPS_get_volume] after [RPS_set_volume] returns the value set, with
    [SUCCESS]; the channels that were in the table keep theirs. *)
Theorem volume_round_trip (channel : Z) (volume : spec_float) (st : State) :
  usable channel st ->
  let st' := RPS_set_volume channel volume st in
  (RPS_get_volume channel st').1 = volume
  /\ RPS_error st' = SUCCESS
  /\ RPS_error (RPS_get_volume channel st').2 = SUCCESS
  /\ num_channels st' = Z.max (num_channels st) (channel + 1)
  /\ forall other, 0 <= other < num_channels st -> other <> channel ->
       channel_at st' other = channel_at st other.
Proof.
  intros Hok st'.
  pose proof (grow_in_range channel st (proj1 Hok)) as Hin.
  assert (Hst' : st' = error SUCCESS (store_channel channel
                         (set_mixer_volume volume (channel_at (grow channel st) channel))
                         (grow channel st))).
  { unfold st', RPS_set_volume. enter_usable Hok. reflexivity. }
  assert (Hin' : 0 <= channel < num_channels st')
    by (rewrite Hst', num_channels_store; exact Hin).
  destruct (queries_in_range channel st' Hin') as (_ & _ & _ & Hvol).
  split.
  { rewrite Hvol, Hst', channel_at_error_store by assumption. reflexivity. }
  split; [rewrite Hst'; reflexivity |].
  split.
  { unfold RPS_get_volume. rewrite check_channel_in_range by assumption. reflexivity. }
  split.
  { rewrite Hst', num_channels_store. apply grow_num_channels, (proj1 Hok). }
  intros other Hother Hne.
  rewrite Hst', channel_at_store_other by lia.
  now apply channel_at_grow.
Qed.

Lemma volume_round_trip_witness :
  (RPS_get_volume 7 (RPS_set_volume 7 (F32.of_Z 2) (initial_state true))).1 = F32.of_Z 2.
Proof.
  refine (proj1 (volume_round_trip 7 (F32.of_Z 2) (initial_state true) _)).
  split; [lia | right; reflexivity].
Defined.

(** ** Reading back what an entry point stored *)

Lemma channel_at_logged (e channel : Z) (c : Channel) (st st0 : State) :
  channels st = channels st0 ->
  0 <= channel < num_channels st0 ->
  channel_at (error e (store_channel channel c st)) channel = c.
Proof.
  intros Hch H. apply channel_at_error_store.
  unfold num_channels in *. now rewrite Hch.
Qed.

Lemma num_channels_logged (e channel : Z) (c : Channel) (st st0 : State) :
  channels st = channels st0 ->
  num_channels (error e (store_channel channel c st)) = num_channels st0.
Proof. intros Hch. rewrite num_channels_store. unfold num_channels. now rewrite Hch. Qed.

(** What can be read back after an entry point stored channel [cf] and left
    the other globals as in [stf]. *)
Lemma stored_result (e channel : Z) (cf : Channel) (stf st st' : State) :
  usable channel st ->
  st' = error e (store_channel channel cf stf) ->
  channels stf = channels (grow channel st) ->
  channel_at st' channel = cf
  /\ RPS_error st' = e
  /\ closed st' = closed stf /\ events st' = events stf /\ dying st' = dying stf
  /\ (RPS_queue_depth channel st').1 = Z.of_nat (slots cf)
  /\ (RPS_get_pos channel st').1 =
       match playing cf with
       | Some _ => wrap_int (samples_to_ms stf (pos cf) + playing_start_ms cf)
       | None => -1
       end
  /\ (RPS_playing_name channel st').1 = playing_name cf.
Proof.
  intros Hok Hst' Hch.
  pose proof (grow_in_range channel st (proj1 Hok)) as Hin.
  assert (Hc' : channel_at st' channel = cf)
    by (rewrite Hst'; now apply (channel_at_logged _ _ _ _ _ Hch)).
  assert (Hin' : 0 <= channel < num_channels st')
    by (rewrite Hst', (num_channels_logged _ _ _ _ _ Hch); exact Hin).
  destruct (queries_in_range channel st' Hin') as (Hdepth & Hpos & Hname & _).
  rewrite Hc' in *. rewrite Hdepth, Hpos, Hname. rewrite Hst'.
  repeat split; reflexivity.
Qed.

Lemma grow_logs (channel : Z) (st : State) :
  closed (grow channel st) = closed st /\ events (grow channel st) = events st
  /\ dying (grow channel st) = dying st
  /\ audio_spec_freq (grow channel st) = audio_spec_freq st.
Proof. unfold grow. destruct (num_channels st <=? channel); repeat split; reflexivity. Qed.

Lemma wrap_int_id (z : Z) : INT_MIN <= z <= INT_MAX -> wrap_int z = z.
Proof.
  unfold wrap_int, INT_MIN, INT_MAX. intros H.
  rewrite Z.mod_small; lia.
Qed.

Lemma int_of_float_range (x : spec_float) : INT_MIN <= int_of_float x <= INT_MAX.
Proof.
  unfold int_of_float, float_to_int.
  destruct (truncate x) as [z |]; cbn; [| unfold INT_MIN, INT_MAX; lia].
  destruct (Z.leb_spec INT_MIN z), (Z.leb_spec z INT_MAX); cbn;
    unfold INT_MIN, INT_MAX in *; lia.
Qed.

Lemma samples_to_ms_zero (st : State) : samples_to_ms st 0 = 0.
Proof. unfold samples_to_ms. destruct (audio_spec_freq st); reflexivity. Qed.

(** ** Stop, play, queue, dequeue *)

(** [RPS_stop] on an accepted channel, as a store: the channel it writes
    back and the globals it leaves. *)
Lemma RPS_stop_stored (channel : Z) (st : State) :
  usable channel st ->
  let c := channel_at (grow channel st) channel in
  exists cf stf,
    RPS_stop channel st = error SUCCESS (store_channel channel cf stf)
    /\ channels stf = channels (grow channel st)
    /\ streams cf = []
    /\ playing_name cf = match playing c with Some _ => None | None => playing_name c end
    /\ queued_name cf = match queued c with Some _ => None | None => queued_name c end
    /\ closed stf = rev (streams c) ++ closed st
    /\ events stf = match playing c with
                    | Some _ => if event c =? 0 then events st else event c :: events st
                    | None => events st
                    end
    /\ dying stf = dying st
    /\ paused cf = paused c /\ playing_tight cf = playing_tight c
    /\ stop_samples cf = stop_samples c /\ fade cf = fade c.
Proof.
  intros Hok c.
  destruct (grow_logs channel st) as (Hcl & Hev & Hdy & _).
  unfold RPS_stop. enter_usable Hok. fold c. unfold streams, post_event.
  destruct (playing c) as [p |] eqn:Hp; chan_simpl;
    destruct (queued c) as [q |] eqn:Hq; chan_simpl;
    destruct (event c =? 0); chan_simpl;
    eexists _, _; (split; [reflexivity |]); chan_simpl;
    rewrite ?Hp, ?Hq, ?Hcl, ?Hev, ?Hdy; repeat split; reflexivity.
Qed.

(** X5: [RPS_stop] on an accepted channel empties both slots and closes
    the decoders it held, the playing one first; the name of a slot is
    cleared with the stream it held; the end event is posted when a stream
    was playing and an event is set; queue depth becomes 0 and the position
    -1, with [SUCCESS].  The pause flag, the tight flag, the stop counter and
    the fade are left as they were. *)
Theorem RPS_stop_empties (channel : Z) (st : State) :
  usable channel st ->
  let c := channel_at (grow channel st) channel in
  let st' := RPS_stop channel st in
  let c' := channel_at st' channel in
  streams c' = []
  /\ playing_name c' = match playing c with Some _ => None | None => playing_name c end
  /\ queued_name c' = match queued c with Some _ => None | None => queued_name c end
  /\ (RPS_queue_depth channel st').1 = 0
  /\ (RPS_get_pos channel st').1 = -1
  /\ (RPS_playing_name channel st').1 = playing_name c'
  /\ closed st' = rev (streams c) ++ closed st
  /\ events st' = match playing c with
                  | Some _ => if event c =? 0 then events st else event c :: events st
                  | None => events st
                  end
  /\ dying st' = dying st /\ RPS_error st' = SUCCESS
  /\ paused c' = paused c /\ playing_tight c' = playing_tight c
  /\ stop_samples c' = stop_samples c /\ fade c' = fade c.
Proof.
  intros Hok c st' c'.
  destruct (RPS_stop_stored channel st Hok)
    as (cf & stf & Hst' & Hch & Hs & Hpn & Hqn & Hclosed & Hevents & Hdying
        & Hpa & Hti & Hss & Hfa).
  fold c in Hpn, Hqn, Hclosed, Hevents, Hpa, Hti, Hss, Hfa. fold st' in Hst'.
  destruct (stored_result _ _ _ _ _ _ Hok Hst' Hch)
    as (Hc' & Herr & Hcl' & Hev' & Hdy' & Hdepth & Hpos & Hname).
  fold c' in Hc'. rewrite Hc'.
  assert (Hempty : playing cf = None /\ queued cf = None).
  { unfold streams in Hs. destruct (playing cf), (queued cf); try discriminate. now split. }
  destruct Hempty as [Hp0 Hq0].
  rewrite Hdepth, Hpos, Hname, Hcl', Hev', Hdy', Herr. unfold slots. rewrite Hp0, Hq0.
  repeat split; assumption || reflexivity.
Qed.

Lemma RPS_stop_empties_witness :
  (RPS_queue_depth 0 (RPS_stop 0 st_tight_queued)).1 = 0.
Proof.
  refine (proj1 (proj2 (proj2 (proj2 (RPS_stop_empties 0 st_tight_queued _))))).
  split; [lia | left; vm_compute; reflexivity].
Defined.

(** X6: a play whose source cannot be opened still ends what the channel
    held.  Both slots are left empty and their decoders closed, the error is
    [SOUND_ERROR] with the codec message, and queue depth is 0; no end event
    is posted and pause flag, position, fade and stop counter are not
    touched. *)
Theorem RPS_play_open_failure
    (channel : Z) (name : string) (fadein tight paused_ : Z)
    (start end_ relative_volume : spec_float) (st : State) :
  usable channel st ->
  let c := channel_at (grow channel st) channel in
  let st' := RPS_play channel None name fadein tight paused_ start end_ relative_volume st in
  let c' := channel_at st' channel in
  streams c' = []
  /\ RPS_error st' = SOUND_ERROR
  /\ RPS_get_error st' = Some "Some sort of codec error."%string
  /\ closed st' = rev (streams c) ++ closed st
  /\ events st' = events st /\ dying st' = dying st
  /\ (RPS_queue_depth channel st').1 = 0
  /\ (RPS_get_pos channel st').1 = -1
  /\ paused c' = paused c /\ pos c' = pos c /\ fade c' = fade c
  /\ stop_samples c' = stop_samples c.
Proof.
  intros Hok c st' c'.
  destruct (grow_logs channel st) as (Hcl & Hev & Hdy & _).
  assert (H : exists cf stf,
             st' = error SOUND_ERROR (store_channel channel cf stf)
             /\ channels stf = channels (grow channel st)
             /\ playing cf = None /\ queued cf = None
             /\ closed stf = rev (streams c) ++ closed st
             /\ events stf = events st /\ dying stf = dying st
             /\ paused cf = paused c /\ pos cf = pos c /\ fade cf = fade c
             /\ stop_samples cf = stop_samples c).
  { unfold st', RPS_play. enter_usable Hok. fold c. unfold streams.
    destruct (playing c) as [p |] eqn:Hp; chan_simpl;
      destruct (queued c) as [q |] eqn:Hq; chan_simpl;
      eexists _, _; (split; [reflexivity |]); chan_simpl;
      rewrite ?Hp, ?Hq, ?Hcl, ?Hev, ?Hdy; repeat split; reflexivity. }
  destruct H as (cf & stf & Hst' & Hch & Hp0 & Hq0 & Hclosed & Hevents & Hdying
                 & Hpa & Hpo & Hfa & Hss).
  destruct (stored_result _ _ _ _ _ _ Hok Hst' Hch)
    as (Hc' & Herr & Hcl' & Hev' & Hdy' & Hdepth & Hpos & _).
  fold c' in Hc'. rewrite Hc'.
  rewrite Hdepth, Hpos, Hcl', Hev', Hdy'. unfold slots, streams, RPS_get_error.
  rewrite Herr, Hp0, Hq0.
  repeat split; assumption || reflexivity.
Qed.

Lemma RPS_play_open_failure_witness :
  RPS_error (RPS_play 0 None "x" 0 0 0 F32.zero F32.zero F32.one st_tight_queued)
  = SOUND_ERROR.
Proof.
  refine (proj1 (proj2 (RPS_play_open_failure 0 "x" 0 0 0 F32.zero F32.zero F32.one
                          st_tight_queued _))).
  split; [lia | left; vm_compute; reflexivity].
Defined.

(** A play whose source opens, as a store. *)
Lemma RPS_play_opened
    (channel : Z) (m : MediaState) (name : string) (fadein tight paused_ : Z)
    (start end_ relative_volume : spec_float) (st : State) :
  usable channel st ->
  let c := channel_at (grow channel st) channel in
  exists cf stf,
    RPS_play channel (Some m) name fadein tight paused_ start end_ relative_volume st
      = error SUCCESS (store_channel channel cf stf)
    /\ channels stf = channels (grow channel st)
    /\ playing cf = Some m /\ queued cf = None
    /\ playing_name cf = Some name /\ playing_fadein cf = fadein
    /\ playing_tight cf = tight
    /\ playing_start_ms cf = int_of_float (F64.mul start (F64.of_Z 1000))
    /\ playing_relative_volume cf = relative_volume
    /\ paused cf = paused_ /\ pos cf = 0 /\ stop_samples cf = -1
    /\ fade cf = {| i_done := 0; i_duration := to_unsigned (ms_to_samples st fadein);
                    i_start := F32.zero; i_end := F32.one |}
    /\ closed stf = rev (streams c) ++ closed st
    /\ events stf = events st /\ dying stf = dying st.
Proof.
  intros Hok c.
  destruct (grow_logs channel st) as (Hcl & Hev & Hdy & Hfreq).
  assert (Hms : forall s, audio_spec_freq s = audio_spec_freq st ->
                  ms_to_samples s fadein = ms_to_samples st fadein)
    by (intros s Hs; unfold ms_to_samples; now rewrite Hs).
  unfold RPS_play. enter_usable Hok. fold c. unfold streams, start_stream.
  destruct (playing c) as [p |] eqn:Hp; chan_simpl;
    destruct (queued c) as [q |] eqn:Hq; chan_simpl;
    eexists _, _; (split; [reflexivity |]); chan_simpl;
    rewrite ?Hp, ?Hq, ?Hcl, ?Hev, ?Hdy;
    rewrite ?(Hms _ Hfreq); repeat split; try reflexivity;
    f_equal; f_equal; apply Hms; exact Hfreq.
Qed.

(** X7: a play whose source opens replaces whatever the channel held.  The
    new stream is playing under its name with the fade-in, tight flag, start
    time and relative volume given, nothing is queued, the old decoders are
    closed, the pause flag is the argument, the position is 0, no stop is
    scheduled and the fade runs from 0.0 to 1.0 over the fade-in; the queries
    report depth 1 and the name, with [SUCCESS], and on a device that has
    been opened (a sample rate other than 0, by which [RPS_get_pos] divides)
    the start time as position. *)
Theorem RPS_play_starts
    (channel : Z) (m : MediaState) (name : string) (fadein tight paused_ : Z)
    (start end_ relative_volume : spec_float) (st : State) :
  usable channel st ->
  let c := channel_at (grow channel st) channel in
  let st' := RPS_play channel (Some m) name fadein tight paused_ start end_ relative_volume st in
  let c' := channel_at st' channel in
  playing c' = Some m /\ queued c' = None
  /\ playing_name c' = Some name /\ playing_fadein c' = fadein
  /\ playing_tight c' = tight
  /\ playing_start_ms c' = int_of_float (F64.mul start (F64.of_Z 1000))
  /\ playing_relative_volume c' = relative_volume
  /\ paused c' = paused_ /\ pos c' = 0 /\ stop_samples c' = -1
  /\ fade c' = {| i_done := 0; i_duration := to_unsigned (ms_to_samples st fadein);
                  i_start := F32.zero; i_end := F32.one |}
  /\ closed st' = rev (streams c) ++ closed st
  /\ events st' = events st /\ dying st' = dying st
  /\ RPS_error st' = SUCCESS
  /\ (RPS_queue_depth channel st').1 = 1
  /\ (RPS_playing_name channel st').1 = Some name
  /\ (audio_spec_freq st <> 0 ->
      (RPS_get_pos channel st').1 = int_of_float (F64.mul start (F64.of_Z 1000))).
Proof.
  intros Hok c st' c'.
  destruct (RPS_play_opened channel m name fadein tight paused_ start end_ relative_volume
              st Hok)
    as (cf & stf & Hst' & Hch & Hp1 & Hq1 & Hn & Hf & Ht & Hs & Hr
        & Hpa & Hpo & Hss & Hfa & Hclosed & Hevents & Hdying).
  fold c in Hclosed. fold st' in Hst'.
  destruct (stored_result _ _ _ _ _ _ Hok Hst' Hch)
    as (Hc' & Herr & Hcl' & Hev' & Hdy' & Hdepth & Hpos & Hname).
  fold c' in Hc'. rewrite Hc'.
  rewrite Hdepth, Hpos, Hname, Hcl', Hev', Hdy', Herr. unfold slots.
  rewrite Hp1, Hq1, Hpo, Hs, samples_to_ms_zero, Z.add_0_l.
  rewrite wrap_int_id by apply int_of_float_range.
  repeat split; assumption || reflexivity.
Qed.

Lemma RPS_play_starts_witness :
  playing (channel_at (RPS_play 0 (Some stream_b) "b" 0 0 0 (F64.of_Z 5) F32.zero F32.one
                         st_tight_queued) 0) = Some stream_b
  /\ (RPS_get_pos 0 (RPS_play 0 (Some stream_b) "b" 0 0 0 (F64.of_Z 5) F32.zero F32.one
                       st_tight_queued)).1 = 5000.
Proof.
  assert (Hok : usable 0 st_tight_queued)
    by (split; [lia | left; vm_compute; reflexivity]).
  assert (Hfreq : audio_spec_freq st_tight_queued <> 0)
    by (vm_compute; discriminate).
  pose proof (RPS_play_starts 0 stream_b "b" 0 0 0 (F64.of_Z 5) F32.zero F32.one
                st_tight_queued Hok) as H.
  cbv zeta in H.
  destruct H as (Hp & _ & _ & _ & _ & _ & _ & _ & _ & _ & _ & _ & _ & _ & _ & _ & _ & Hpos).
  split; [exact Hp |].
  rewrite (Hpos Hfreq). vm_compute. reflexivity.
Defined.

Lemma check_channel_grown (channel : Z) (st : State) :
  usable channel st ->
  check_channel channel (grow channel st) = (0, grow channel st).
Proof.
  intros Hok. apply check_channel_in_range, grow_in_range, (proj1 Hok).
Qed.

(** X8: queueing on a channel with nothing playing is playing: on every
    accepted channel, new ones included, [RPS_queue] leaves the state that
    [RPS_play] with [paused = 0] leaves, whether the source opens or not. *)
Theorem RPS_queue_on_empty_is_play
    (channel : Z) (rw : option MediaState) (name : string) (fadein tight : Z)
    (start end_ relative_volume : spec_float) (st : State) :
  usable channel st ->
  playing (channel_at (grow channel st) channel) = None ->
  RPS_queue channel rw name fadein tight start end_ relative_volume st =
    RPS_play channel rw name fadein tight 0 start end_ relative_volume st.
Proof.
  intros Hok Hp. unfold RPS_queue. enter_usable Hok. rewrite Hp.
  unfold RPS_play.
  rewrite (check_channel_grown channel st Hok), (check_channel_usable channel st Hok).
  reflexivity.
Qed.

Lemma RPS_queue_on_empty_is_play_witness :
  RPS_queue 3 (Some stream_b) "b" 0 0 F32.zero F32.zero F32.one st_playing =
    RPS_play 3 (Some stream_b) "b" 0 0 0 F32.zero F32.zero F32.one st_playing.
Proof.
  refine (RPS_queue_on_empty_is_play 3 (Some stream_b) "b" 0 0 F32.zero F32.zero F32.one
            st_playing _ _).
  - split; [lia | right; reflexivity].
  - vm_compute. reflexivity.
Defined.

(** X9: queueing behind a playing stream never touches the playing slot or
    the playback state.  The queued slot holds what the open gave (the new
    stream with its name, fade-in, tight flag, start time and relative
    volume, or nothing with [SOUND_ERROR]); a stream queued before is closed;
    the playing stream, its name and flags, the position, the fade, the stop
    counter and the pause flag are as before. *)
Theorem RPS_queue_behind_playing
    (channel : Z) (rw : option MediaState) (name : string) (fadein tight : Z)
    (start end_ relative_volume : spec_float) (st : State) (p : MediaState) :
  usable channel st ->
  playing (channel_at (grow channel st) channel) = Some p ->
  let c := channel_at (grow channel st) channel in
  let st' := RPS_queue channel rw name fadein tight start end_ relative_volume st in
  let c' := channel_at st' channel in
  queued c' = rw
  /\ (rw <> None ->
      queued_name c' = Some name /\ queued_fadein c' = fadein /\ queued_tight c' = tight
      /\ queued_start_ms c' = int_of_float (F64.mul start (F64.of_Z 1000))
      /\ queued_relative_volume c' = relative_volume)
  /\ RPS_error st' = (match rw with Some _ => SUCCESS | None => SOUND_ERROR end)
  /\ (RPS_queue_depth channel st').1 = (match rw with Some _ => 2 | None => 1 end)
  /\ closed st' = match queued c with Some q => q :: closed st | None => closed st end
  /\ events st' = events st /\ dying st' = dying st
  /\ playing c' = Some p /\ playing_name c' = playing_name c
  /\ playing_fadein c' = playing_fadein c /\ playing_tight c' = playing_tight c
  /\ playing_start_ms c' = playing_start_ms c
  /\ playing_relative_volume c' = playing_relative_volume c
  /\ pos c' = pos c /\ fade c' = fade c /\ stop_samples c' = stop_samples c
  /\ paused c' = paused c.
Proof.
  intros Hok Hp c st' c'. fold c in Hp.
  destruct (grow_logs channel st) as (Hcl & Hev & Hdy & _).
  assert (H : exists cf stf,
             st' = error (match rw with Some _ => SUCCESS | None => SOUND_ERROR end) (store_channel channel cf stf)
             /\ channels stf = channels (grow channel st)
             /\ queued cf = rw
             /\ (rw <> None ->
                 queued_name cf = Some name /\ queued_fadein cf = fadein
                 /\ queued_tight cf = tight
                 /\ queued_start_ms cf = int_of_float (F64.mul start (F64.of_Z 1000))
                 /\ queued_relative_volume cf = relative_volume)
             /\ closed stf = match queued c with Some q => q :: closed st | None => closed st end
             /\ events stf = events st /\ dying stf = dying st
             /\ playing cf = Some p /\ playing_name cf = playing_name c
             /\ playing_fadein cf = playing_fadein c /\ playing_tight cf = playing_tight c
             /\ playing_start_ms cf = playing_start_ms c
             /\ playing_relative_volume cf = playing_relative_volume c
             /\ pos cf = pos c /\ fade cf = fade c /\ stop_samples cf = stop_samples c
             /\ paused cf = paused c).
  { unfold st', RPS_queue. enter_usable Hok. fold c. rewrite Hp.
    destruct (queued c) as [q |] eqn:Hq; chan_simpl;
      destruct rw as [m |]; chan_simpl;
      eexists _, _; (split; [reflexivity |]); chan_simpl;
      rewrite ?Hp, ?Hq, ?Hcl, ?Hev, ?Hdy; repeat split; congruence || reflexivity. }
  destruct H as (cf & stf & Hst' & Hch & Hq1 & Hnew & Hclosed & Hevents & Hdying & Hp1 & Hrest).
  destruct (stored_result _ _ _ _ _ _ Hok Hst' Hch)
    as (Hc' & Herr & Hcl' & Hev' & Hdy' & Hdepth & _ & _).
  fold c' in Hc'. rewrite Hc'.
  rewrite Hdepth, Hcl', Hev', Hdy', Herr. unfold slots. rewrite Hp1, Hq1.
  split; [reflexivity |]. split; [exact Hnew |].
  split; [reflexivity |]. split; [destruct rw; reflexivity |].
  repeat split; assumption || apply Hrest.
Qed.

Lemma RPS_queue_behind_playing_witness :
  playing (channel_at (RPS_queue 0 None "x" 0 0 F32.zero F32.zero F32.one st_tight_queued) 0)
  = Some stream_a.
Proof.
  assert (Hok : usable 0 st_tight_queued)
    by (split; [lia | left; vm_compute; reflexivity]).
  assert (Hp : playing (channel_at (grow 0 st_tight_queued) 0) = Some stream_a)
    by (vm_compute; reflexivity).
  destruct (RPS_queue_behind_playing 0 None "x" 0 0 F32.zero F32.zero F32.one
              st_tight_queued stream_a Hok Hp) as (_ & _ & _ & _ & _ & _ & _ & H & _).
  exact H.
Defined.

(** X10: a dequeue that is allowed (a stream is queued, and the playing
    stream is not tight or the override is given) closes the queued decoder
    and clears the queued stream, its name and its start time; the playing
    slot, the position, the fade and the stop counter are not touched, and
    queue depth is what the playing slot alone gives. *)
Theorem RPS_dequeue_frees (channel even_tight : Z) (st : State) (q : MediaState) :
  usable channel st ->
  let c := channel_at (grow channel st) channel in
  queued c = Some q ->
  playing_tight c = 0 \/ even_tight <> 0 ->
  let st' := RPS_dequeue channel even_tight st in
  let c' := channel_at st' channel in
  queued c' = None /\ queued_name c' = None /\ queued_start_ms c' = 0
  /\ closed st' = q :: closed st
  /\ events st' = events st /\ dying st' = dying st
  /\ RPS_error st' = SUCCESS
  /\ (RPS_queue_depth channel st').1 = match playing c with Some _ => 1 | None => 0 end
  /\ playing c' = playing c /\ playing_name c' = playing_name c
  /\ playing_tight c' = playing_tight c /\ pos c' = pos c /\ fade c' = fade c
  /\ stop_samples c' = stop_samples c /\ paused c' = paused c.
Proof.
  intros Hok c Hq Hallowed st' c'.
  destruct (grow_logs channel st) as (Hcl & Hev & Hdy & _).
  assert (Hcond : (playing_tight c =? 0) || negb (even_tight =? 0) = true).
  { apply orb_true_iff. destruct Hallowed as [H0 | Hne].
    - left. now apply Z.eqb_eq.
    - right. apply negb_true_iff. now apply Z.eqb_neq. }
  assert (Hst' : st' = error SUCCESS
                         (store_channel channel
                            (set_queued_start_ms 0 (set_queued_name None (set_queued None c)))
                            (free_stream q (grow channel st)))).
  { unfold st', RPS_dequeue. enter_usable Hok. fold c. rewrite Hq, Hcond. reflexivity. }
  destruct (stored_result _ _ _ _ _ _ Hok Hst' eq_refl)
    as (Hc' & Herr & Hcl' & Hev' & Hdy' & Hdepth & _ & _).
  fold c' in Hc'. rewrite Hc'.
  rewrite Hdepth, Hcl', Hev', Hdy', Herr. unfold slots. chan_simpl.
  rewrite Hcl, Hev, Hdy.
  repeat split; try reflexivity. destruct (playing c); reflexivity.
Qed.

Lemma RPS_dequeue_frees_witness :
  queued (channel_at (RPS_dequeue 0 1 st_tight_queued) 0) = None.
Proof.
  pose proof (RPS_dequeue_frees 0 1 st_tight_queued stream_b) as H.
  cbv zeta in H.
  refine (proj1 (H _ _ _)).
  - split; [lia | left; vm_compute; reflexivity].
  - vm_compute. reflexivity.
  - right. discriminate.
Defined.

(** ** Fade-out, pause *)

(** X11: what [RPS_fadeout] leaves besides the seed of the fade.  With
    [ms = 0] the channel is as before except for [stop_samples = 0].  With
    any other [ms] the stop counter is [ms_to_samples(ms)], the fade ends at
    0.0 after that many samples counted from 0, the queued tight flag is
    cleared, and the playing tight flag is cleared exactly when nothing is
    queued; streams, names, position and pause flag are kept.  Either way the
    error is [SUCCESS] and nothing is closed or posted. *)
Theorem RPS_fadeout_effect (channel ms : Z) (st : State) :
  usable channel st ->
  let c := channel_at (grow channel st) channel in
  let st' := RPS_fadeout channel ms st in
  let c' := channel_at st' channel in
  (ms = 0 -> c' = set_stop_samples 0 c)
  /\ (ms <> 0 ->
      stop_samples c' = ms_to_samples st ms
      /\ i_end (fade c') = F32.zero /\ i_done (fade c') = 0%N
      /\ i_duration (fade c') = to_unsigned (ms_to_samples st ms)
      /\ queued_tight c' = 0
      /\ playing_tight c' = match queued c with Some _ => playing_tight c | None => 0 end
      /\ playing c' = playing c /\ queued c' = queued c
      /\ playing_name c' = playing_name c /\ queued_name c' = queued_name c
      /\ pos c' = pos c /\ paused c' = paused c)
  /\ RPS_error st' = SUCCESS
  /\ closed st' = closed st /\ events st' = events st /\ dying st' = dying st.
Proof.
  intros Hok c st' c'.
  destruct (grow_logs channel st) as (Hcl & Hev & Hdy & Hfreq).
  assert (Hms : ms_to_samples (grow channel st) ms = ms_to_samples st ms)
    by (unfold ms_to_samples; now rewrite Hfreq).
  assert (H : exists cf,
             st' = error SUCCESS (store_channel channel cf (grow channel st))
             /\ (ms = 0 -> cf = set_stop_samples 0 c)
             /\ (ms <> 0 ->
                 stop_samples cf = ms_to_samples st ms
                 /\ i_end (fade cf) = F32.zero /\ i_done (fade cf) = 0%N
                 /\ i_duration (fade cf) = to_unsigned (ms_to_samples st ms)
                 /\ queued_tight cf = 0
                 /\ playing_tight cf = match queued c with Some _ => playing_tight c | None => 0 end
                 /\ playing cf = playing c /\ queued cf = queued c
                 /\ playing_name cf = playing_name c /\ queued_name cf = queued_name c
                 /\ pos cf = pos c /\ paused cf = paused c)).
  { unfold st', RPS_fadeout. enter_usable Hok. fold c.
    destruct (Z.eqb_spec ms 0) as [-> | Hne].
    - eexists. split; [reflexivity |]. split; [reflexivity | congruence].
    - chan_simpl. rewrite Hms.
      pose proof (get_interpolate_keeps
                    (set_i_duration (to_unsigned (ms_to_samples st ms)) (set_i_done 0 (fade c))))
        as Hkeep.
      destruct (get_interpolate _) as [value i]. cbn [snd] in Hkeep. subst i.
      chan_simpl.
      destruct (queued c) eqn:Hq; eexists; (split; [reflexivity |]);
        (split; [congruence |]); intros _; chan_simpl; rewrite ?Hq;
        repeat split; reflexivity. }
  destruct H as (cf & Hst' & Hzero & Hnonzero).
  destruct (stored_result _ _ _ _ _ _ Hok Hst' eq_refl)
    as (Hc' & Herr & Hcl' & Hev' & Hdy' & _).
  fold c' in Hc'. rewrite Hc', Herr, Hcl', Hev', Hdy', Hcl, Hev, Hdy.
  repeat split; try reflexivity; try apply Hnonzero; auto.
Qed.

Lemma RPS_fadeout_effect_witness :
  stop_samples (channel_at (RPS_fadeout 0 1000 st_tight_queued) 0)
  = ms_to_samples st_tight_queued 1000.
Proof.
  assert (Hok : usable 0 st_tight_queued)
    by (split; [lia | left; vm_compute; reflexivity]).
  destruct (RPS_fadeout_effect 0 1000 st_tight_queued Hok) as (_ & H & _).
  exact (proj1 (H ltac:(discriminate))).
Defined.

(** X12: the pause flag is overwritten, not accumulated: on an accepted
    channel, pausing and then setting the flag again leaves the state that
    the second call alone leaves.  In particular pause followed by unpause is
    unpause. *)
Theorem RPS_pause_overwrites (channel first second : Z) (st : State) :
  usable channel st ->
  RPS_pause channel second (RPS_pause channel first st) = RPS_pause channel second st
  /\ paused (channel_at (RPS_pause channel second st) channel) = second.
Proof.
  intros Hok.
  pose proof (grow_in_range channel st (proj1 Hok)) as Hin.
  assert (H1 : forall v, RPS_pause channel v st =
                 error SUCCESS (store_channel channel
                                  (set_paused v (channel_at (grow channel st) channel))
                                  (grow channel st))).
  { intros v. unfold RPS_pause. enter_usable Hok. reflexivity. }
  split.
  - rewrite (H1 first).
    unfold RPS_pause at 1.
    rewrite check_channel_in_range by (rewrite num_channels_store; exact Hin).
    cbv beta iota. cbn [negb Z.eqb].
    rewrite channel_at_error_store by exact Hin.
    rewrite (H1 second).
    unfold error, store_channel. cbn.
    rewrite list_insert_insert_eq. reflexivity.
  - rewrite (H1 second), channel_at_error_store by exact Hin. reflexivity.
Qed.

Lemma RPS_pause_overwrites_witness :
  RPS_pause 0 0 (RPS_pause 0 1 st_playing) = RPS_pause 0 0 st_playing.
Proof.
  refine (proj1 (RPS_pause_overwrites 0 1 0 st_playing _)).
  split; [lia | left; vm_compute; reflexivity].
Defined.

(** ** The reaper *)

Lemma close_all_closed (d : list MediaState) :
  forall st, closed (fold_left (fun st s => free_stream s st) d st) = rev d ++ closed st.
Proof.
  induction d as [| s d IH]; intros st; cbn [fold_left rev]; [reflexivity |].
  rewrite IH. cbn. now rewrite <- app_assoc.
Qed.

Lemma close_all_others (d : list MediaState) :
  forall st,
    let st' := fold_left (fun st s => free_stream s st) d st in
    dying st' = dying st /\ events st' = events st /\ RPS_error st' = RPS_error st.
Proof.
  induction d as [| s d IH]; intros st; cbn [fold_left]; [repeat split |].
  destruct (IH (free_stream s st)) as (H1 & H2 & H3). cbv zeta.
  rewrite H1, H2, H3. repeat split.
Qed.

(** X13: [RPS_periodic] closes every decoder of the dying list once, in
    list order (the one retired last first), and leaves the list empty;
    channels, events and the error code are not touched, and a second call
    right after does nothing. *)
Theorem RPS_periodic_reaps (st : State) :
  let st' := RPS_periodic st in
  dying st' = []
  /\ closed st' = rev (dying st) ++ closed st
  /\ channels st' = channels st /\ events st' = events st
  /\ RPS_error st' = RPS_error st
  /\ RPS_periodic st' = st'.
Proof.
  cbv zeta.
  assert (Hd : dying (RPS_periodic st) = []).
  { unfold RPS_periodic.
    now destruct (close_all_others (dying st) (set_dying [] st)) as (-> & _). }
  split; [exact Hd |].
  split; [unfold RPS_periodic; now rewrite close_all_closed |].
  split; [apply RPS_periodic_channels |].
  split; [unfold RPS_periodic;
          now destruct (close_all_others (dying st) (set_dying [] st)) as (_ & -> & _) |].
  split; [unfold RPS_periodic;
          now destruct (close_all_others (dying st) (set_dying [] st)) as (_ & _ & ->) |].
  unfold RPS_periodic at 1. rewrite Hd. cbn [fold_left].
  destruct (RPS_periodic st). cbn in Hd. subst. reflexivity.
Qed.

(** ** What the callback leaves alone *)

Lemma globals_kept_refl (st : State) : globals_kept st st.
Proof. repeat split; try reflexivity; exists []; reflexivity. Qed.

Lemma globals_kept_trans (a b c : State) :
  globals_kept a b -> globals_kept b c -> globals_kept a c.
Proof.
  intros (H1 & H2 & H3 & H4 & H5 & H6 & [d1 H7] & [e1 H8])
         (G1 & G2 & G3 & G4 & G5 & G6 & [d2 G7] & [e2 G8]).
  repeat split; try congruence.
  - exists (d2 ++ d1). rewrite G7, H7. now rewrite app_assoc.
  - exists (e2 ++ e1). rewrite G8, H8. now rewrite app_assoc.
Qed.

Lemma settings_kept_refl (c : Channel) : settings_kept c c.
Proof. repeat split. Qed.

Lemma settings_kept_trans (a b c : Channel) :
  settings_kept a b -> settings_kept b c -> settings_kept a c.
Proof. unfold settings_kept. intuition congruence. Qed.

Lemma mix_turn_kept (length mixed : nat) (c : Channel) (p : MediaState)
    (sb : list Z) (mb : list spec_float) (st : State) :
  let r := mix_turn length mixed c p sb mb st in
  settings_kept c r.1.1.1.1 /\ globals_kept st r.1.2.
Proof.
  unfold mix_turn.
  destruct (media_read_audio p sb (Z.of_nat (length - mixed) * 2 * 2)) as [[ret sb'] p'].
  destruct ((stop_samples (set_playing (Some p') c) =? 0) || (Z.to_nat (ret / (2 * 2)) =? 0)%nat).
  - rewrite end_of_stream_promoted. cbn [fst snd]. split.
    + repeat split.
    + unfold post_event. chan_simpl.
      destruct (event c =? 0); repeat split; try reflexivity.
      * exists [p']. reflexivity.
      * exists []. reflexivity.
      * exists [p']. reflexivity.
      * exists [event c]. reflexivity.
  - pose proof (mix_frames_channel (Z.to_nat (ret / (2 * 2))) (set_playing (Some p') c)
                  sb' mb mixed) as H.
    cbv zeta in H.
    destruct (mix_frames _ (set_playing (Some p') c) sb' mb mixed) as [[c1 mb1] mixed1].
    cbn [fst snd] in *. split; [| apply globals_kept_refl].
    rewrite H. repeat split.
Qed.

Lemma mix_channel_kept (fuel : nat) :
  forall length mixed c sb mb st r,
    mix_channel fuel length mixed c sb mb st = Some r ->
    settings_kept c r.1.1.1.1 /\ globals_kept st r.1.2.
Proof.
  induction fuel as [| fuel IH]; intros length mixed c sb mb st r Hr; cbn [mix_channel] in Hr.
  - destruct (playing c); [destruct (mixed <? length)%nat |];
      try discriminate; injection Hr as <-;
      (split; [apply settings_kept_refl | apply globals_kept_refl]).
  - destruct (playing c) as [p |];
      [destruct (mixed <? length)%nat |];
      try (injection Hr as <-; split; [apply settings_kept_refl | apply globals_kept_refl]).
    pose proof (mix_turn_kept length mixed c p sb mb st) as [Hs Hg]. cbv zeta in Hs, Hg.
    destruct (mix_turn length mixed c p sb mb st) as [[[[c' sb'] mb'] st'] mixed'].
    cbn [fst snd] in *.
    destruct (IH _ _ _ _ _ _ _ Hr) as [Hs' Hg'].
    split; [eapply settings_kept_trans | eapply globals_kept_trans]; eassumption.
Qed.

Lemma mix_channels_kept (length : nat) (cs : list Channel) :
  forall sb mb st r,
    mix_channels length cs sb mb st = Some r ->
    Forall2 settings_kept cs r.1.1.1 /\ globals_kept st r.2.
Proof.
  induction cs as [| c cs IH]; intros sb mb st r Hr; cbn [mix_channels] in Hr.
  - injection Hr as <-. split; [constructor | apply globals_kept_refl].
  - destruct (match playing c with
              | Some _ =>
                  if negb (paused c =? 0) then Some (c, sb, mb, st, O)
                  else mix_channel (length + 3) length 0 c sb mb st
              | None => Some (c, sb, mb, st, O)
              end) as [[[[[c' sb'] mb'] st'] mixed'] |] eqn:Hone; [| discriminate].
    assert (Hc : settings_kept c c' /\ globals_kept st st').
    { destruct (playing c); [destruct (negb (paused c =? 0)) |].
      - injection Hone as <- _ _ <- _. split; [apply settings_kept_refl | apply globals_kept_refl].
      - exact (mix_channel_kept _ _ _ _ _ _ _ _ Hone).
      - injection Hone as <- _ _ <- _. split; [apply settings_kept_refl | apply globals_kept_refl]. }
    destruct (mix_channels length cs sb' mb' st') as [[[[cs' sb''] mb''] st''] |] eqn:Hrest;
      [| discriminate].
    injection Hr as <-. cbn [fst snd].
    destruct (IH _ _ _ _ Hrest) as [Hcs Hg]. cbn [fst snd] in *.
    split; [constructor; [apply Hc | exact Hcs] |].
    eapply globals_kept_trans; [apply Hc | exact Hg].
Qed.

Lemma output_frames_shape (mb : list spec_float) (n : nat) :
  forall k,
    let out := flat_map (fun i => [output_sample (mb !!! (i * 2)%nat);
                                   output_sample (mb !!! (i * 2 + 1)%nat)]) (seq k n) in
    List.length out = (n * 2)%nat
    /\ Forall (fun v => MIN_SHORT <= v <= MAX_SHORT) out.
Proof.
  induction n as [| n IH]; intros k; cbn [seq flat_map].
  - split; [reflexivity | constructor].
  - destruct (IH (S k)) as [Hlen Hall]. cbv zeta. split.
    + cbn [app List.length]. rewrite Hlen. lia.
    + cbn [app]. repeat constructor; try apply clamp_short_range. exact Hall.
Qed.

Lemma output_stream_shape (length : nat) (mb : list spec_float) :
  List.length (output_stream length mb) = (length * 2)%nat
  /\ Forall (fun v => MIN_SHORT <= v <= MAX_SHORT) (output_stream length mb).
Proof. exact (output_frames_shape mb length 0). Qed.

(** X14: the callback always returns; it fills the whole buffer with
    [length / 4] frames of two samples, each within the 16-bit range; it
    closes no decoder and leaves the error code, its message and the device
    settings alone; it only adds to the dying list and to the posted events;
    and it keeps the number of channels and each channel's pause flag, mixer
    volume, event, video flag, pan and secondary volume. *)
Theorem callback_contract (stack : list Z) (length : Z) (st : State) :
  exists st' out,
    callback stack length st = Some (st', out)
    /\ List.length out = (Z.to_nat (Z.quot length 4) * 2)%nat
    /\ Forall (fun v => MIN_SHORT <= v <= MAX_SHORT) out
    /\ globals_kept st st'
    /\ Forall2 settings_kept (channels st) (channels st').
Proof.
  unfold callback.
  destruct (mix_channels (Z.to_nat (Z.quot length 4)) (channels st)
              (resize (Z.to_nat (Z.quot length 4) * 2) 0 stack)
              (replicate (Z.to_nat (Z.quot length 4) * 2) F32.zero) st)
    as [[[[cs sb] mb] st1] |] eqn:Hmix.
  - destruct (mix_channels_kept _ _ _ _ _ _ Hmix) as [Hcs Hg]. cbn [fst snd] in *.
    destruct (output_stream_shape (Z.to_nat (Z.quot length 4)) mb) as [Hlen Hall].
    eexists _, _. split; [reflexivity |].
    split; [exact Hlen |]. split; [exact Hall |].
    split; [| exact Hcs].
    destruct Hg as (H1 & H2 & H3 & H4 & H5 & H6 & H7 & H8).
    repeat split; assumption.
  - destruct (mix_channels_returns (Z.to_nat (Z.quot length 4)) (channels st)
                (resize (Z.to_nat (Z.quot length 4) * 2) 0 stack)
                (replicate (Z.to_nat (Z.quot length 4) * 2) F32.zero) st) as [r Hr].
    congruence.
Qed.

(** ** Silence *)

Lemma mix_channels_idle (length : nat) (cs : list Channel) :
  forall sb mb st,
    Forall (fun c => idle c = true) cs ->
    mix_channels length cs sb mb st = Some (cs, sb, mb, st).
Proof.
  induction cs as [| c cs IH]; intros sb mb st Hidle; cbn [mix_channels]; [reflexivity |].
  apply Forall_cons in Hidle as [Hc Hcs]. unfold idle in Hc.
  destruct (playing c); [rewrite Hc |]; now rewrite (IH _ _ _ Hcs).
Qed.

Lemma silent_frames (n N : nat) :
  forall k, (k + n <= N)%nat ->
    flat_map (fun i => [output_sample (replicate (N * 2) F32.zero !!! (i * 2)%nat);
                        output_sample (replicate (N * 2) F32.zero !!! (i * 2 + 1)%nat)])
             (seq k n)
    = replicate (n * 2) 0.
Proof.
  induction n as [| n IH]; intros k Hk; cbn [seq flat_map]; [reflexivity |].
  rewrite IH by lia.
  rewrite !lookup_total_replicate_2 by lia.
  reflexivity.
Qed.

(** X15: channels with nothing playing and paused channels are passed over.
    When every channel is one or the other, the callback changes nothing in
    the state, reads no decoder, and writes silence: [length / 4] frames of
    zeros. *)
Theorem callback_silence (stack : list Z) (length : Z) (st : State) :
  Forall (fun c => idle c = true) (channels st) ->
  callback stack length st = Some (st, replicate (Z.to_nat (Z.quot length 4) * 2) 0).
Proof.
  intros Hidle. unfold callback.
  rewrite (mix_channels_idle _ _ _ _ _ Hidle).
  unfold output_stream. rewrite (silent_frames _ _ 0) by lia.
  destruct st; reflexivity.
Qed.

Lemma callback_silence_witness :
  callback [5; 5; 5; 5] 8 (RPS_pause 0 1 st_playing)
  = Some (RPS_pause 0 1 st_playing, [0; 0; 0; 0]).
Proof.
  refine (callback_silence [5; 5; 5; 5] 8 (RPS_pause 0 1 st_playing) _).
  vm_compute. constructor; [reflexivity | constructor].
Defined.

(** ** Counting frames *)

(** X16: the inner loop counts as it mixes.  Mixing [n] frames advances
    [mixed] by [n] and the position by [n] (as long as it fits an [int]); a
    scheduled stop counts down by [n] and the loop stops when it reaches
    zero, so it never mixes more than [stop_samples] frames; an unscheduled
    stop (a negative counter) stays as it is. *)
Theorem mix_frames_counts (read_length : nat) :
  forall (c : Channel) (stream_buffer : list Z) (mix_buffer : list spec_float) (mixed : nat),
    INT_MIN <= pos c -> pos c + Z.of_nat read_length <= INT_MAX ->
    let n := frames_to_mix read_length c in
    let '(c', _, mixed') := mix_frames read_length c stream_buffer mix_buffer mixed in
    mixed' = (mixed + n)%nat
    /\ pos c' = pos c + Z.of_nat n
    /\ stop_samples c' =
         (if 0 <? stop_samples c then stop_samples c - Z.of_nat n else stop_samples c)
    /\ (0 <= stop_samples c -> Z.of_nat n <= stop_samples c)
    /\ ((n < read_length)%nat -> stop_samples c' = 0).
Proof.
  induction read_length as [| k IH]; intros c sb mb mixed Hlo Hhi.
  - cbn [mix_frames]. unfold frames_to_mix.
    destruct (Z.ltb_spec (stop_samples c) 0); destruct (Z.ltb_spec 0 (stop_samples c));
      cbn; repeat split; lia.
  - destruct (Z.eq_dec (stop_samples c) 0) as [H0 | Hne].
    + rewrite frames_to_mix_stopped by assumption.
      cbn [mix_frames]. rewrite H0. cbn. repeat split; lia.
    + rewrite mix_frames_step, frames_to_mix_step by assumption.
      set (c1 := set_pos (wrap_int (pos c + 1))
                   (if 0 <? stop_samples c then set_stop_samples (stop_samples c - 1) c else c)).
      assert (Hpos1 : pos c1 = pos c + 1).
      { unfold c1. cbn. apply wrap_int_id. unfold INT_MIN, INT_MAX in *. lia. }
      assert (Hstop1 : stop_samples c1 =
                if 0 <? stop_samples c then stop_samples c - 1 else stop_samples c).
      { unfold c1. destruct (0 <? stop_samples c); reflexivity. }
      specialize (IH c1 sb
                    (<[(mixed * 2 + 1)%nat := F32.add (mb !!! (mixed * 2 + 1)%nat)
                                                (sample_to_float (sb !!! (mixed * 2 + 1)%nat))]>
                       (<[(mixed * 2)%nat := F32.add (mb !!! (mixed * 2)%nat)
                                               (sample_to_float (sb !!! (mixed * 2)%nat))]> mb))
                    (S mixed)).
      cbv zeta in IH.
      destruct (mix_frames k c1 sb _ (S mixed)) as [[c' mb'] mixed'].
      destruct IH as (Hm & Hp & Hs & Hle & Hend); [lia | lia |].
      rewrite Hpos1, Hstop1 in *.
      destruct (Z.ltb_spec 0 (stop_samples c)) as [Hpos | Hneg].
      * destruct (Z.ltb_spec 0 (stop_samples c - 1)); repeat split; lia.
      * destruct (Z.ltb_spec 0 (stop_samples c)); [lia |].
        repeat split; lia.
Qed.

Lemma mix_frames_counts_witness :
  (mix_frames 3 (set_stop_samples 2 (channel_at st_playing 0)) [1; 2; 3; 4; 5; 6]
     (replicate 6 F32.zero) 0).2 = 2%nat.
Proof.
  pose proof (mix_frames_counts 3 (set_stop_samples 2 (channel_at st_playing 0))
                [1; 2; 3; 4; 5; 6] (replicate 6 F32.zero) 0
                ltac:(vm_compute; discriminate) ltac:(vm_compute; discriminate)) as H.
  cbv zeta in H.
  destruct (mix_frames 3 (set_stop_samples 2 (channel_at st_playing 0)) [1; 2; 3; 4; 5; 6]
              (replicate 6 F32.zero) 0) as [[c' mb'] mixed'].
  exact (proj1 H).
Defined.

(** ** Milliseconds and samples *)

(** X17: converting a time to samples and back.  For a sample rate of at
    least 1000 Hz and a non-negative time whose sample count fits an [int],
    [ms_to_samples] is the exact product divided by 1000 rounded down, not
    negative, and [samples_to_ms] of the result gives the time back or one
    millisecond less. *)
Theorem ms_samples_round_trip (st : State) (ms : Z) :
  1000 <= audio_spec_freq st -> 0 <= ms ->
  ms * audio_spec_freq st / 1000 <= INT_MAX ->
  ms_to_samples st ms = ms * audio_spec_freq st / 1000
  /\ 0 <= ms_to_samples st ms
  /\ ms - 1 <= samples_to_ms st (ms_to_samples st ms) <= ms.
Proof.
  intros Hf Hms Hfit.
  set (f := audio_spec_freq st) in *.
  assert (Hs : ms_to_samples st ms = ms * f / 1000).
  { unfold ms_to_samples. fold f.
    rewrite Z.quot_div_nonneg by nia.
    apply wrap_int_id. split; [| exact Hfit].
    unfold INT_MIN. assert (0 <= ms * f / 1000) by (apply Z.div_pos; nia). lia. }
  rewrite Hs.
  set (s := ms * f / 1000) in *.
  assert (Hs0 : 0 <= s) by (apply Z.div_pos; nia).
  assert (Hs1 : s * 1000 <= ms * f).
  { unfold s. rewrite Z.mul_comm. apply Z.mul_div_le. lia. }
  assert (Hs2 : ms * f < (s + 1) * 1000).
  { unfold s. pose proof (Z.mod_pos_bound (ms * f) 1000 ltac:(lia)).
    pose proof (Z.div_mod (ms * f) 1000 ltac:(lia)). lia. }
  assert (Hback : samples_to_ms st s = s * 1000 / f).
  { unfold samples_to_ms. fold f.
    rewrite Z.quot_div_nonneg by nia.
    apply wrap_int_id.
    assert (0 <= s * 1000 / f) by (apply Z.div_pos; nia).
    assert (s * 1000 / f <= ms) by (apply Z.div_le_upper_bound; nia).
    assert (ms <= INT_MAX).
    { apply Z.le_trans with s; [| exact Hfit].
      unfold s. apply Z.div_le_lower_bound; nia. }
    unfold INT_MIN, INT_MAX in *. lia. }
  rewrite Hback.
  split; [reflexivity |]. split; [exact Hs0 |].
  split.
  - apply Z.div_le_lower_bound; nia.
  - apply Z.div_le_upper_bound; nia.
Qed.

Lemma ms_samples_round_trip_witness :
  ms_to_samples st_init 1 = 1 * audio_spec_freq st_init / 1000
  /\ samples_to_ms st_init (ms_to_samples st_init 1) = 0.
Proof.
  split.
  - refine (proj1 (ms_samples_round_trip st_init 1 _ _ _)); vm_compute; discriminate.
  - reflexivity.
Defined.

(** ** Starting paused streams together *)

(** X18: [RPS_unpause_all_at_start] clears the pause flag of exactly the
    channels that hold a playing stream at position 0 and changes nothing
    else in any channel: a channel paused in mid-stream and an empty channel
    keep their flag.  A stream just started with [RPS_play], whatever pause
    flag it was given, is therefore unpaused by it. *)
Theorem RPS_unpause_all_at_start_effect (st : State) :
  let st' := RPS_unpause_all_at_start st in
  num_channels st' = num_channels st
  /\ RPS_error st' = SUCCESS
  /\ (forall i, 0 <= i < num_channels st ->
        let c := channel_at st i in
        channel_at st' i =
          set_paused (match playing c with
                      | Some _ => if pos c =? 0 then 0 else paused c
                      | None => paused c
                      end) c)
  /\ (forall channel m name fadein tight paused_ start end_ relative_volume,
        usable channel st ->
        paused (channel_at
                  (RPS_unpause_all_at_start
                     (RPS_play channel (Some m) name fadein tight paused_ start end_
                        relative_volume st)) channel) = 0).
Proof.
  assert (Hat : forall s i, 0 <= i < num_channels s ->
            channel_at (RPS_unpause_all_at_start s) i =
              set_paused (match playing (channel_at s i) with
                          | Some _ => if pos (channel_at s i) =? 0 then 0
                                      else paused (channel_at s i)
                          | None => paused (channel_at s i)
                          end) (channel_at s i)).
  { intros s i Hi. unfold RPS_unpause_all_at_start, channel_at, num_channels in *. cbn.
    rewrite !list_lookup_total_alt, list_lookup_fmap.
    destruct (lookup_lt_is_Some_2 (channels s) (Z.to_nat i) ltac:(lia)) as [c Hc].
    rewrite Hc. cbn.
    destruct (playing c); [destruct (pos c =? 0) |]; destruct c; reflexivity. }
  cbv zeta. split.
  { unfold RPS_unpause_all_at_start, num_channels. cbn. now rewrite length_fmap. }
  split; [reflexivity |].
  split; [intros i Hi; now apply Hat |].
  intros channel m name fadein tight paused_ start end_ relative_volume Hok.
  destruct (RPS_play_opened channel m name fadein tight paused_ start end_ relative_volume
              st Hok)
    as (cf & stf & Hst' & Hch & Hp1 & _ & _ & _ & _ & _ & _ & _ & Hpo & _).
  rewrite Hst'.
  pose proof (grow_in_range channel st (proj1 Hok)) as Hin.
  rewrite Hat by (rewrite (num_channels_logged _ _ _ _ _ Hch); exact Hin).
  rewrite (channel_at_logged _ _ _ _ _ Hch Hin).
  rewrite Hp1, Hpo. reflexivity.
Qed.

(** ** Opening and closing the device *)

(** X19: [RPS_init].  On an initialized system it does nothing at all, not
    even to the error code.  Otherwise it never touches the channels; a
    failure of [SDL_Init] gives [SDL_ERROR] and changes nothing else; a
    failure of [SDL_OpenAudio] gives [SDL_ERROR] and leaves the system
    uninitialized but has already stored the requested sample rate; success
    stores the rate, marks the system initialized and gives [SUCCESS]. *)
Theorem RPS_init_effect
    (freq stereo samples status equal_mono sdl_init open_audio : Z) (st : State) :
  let st' := RPS_init freq stereo samples status equal_mono sdl_init open_audio st in
  channels st' = channels st /\ dying st' = dying st /\ closed st' = closed st
  /\ (initialized st <> 0 -> st' = st)
  /\ (initialized st = 0 -> sdl_init <> 0 -> st' = error SDL_ERROR st)
  /\ (initialized st = 0 -> sdl_init = 0 -> open_audio <> 0 ->
      RPS_error st' = SDL_ERROR /\ initialized st' = 0 /\ audio_spec_freq st' = freq)
  /\ (initialized st = 0 -> sdl_init = 0 -> open_audio = 0 ->
      RPS_error st' = SUCCESS /\ initialized st' = 1 /\ audio_spec_freq st' = freq).
Proof.
  cbv zeta. unfold RPS_init.
  destruct (Z.eqb_spec (initialized st) 0) as [Hi | Hi];
    destruct (Z.eqb_spec sdl_init 0) as [Hs | Hs];
    destruct (Z.eqb_spec open_audio 0) as [Ho | Ho];
    cbn [negb]; repeat split; intros; repeat split; chan_simpl;
    first [reflexivity | congruence | exfalso; congruence].
Qed.

(** Stopping the channels of a list one after the other. *)
Lemma stop_all (l : list nat) :
  forall st,
    (forall i, i ∈ l -> (i < length (channels st))%nat) ->
    let st' := fold_left (fun st i => RPS_stop (Z.of_nat i) st) l st in
    length (channels st') = length (channels st)
    /\ dying st' = dying st
    /\ (forall m, m ∈ closed st -> m ∈ closed st')
    /\ (forall i m, i ∈ l -> m ∈ streams (channel_at st (Z.of_nat i)) -> m ∈ closed st').
Proof.
  induction l as [| a l IH]; intros st Hl; cbn [fold_left].
  - repeat split; auto. intros i m Hi. inversion Hi.
  - assert (Ha : (a < length (channels st))%nat) by (apply Hl; left).
    assert (Hok : usable (Z.of_nat a) st)
      by (split; [lia | left; unfold num_channels; lia]).
    assert (Hgrow : grow (Z.of_nat a) st = st).
    { unfold grow, num_channels.
      destruct (Z.leb_spec (Z.of_nat (length (channels st))) (Z.of_nat a)); [lia | reflexivity]. }
    destruct (RPS_stop_stored (Z.of_nat a) st Hok)
      as (cf & stf & Hst1 & Hch & _ & _ & _ & Hclosed & _ & Hdying & _).
    rewrite Hgrow in *.
    set (st1 := RPS_stop (Z.of_nat a) st) in *.
    assert (Hlen1 : length (channels st1) = length (channels st)).
    { rewrite Hst1. cbn. now rewrite length_insert, Hch. }
    destruct (IH st1) as (Hlen & Hdy & Hmono & Hall).
    { intros i Hi. rewrite Hlen1. apply Hl. now right. }
    cbv zeta.
    assert (Hcl1 : closed st1 = rev (streams (channel_at st (Z.of_nat a))) ++ closed st)
      by (rewrite Hst1; exact Hclosed).
    split; [congruence |].
    split; [rewrite Hdy, Hst1; exact Hdying |].
    split.
    { intros m Hm. apply Hmono. rewrite Hcl1. apply elem_of_app. now right. }
    intros i m Hi Hm.
    destruct (decide (i = a)) as [-> | Hne].
    + apply Hmono. rewrite Hcl1. apply elem_of_app. left.
      now rewrite list_elem_of_In, <- in_rev, <- list_elem_of_In.
    + apply elem_of_cons in Hi as [-> | Hi]; [congruence |].
      apply (Hall i m Hi).
      rewrite Hst1.
      assert (Hsame : channel_at (error SUCCESS (store_channel (Z.of_nat a) cf stf)) (Z.of_nat i)
                      = channel_at st (Z.of_nat i)).
      { rewrite channel_at_store_other by lia.
        unfold channel_at. now rewrite Hch. }
      now rewrite Hsame.
Qed.

(** X20: [RPS_quit].  On a system that is not initialized it does nothing,
    whatever the channels hold.  On an initialized one it closes every
    decoder held by every channel, empties the table, clears the initialized
    flag and gives [SUCCESS]; what was closed before stays closed; the dying
    list is not reaped: decoders retired by the callback are still waiting
    for [RPS_periodic]. *)
Theorem RPS_quit_effect (st : State) :
  let st' := RPS_quit st in
  (initialized st = 0 -> st' = st)
  /\ (initialized st <> 0 ->
      channels st' = [] /\ initialized st' = 0 /\ RPS_error st' = SUCCESS
      /\ dying st' = dying st
      /\ (forall m, m ∈ closed st -> m ∈ closed st')
      /\ (forall c m, c ∈ channels st -> m ∈ streams c -> m ∈ closed st')).
Proof.
  cbv zeta. unfold RPS_quit.
  destruct (Z.eqb_spec (initialized st) 0) as [Hi | Hi].
  - split; [reflexivity | congruence].
  - split; [congruence |]. intros _.
    destruct (stop_all (seq 0 (length (channels st))) st) as (Hlen & Hdy & Hmono & Hall).
    { intros i Hi'. apply elem_of_seq in Hi'. lia. }
    chan_simpl.
    repeat split; try assumption.
    intros c m Hc Hm.
    apply list_elem_of_lookup in Hc as [i Hc].
    apply (Hall i m).
    + apply elem_of_seq. pose proof (lookup_lt_Some _ _ _ Hc). lia.
    + unfold channel_at. rewrite Nat2Z.id, list_lookup_total_alt, Hc. exact Hm.
Qed.

(** ** A stop that is due *)

Lemma mix_turn_stopped (length mixed : nat) (c : Channel) (p : MediaState)
    (sb : list Z) (mb : list spec_float) (st : State) :
  stop_samples c = 0 ->
  let r := media_read_audio p sb (Z.of_nat (length - mixed) * 2 * 2) in
  mix_turn length mixed c p sb mb st =
    (promoted st c, r.1.2, mb,
     set_dying (r.2 :: dying (post_event c st)) (post_event c st), mixed).
Proof.
  intros H0. unfold mix_turn.
  destruct (media_read_audio p sb (Z.of_nat (length - mixed) * 2 * 2)) as [[ret sb'] p'].
  cbn [stop_samples set_playing fst snd]. rewrite H0. cbn [Z.eqb orb].
  rewrite end_of_stream_promoted.
  unfold promoted, post_event. cbn. reflexivity.
Qed.

Lemma media_read_audio_id (p : MediaState) (sb : list Z) (len : Z) :
  ms_id (media_read_audio p sb len).2 = ms_id p.
Proof. unfold media_read_audio. destruct (ms_chunks p); reflexivity. Qed.

(** X21: a stop that is due ([stop_samples = 0], as [RPS_fadeout] with
    [ms = 0] or a finished fade-out leaves it) retires the playing stream in
    the callback without mixing one frame of it.  When nothing is queued, or
    when the playing stream is tight and the queued one has no fade-in (so
    that the promotion keeps the stop counter at zero), the channel ends up
    with both slots empty: the queued stream is retired in the same callback,
    unheard.  Each retired decoder is on the dying list, the end event is
    posted once per retired stream, and the mix buffer is untouched. *)
Theorem due_stop_retires_unheard
    (length : nat) (c : Channel) (p : MediaState)
    (stream_buffer : list Z) (mix_buffer : list spec_float) (st : State) :
  playing c = Some p -> stop_samples c = 0 -> (0 < length)%nat ->
  queued c = None \/ (playing_tight c <> 0 /\ queued_fadein c = 0) ->
  exists c' stream_buffer' st',
    mix_channel (length + 3) length 0 c stream_buffer mix_buffer st
      = Some (c', stream_buffer', mix_buffer, st', O)
    /\ playing c' = None /\ queued c' = None
    /\ map ms_id (dying st') = rev (map ms_id (streams c)) ++ map ms_id (dying st)
    /\ events st' = (if event c =? 0 then []
                     else replicate (slots c) (event c)) ++ events st
    /\ closed st' = closed st.
Proof.
  intros Hp H0 Hlen Hcase.
  replace (length + 3)%nat with (S (S (length + 1))) by lia.
  cbn [mix_channel]. rewrite Hp.
  destruct (Nat.ltb_spec 0 length) as [_ | ?]; [| lia].
  rewrite (mix_turn_stopped length 0 c p stream_buffer mix_buffer st H0).
  set (r1 := media_read_audio p stream_buffer (Z.of_nat (length - 0) * 2 * 2)).
  set (st1 := set_dying (r1.2 :: dying (post_event c st)) (post_event c st)).
  assert (Hid1 : ms_id r1.2 = ms_id p) by apply media_read_audio_id.
  unfold slots, streams. rewrite Hp.
  destruct (queued c) as [q |] eqn:Hq.
  - destruct Hcase as [? | [Htight Hfade]]; [discriminate |].
    assert (H0' : stop_samples (promoted st c) = 0).
    { unfold promoted. cbn. rewrite Hfade.
      destruct (Z.eqb_spec (playing_tight c) 0); [contradiction | exact H0]. }
    assert (Hp' : playing (promoted st c) = Some q) by (unfold promoted; cbn; exact Hq).
    rewrite Hp'.
    destruct (Nat.ltb_spec 0 length) as [_ | ?]; [| lia].
    rewrite (mix_turn_stopped length 0 (promoted st c) q r1.1.2 mix_buffer st1 H0').
    set (r2 := media_read_audio q r1.1.2 (Z.of_nat (length - 0) * 2 * 2)).
    assert (Hid2 : ms_id r2.2 = ms_id q) by apply media_read_audio_id.
    assert (Hend : playing (promoted st1 (promoted st c)) = None) by reflexivity.
    destruct length as [| n]; [lia |].
    cbn [Nat.add mix_channel]. rewrite Hend.
    eexists _, _, _. split; [reflexivity |].
    split; [reflexivity |]. split; [reflexivity |].
    unfold st1, post_event.
    change (event (promoted st c)) with (event c).
    destruct (event c =? 0); cbn; rewrite Hid1, Hid2; repeat split; reflexivity.
  - assert (Hend : playing (promoted st c) = None) by (unfold promoted; cbn; exact Hq).
    rewrite Hend.
    eexists _, _, _. split; [reflexivity |].
    split; [exact Hend |]. split; [reflexivity |].
    unfold st1, post_event.
    destruct (event c =? 0); cbn; rewrite Hid1; repeat split; reflexivity.
Qed.

Lemma due_stop_retires_unheard_witness :
  exists c' sb' st',
    mix_channel (2 + 3) 2 0 (channel_at st_stop_now 0) [0; 0; 0; 0]
      (replicate 4 F32.zero) st_stop_now
      = Some (c', sb', replicate 4 F32.zero, st', O)
    /\ playing c' = None /\ queued c' = None.
Proof.
  assert (Hp : playing (channel_at st_stop_now 0) = Some stream_a)
    by (vm_compute; reflexivity).
  assert (H0 : stop_samples (channel_at st_stop_now 0) = 0)
    by (vm_compute; reflexivity).
  assert (Ht : playing_tight (channel_at st_stop_now 0) <> 0)
    by (vm_compute; discriminate).
  assert (Hf : queued_fadein (channel_at st_stop_now 0) = 0)
    by (vm_compute; reflexivity).
  destruct (due_stop_retires_unheard 2 (channel_at st_stop_now 0) stream_a [0; 0; 0; 0]
              (replicate 4 F32.zero) st_stop_now Hp H0 ltac:(lia)
              (or_intror (conj Ht Hf)))
    as (c' & sb' & st' & H & Hp' & Hq' & _).
  exists c', sb', st'. repeat split; assumption.
Defined.

(** ** One stream heard alone *)

Lemma lone_sample_table : all_bits 16 passes_through 0 = true.
Proof. vm_compute. reflexivity. Qed.

Lemma output_of_lone_sample (s : Z) :
  MIN_SHORT <= s <= MAX_SHORT ->
  output_sample (F32.add F32.zero (sample_to_float s)) = s - Z.sgn s.
Proof.
  intros Hs. unfold MIN_SHORT, MAX_SHORT in Hs.
  pose proof (all_bits_spec 16 passes_through 0 lone_sample_table (s + 32768)) as H.
  unfold passes_through in H. change MIN_SHORT with (-32768) in H.
  replace (s + 32768 + -32768) with s in H by lia.
  apply Z.eqb_eq, H. change (2 ^ Z.of_nat 16) with 65536. lia.
Qed.

Lemma output_of_frames (fs : list frame) (mb : list spec_float) :
  (forall i f, fs !! i = Some f ->
     mb !!! (i * 2)%nat = F32.add F32.zero (sample_to_float f.1)
     /\ mb !!! (i * 2 + 1)%nat = F32.add F32.zero (sample_to_float f.2)) ->
  Forall (fun f : frame => MIN_SHORT <= f.1 <= MAX_SHORT /\ MIN_SHORT <= f.2 <= MAX_SHORT) fs ->
  output_stream (length fs) mb
  = flat_map (fun f : frame => [f.1 - Z.sgn f.1; f.2 - Z.sgn f.2]) fs.
Proof.
  intros Hmb Hshort. unfold output_stream.
  enough (H : forall n k, (k + n = length fs)%nat ->
            flat_map (fun i => [output_sample (mb !!! (i * 2)%nat);
                                output_sample (mb !!! (i * 2 + 1)%nat)]) (seq k n)
            = flat_map (fun f : frame => [f.1 - Z.sgn f.1; f.2 - Z.sgn f.2]) (drop k fs)).
  { rewrite (H (length fs) O) by lia. reflexivity. }
  induction n as [| n IH]; intros k Hk.
  - rewrite drop_ge by lia. reflexivity.
  - destruct (lookup_lt_is_Some_2 fs k ltac:(lia)) as [f Hf].
    rewrite (drop_S _ _ _ Hf). cbn [seq flat_map app].
    destruct (Hmb k f Hf) as [Hl Hr]. rewrite Hl, Hr.
    rewrite Forall_lookup in Hshort. destruct (Hshort k f Hf) as [H1 H2].
    rewrite !output_of_lone_sample by assumption.
    rewrite (IH (S k)) by lia. reflexivity.
Qed.

Lemma mix_channels_idle_prefix (length : nat) (before cs : list Channel) :
  forall sb mb st,
    Forall (fun c => idle c = true) before ->
    mix_channels length (before ++ cs) sb mb st
    = match mix_channels length cs sb mb st with
      | Some (cs', sb', mb', st') => Some (before ++ cs', sb', mb', st')
      | None => None
      end.
Proof.
  induction before as [| b before IH]; intros sb mb st Hidle.
  - cbn [app]. destruct (mix_channels length cs sb mb st) as [[[[? ?] ?] ?] |]; reflexivity.
  - apply Forall_cons in Hidle as [Hb Hbefore]. unfold idle in Hb.
    cbn [app mix_channels].
    destruct (playing b); [rewrite Hb |]; rewrite (IH _ _ _ Hbefore);
      destruct (mix_channels length cs sb mb st) as [[[[? ?] ?] ?] |]; reflexivity.
Qed.

(** One read that fills the request: the loop takes one turn. *)
Lemma mix_channel_one_read (N : nat) (c : Channel) (p : MediaState)
    (chunk : list frame) (rest : list (list frame))
    (sb : list Z) (mb : list spec_float) (st : State) :
  playing c = Some p -> stop_samples c < 0 ->
  ms_chunks p = chunk :: rest -> (0 < N <= length chunk)%nat ->
  let p' := {| ms_id := ms_id p;
               ms_chunks := match drop N chunk with [] => rest | _ => drop N chunk :: rest end |} in
  let sb' := write_frames (take N chunk) sb in
  let r := mix_frames N (set_playing (Some p') c) sb' mb 0 in
  mix_channel (N + 3) N 0 c sb mb st = Some (r.1.1, sb', r.1.2, st, N).
Proof.
  intros Hp Hstop Hchunks HN p' sb' r.
  replace (N + 3)%nat with (S (S (N + 1))) by lia.
  cbn [mix_channel]. rewrite Hp.
  destruct (Nat.ltb_spec 0 N) as [_ | ?]; [| lia].
  unfold mix_turn, media_read_audio. rewrite Hchunks.
  replace (Z.to_nat (Z.of_nat (N - 0) * 2 * 2 / 4)) with N
    by (rewrite Nat.sub_0_r, <- Z.mul_assoc; change (2 * 2) with 4;
        rewrite Z.div_mul by lia; lia).
  rewrite length_take, Nat.min_l by lia.
  replace (Z.to_nat (4 * Z.of_nat N / (2 * 2))) with N
    by (change (2 * 2) with 4; rewrite Z.mul_comm, Z.div_mul by lia; lia).
  fold p'. fold sb'.
  replace (stop_samples (set_playing (Some p') c) =? 0) with false
    by (symmetry; apply Z.eqb_neq; cbn [stop_samples set_playing]; lia).
  replace (N =? 0)%nat with false by (symmetry; apply Nat.eqb_neq; lia).
  cbn [orb]. fold r.
  pose proof (mix_frames_mixed N (set_playing (Some p') c) sb' mb 0) as Hmixed.
  pose proof (mix_frames_slots N (set_playing (Some p') c) sb' mb 0) as [Hplaying _].
  fold r in Hmixed, Hplaying.
  assert (Hall : frames_to_mix N (set_playing (Some p') c) = N).
  { unfold frames_to_mix. cbn [stop_samples set_playing].
    destruct (Z.ltb_spec (stop_samples c) 0); [reflexivity | lia]. }
  rewrite Hall in Hmixed. cbn [Nat.add] in Hmixed.
  destruct r as [[c1 mb1] mixed1]. cbn [fst snd] in *. subst mixed1.
  cbn [mix_channel]. rewrite Hplaying. cbn [playing set_playing].
  rewrite Nat.ltb_irrefl. reflexivity.
Qed.

(** X22: a stream heard alone.  When one channel plays (not paused, no stop
    pending), the others are idle, and its decoder delivers the [N] requested
    frames in one read, the callback writes, for each delivered sample [s],
    the value [s - sgn s]: the sample one step closer to zero (the in-scale
    is 32768 and the out-scale 32767, and the conversion to [int]
    truncates).  The decoder is advanced by [N] frames and stays on the
    channel; nothing is retired and no event is posted. *)
Theorem lone_stream_output
    (stack : list Z) (N : nat) (before after : list Channel) (c : Channel)
    (p : MediaState) (chunk : list frame) (rest : list (list frame)) (st : State) :
  channels st = before ++ c :: after ->
  Forall (fun c => idle c = true) before ->
  Forall (fun c => idle c = true) after ->
  playing c = Some p -> paused c = 0 -> stop_samples c < 0 ->
  ms_chunks p = chunk :: rest -> (0 < N <= length chunk)%nat ->
  Forall (fun f : frame => MIN_SHORT <= f.1 <= MAX_SHORT /\ MIN_SHORT <= f.2 <= MAX_SHORT)
         chunk ->
  exists st' c',
    callback stack (4 * Z.of_nat N) st
      = Some (st', flat_map (fun f : frame => [f.1 - Z.sgn f.1; f.2 - Z.sgn f.2])
                            (take N chunk))
    /\ channels st' = before ++ c' :: after
    /\ playing c' = Some {| ms_id := ms_id p;
                            ms_chunks := match drop N chunk with
                                         | [] => rest
                                         | _ => drop N chunk :: rest
                                         end |}
    /\ dying st' = dying st /\ events st' = events st.
Proof.
  intros Hcs Hbefore Hafter Hp Hpaused Hstop Hchunks HN Hshort.
  unfold callback.
  replace (Z.to_nat (Z.quot (4 * Z.of_nat N) 4)) with N
    by (rewrite Z.mul_comm, Z.quot_mul by lia; lia).
  rewrite Hcs, (mix_channels_idle_prefix _ _ _ _ _ _ Hbefore).
  cbn [mix_channels]. rewrite Hp, Hpaused. cbn [Z.eqb negb].
  rewrite (mix_channel_one_read N c p chunk rest _ _ st Hp Hstop Hchunks HN).
  rewrite (mix_channels_idle _ _ _ _ _ Hafter).
  set (p' := {| ms_id := ms_id p;
                ms_chunks := match drop N chunk with [] => rest | _ => drop N chunk :: rest end |}).
  set (sb := resize (N * 2) 0 stack).
  set (sb' := write_frames (take N chunk) sb).
  set (mb := replicate (N * 2) F32.zero).
  set (c0 := set_playing (Some p') c).
  pose proof (mix_frames_slots N c0 sb' mb 0) as [Hplaying _].
  assert (Hall : frames_to_mix N c0 = N).
  { unfold frames_to_mix, c0. cbn [stop_samples set_playing].
    destruct (Z.ltb_spec (stop_samples c) 0); [reflexivity | lia]. }
  assert (Hout : output_stream (length (take N chunk)) (mix_frames N c0 sb' mb 0).1.2
                 = flat_map (fun f : frame => [f.1 - Z.sgn f.1; f.2 - Z.sgn f.2])
                            (take N chunk)).
  { apply output_of_frames; [| apply Forall_take, Hshort].
    intros i f Hf.
    assert (Hi : (i < N)%nat).
    { apply lookup_lt_Some in Hf. rewrite length_take in Hf. lia. }
    assert (Hlen : length sb = (N * 2)%nat) by apply length_resize.
    destruct (mix_frames_accumulates N c0 sb' mb 0 i) as [Hl Hr];
      [lia | unfold mb; rewrite length_replicate; lia |].
    cbn [Nat.add] in Hl, Hr.
    destruct (write_frames_frame (take N chunk) sb i ltac:(lia)) as [Wl Wr].
    rewrite length_take, Nat.min_l in Wl, Wr by lia.
    destruct (Nat.ltb_spec i N) as [_ | ?]; [| lia].
    rewrite Hf in Wl, Wr. cbn [fmap option_fmap option_map] in Wl, Wr.
    fold sb' in Wl, Wr.
    rewrite (list_lookup_total_correct _ _ _ Wl) in Hl.
    rewrite (list_lookup_total_correct _ _ _ Wr) in Hr.
    unfold mb in Hl at 2. unfold mb in Hr at 2.
    rewrite lookup_total_replicate_2 in Hl, Hr by lia.
    split; apply list_lookup_total_correct; assumption. }
  rewrite length_take, Nat.min_l in Hout by lia.
  destruct (mix_frames N c0 sb' mb 0) as [[c1 mb1] mixed1]. cbn [fst snd] in *.
  exists (set_channels (before ++ c1 :: after) st), c1.
  rewrite Hout. repeat split; try reflexivity. exact Hplaying.
Qed.

Lemma lone_stream_output_witness :
  exists st', callback [] (4 * Z.of_nat 1) st_full_scale = Some (st', [-32767; 32766]).
Proof.
  assert (Hcs : channels st_full_scale
                = [] ++ channel_at st_full_scale 0 :: drop 1 (channels st_full_scale))
    by (vm_compute; reflexivity).
  assert (Hafter : Forall (fun c => idle c = true) (drop 1 (channels st_full_scale)))
    by (vm_compute; repeat constructor).
  assert (Hp : playing (channel_at st_full_scale 0) = Some stream_full_scale)
    by (vm_compute; reflexivity).
  assert (Hpaused : paused (channel_at st_full_scale 0) = 0) by (vm_compute; reflexivity).
  assert (Hstop : stop_samples (channel_at st_full_scale 0) < 0) by (vm_compute; reflexivity).
  assert (Hchunks : ms_chunks stream_full_scale = [(-32768, 32767)] :: [])
    by (vm_compute; reflexivity).
  assert (Hshort : Forall (fun f : frame => MIN_SHORT <= f.1 <= MAX_SHORT
                                            /\ MIN_SHORT <= f.2 <= MAX_SHORT)
                          [(-32768, 32767)])
    by (repeat constructor; vm_compute; discriminate).
  destruct (lone_stream_output [] 1 [] (drop 1 (channels st_full_scale))
              (channel_at st_full_scale 0) stream_full_scale [(-32768, 32767)] []
              st_full_scale Hcs (Forall_nil_2 _) Hafter Hp Hpaused Hstop Hchunks
              ltac:(cbn; lia) Hshort)
    as (st' & c' & H & _).
  exists st'. exact H.
Defined.

(** ** Pan, secondary volume, end event *)

Lemma ramp_from_current (i : Interpolate) (target : spec_float) (duration : N) :
  let '(value, i') := get_interpolate i in
  set_i_duration duration (set_i_done 0 (set_i_end target (set_i_start value i')))
  = {| i_done := 0; i_duration := duration;
       i_start := (get_interpolate i).1; i_end := target |}.
Proof.
  pose proof (get_interpolate_keeps i) as Hkeep.
  destruct (get_interpolate i) as [value i']. reflexivity.
Qed.

Lemma ramp_without_delay (i : Interpolate) :
  i_duration i = 0%N -> (get_interpolate i).1 = i_end i.
Proof.
  intros H. unfold get_interpolate. rewrite H.
  destruct (N.leb_spec 0 (i_done i)); [reflexivity | lia].
Qed.

(** X23: [RPS_set_pan] starts a ramp from the pan in effect.  On an accepted
    channel the new interpolator starts at the value [get_interpolate] gave
    for the old one, ends at the pan asked for, counts from 0 and lasts
    [ms_to_samples(delay * 1000)] samples; when that is 0 the pan asked for
    is in effect at once.  Everything else on the channel and every other
    channel is as before; the error is [SUCCESS]. *)
Theorem RPS_set_pan_effect (channel : Z) (pan_ delay : spec_float) (st : State) :
  usable channel st ->
  let c := channel_at (grow channel st) channel in
  let st' := RPS_set_pan channel pan_ delay st in
  let c' := channel_at st' channel in
  pan c' = {| i_done := 0;
              i_duration := to_unsigned (ms_to_samples st
                              (int_of_float (F32.mul delay (F32.of_Z 1000))));
              i_start := (get_interpolate (pan c)).1; i_end := pan_ |}
  /\ c' = set_pan (pan c') c
  /\ (i_duration (pan c') = 0%N -> (get_interpolate (pan c')).1 = pan_)
  /\ RPS_error st' = SUCCESS
  /\ closed st' = closed st /\ events st' = events st /\ dying st' = dying st
  /\ (forall other, 0 <= other -> other <> channel ->
        channel_at st' other = channel_at (grow channel st) other).
Proof.
  intros Hok c st' c'.
  destruct (grow_logs channel st) as (Hcl & Hev & Hdy & Hfreq).
  set (d := int_of_float (F32.mul delay (F32.of_Z 1000))).
  assert (Hms : ms_to_samples (grow channel st) d = ms_to_samples st d)
    by (unfold ms_to_samples; now rewrite Hfreq).
  set (new := {| i_done := 0; i_duration := to_unsigned (ms_to_samples st d);
                 i_start := (get_interpolate (pan c)).1; i_end := pan_ |}).
  assert (Hst' : st' = error SUCCESS (store_channel channel (set_pan new c) (grow channel st))).
  { unfold st', RPS_set_pan. enter_usable Hok. fold c. fold d. rewrite Hms.
    pose proof (ramp_from_current (pan c) pan_ (to_unsigned (ms_to_samples st d))) as Hramp.
    destruct (get_interpolate (pan c)) as [value i] eqn:Hget.
    chan_simpl. cbn [fst] in Hramp. rewrite Hramp. reflexivity. }
  destruct (stored_result _ _ _ _ _ _ Hok Hst' eq_refl)
    as (Hc' & Herr & Hcl' & Hev' & Hdy' & _).
  fold c' in Hc'. rewrite Hc', Herr, Hcl', Hev', Hdy', Hcl, Hev, Hdy.
  chan_simpl.
  repeat split; try reflexivity.
  - intros Hzero. apply (ramp_without_delay new Hzero).
  - intros other H0 Hne. rewrite Hst'.
    apply channel_at_store_other; [apply Hok | exact H0 | exact Hne].
Qed.

Lemma RPS_set_pan_effect_witness :
  (get_interpolate (pan (channel_at (RPS_set_pan 0 F32.one F32.zero st_playing) 0))).1
  = F32.one.
Proof.
  assert (Hok : usable 0 st_playing)
    by (split; [lia | left; vm_compute; reflexivity]).
  destruct (RPS_set_pan_effect 0 F32.one F32.zero st_playing Hok) as (Hpan & _ & H & _).
  apply H. rewrite Hpan. vm_compute. reflexivity.
Defined.

(** X24: [RPS_set_secondary_volume] starts a ramp from the secondary volume
    in effect, in the same way: start at the value interpolated from the old
    ramp, end at the volume asked for, count from 0 over
    [ms_to_samples(delay * 1000)] samples, at once when that is 0.  The rest
    of the channel, the pan included, and every other channel are as
    before. *)
Theorem RPS_set_secondary_volume_effect
    (channel : Z) (vol2 delay : spec_float) (st : State) :
  usable channel st ->
  let c := channel_at (grow channel st) channel in
  let st' := RPS_set_secondary_volume channel vol2 delay st in
  let c' := channel_at st' channel in
  secondary_volume c'
    = {| i_done := 0;
         i_duration := to_unsigned (ms_to_samples st
                         (int_of_float (F32.mul delay (F32.of_Z 1000))));
         i_start := (get_interpolate (secondary_volume c)).1; i_end := vol2 |}
  /\ c' = set_secondary_volume (secondary_volume c') c
  /\ (i_duration (secondary_volume c') = 0%N ->
        (get_interpolate (secondary_volume c')).1 = vol2)
  /\ RPS_error st' = SUCCESS
  /\ closed st' = closed st /\ events st' = events st /\ dying st' = dying st
  /\ (forall other, 0 <= other -> other <> channel ->
        channel_at st' other = channel_at (grow channel st) other).
Proof.
  intros Hok c st' c'.
  destruct (grow_logs channel st) as (Hcl & Hev & Hdy & Hfreq).
  set (d := int_of_float (F32.mul delay (F32.of_Z 1000))).
  assert (Hms : ms_to_samples (grow channel st) d = ms_to_samples st d)
    by (unfold ms_to_samples; now rewrite Hfreq).
  set (new := {| i_done := 0; i_duration := to_unsigned (ms_to_samples st d);
                 i_start := (get_interpolate (secondary_volume c)).1; i_end := vol2 |}).
  assert (Hst' : st' = error SUCCESS
                         (store_channel channel (set_secondary_volume new c) (grow channel st))).
  { unfold st', RPS_set_secondary_volume. enter_usable Hok. fold c. fold d. rewrite Hms.
    pose proof (ramp_from_current (secondary_volume c) vol2
                  (to_unsigned (ms_to_samples st d))) as Hramp.
    destruct (get_interpolate (secondary_volume c)) as [value i] eqn:Hget.
    chan_simpl. cbn [fst] in Hramp. rewrite Hramp. reflexivity. }
  destruct (stored_result _ _ _ _ _ _ Hok Hst' eq_refl)
    as (Hc' & Herr & Hcl' & Hev' & Hdy' & _).
  fold c' in Hc'. rewrite Hc', Herr, Hcl', Hev', Hdy', Hcl, Hev, Hdy.
  chan_simpl.
  repeat split; try reflexivity.
  - intros Hzero. apply (ramp_without_delay new Hzero).
  - intros other H0 Hne. rewrite Hst'.
    apply channel_at_store_other; [apply Hok | exact H0 | exact Hne].
Qed.

Lemma RPS_set_secondary_volume_effect_witness :
  i_end (secondary_volume
           (channel_at (RPS_set_secondary_volume 0 F32.zero F32.one st_playing) 0))
  = F32.zero.
Proof.
  assert (Hok : usable 0 st_playing)
    by (split; [lia | left; vm_compute; reflexivity]).
  destruct (RPS_set_secondary_volume_effect 0 F32.zero F32.one st_playing Hok)
    as (Hvol & _).
  rewrite Hvol. reflexivity.
Defined.

(** X25: the end event is the one set last.  After [RPS_set_endevent] on a
    channel that is playing, [RPS_stop] on that channel posts exactly that
    event, once, and posts nothing when the event is 0; setting the event
    itself posts nothing and leaves the streams as they are. *)
Theorem end_event_posted_on_stop (channel event_ : Z) (p : MediaState) (st : State) :
  0 <= channel ->
  playing (channel_at st channel) = Some p ->
  let st1 := RPS_set_endevent channel event_ st in
  events st1 = events st
  /\ streams (channel_at st1 channel) = streams (channel_at st channel)
  /\ event (channel_at st1 channel) = event_
  /\ events (RPS_stop channel st1)
     = (if event_ =? 0 then events st else event_ :: events st).
Proof.
  intros H0 Hp st1.
  assert (Hin : 0 <= channel < num_channels st).
  { split; [exact H0 |]. unfold num_channels.
    destruct (Z.lt_ge_cases channel (Z.of_nat (length (channels st)))) as [? | Hge]; [assumption |].
    unfold channel_at in Hp. rewrite list_lookup_total_alt in Hp.
    rewrite lookup_ge_None_2 in Hp by lia. discriminate. }
  assert (Hok : usable channel st) by (split; [lia | left; lia]).
  assert (Hgrow : grow channel st = st).
  { unfold grow. destruct (Z.leb_spec (num_channels st) channel); [lia | reflexivity]. }
  assert (Hst1 : st1 = error SUCCESS
                         (store_channel channel (set_event event_ (channel_at st channel)) st)).
  { unfold st1, RPS_set_endevent. enter_usable Hok. rewrite Hgrow. reflexivity. }
  assert (Hch : channels st = channels (grow channel st)) by now rewrite Hgrow.
  destruct (stored_result _ _ _ _ _ _ Hok Hst1 Hch) as (Hc1 & _ & _ & Hev1 & _).
  assert (Hin1 : 0 <= channel < num_channels st1)
    by (rewrite Hst1, num_channels_store; exact Hin).
  assert (Hok1 : usable channel st1) by (split; [lia | left; lia]).
  assert (Hgrow1 : grow channel st1 = st1).
  { unfold grow. destruct (Z.leb_spec (num_channels st1) channel); [lia | reflexivity]. }
  destruct (RPS_stop_stored channel st1 Hok1)
    as (cf & stf & Hstop & Hchf & _ & _ & _ & _ & Hevf & _).
  rewrite Hgrow1, Hc1 in Hevf. chan_simpl_all. rewrite Hp in Hevf.
  rewrite Hc1. unfold streams. chan_simpl.
  repeat split; [exact Hev1 |].
  rewrite Hstop. chan_simpl. rewrite Hevf, Hev1. reflexivity.
Qed.

Lemma end_event_posted_on_stop_witness :
  events (RPS_stop 0 (RPS_set_endevent 0 7 st_playing)) = 7 :: events st_playing.
Proof.
  assert (Hp : playing (channel_at st_playing 0) = Some stream_a)
    by (vm_compute; reflexivity).
  destruct (end_event_posted_on_stop 0 7 stream_a st_playing ltac:(lia) Hp)
    as (_ & _ & _ & H).
  exact H.
Defined.
